(** * Pinball: a shallow embedding of [pinball.py] and its rule properties

    The table simulation of [src/pinball.py] is transcribed function by
    function.  Conventions of the embedding:

    - Python [float] values are idealised as real numbers ([R]); integer
      quantities that the program keeps as [int] (scores, ball counts,
      multipliers) are [Z].
    - Objects are records; a method that mutates [self] becomes a function
      returning the updated record.  Names follow the source
      ([Ball.apply_physics], [Game.do_nudge], ...).
    - The global [random] module is a state component [rng] of the game,
      read through the operations of the [Random] interface.
    - [highscore.txt] is the [disk] component of the game.
    - Rendering ([draw], [draw_hud], [draw_table_bg], the pygame surface and
      clock) does not feed back into the simulation and is not transcribed. *)

From Stdlib Require Import Reals Lra Psatz ZArith List Bool.
Import ListNotations.

Open Scope R_scope.

(** ** Config *)

Definition WIDTH : R := 500.
Definition HEIGHT : R := 650.
Definition GRAVITY : R := 2000.
Definition AIR_FRICTION : R := 0.0005.
Definition RESTI_BALL_WALL : R := 0.85.
Definition RESTI_BALL_BUMPER : R := 1.05.
Definition RESTI_BALL_FLIPPER : R := 1.
Definition TANGENTIAL_FRICTION : R := 0.02.
Definition MAX_BALL_SPEED : R := 2400.

Definition BALL_RADIUS : R := 12.
Definition BALL_MASS : R := 1.

(** [math.radians] *)
Definition radians (deg : R) : R := deg * PI / 180.

Definition FLIPPER_LENGTH : R := 140.
Definition FLIPPER_SPEED : R := radians 900.
Definition FLIPPER_LEFT_MIN : R := radians 15.
Definition FLIPPER_LEFT_MAX : R := radians 70.
Definition FLIPPER_RIGHT_MIN : R := - radians 70.
Definition FLIPPER_RIGHT_MAX : R := - radians 15.

Definition PLUNGER_MAX : R := 480.
Definition PLUNGER_CHARGE_RATE : R := 900.

Definition START_BALLS : Z := 3.
Definition BALL_SAVE_TIME : R := 8.
Definition NUDGE_IMPULSE : R := 260.
Definition TILT_MAX : R := 3.
Definition TILT_DECAY : R := 0.4.
Definition TILT_LOCKOUT : R := 4.

Definition TRAIL_POINTS : nat := 14.
Definition PARTICLE_GRAV : R := 900.

(** The guard added to every distance before dividing by it. *)
Definition EPS : R := 1e-9.

(** ** Vectors ([pygame.math.Vector2]) *)

Module Vec2.
Record t : Type := mk { x : R; y : R }.

Definition zero : t := mk 0 0.
Definition add (u v : t) : t := mk (x u + x v) (y u + y v).
Definition sub (u v : t) : t := mk (x u - x v) (y u - y v).
Definition scale (k : R) (v : t) : t := mk (k * x v) (k * y v).
Definition div (v : t) (k : R) : t := mk (x v / k) (y v / k).
Definition dot (u v : t) : R := x u * x v + y u * y v.
Definition length_squared (v : t) : R := x v * x v + y v * y v.
Definition length (v : t) : R := sqrt (length_squared v).
Definition set_x (v : t) (r : R) : t := mk r (y v).
Definition set_y (v : t) (r : R) : t := mk (x v) r.
End Vec2.

Abbreviation Vec2 := Vec2.t.

Definition Color : Type := (Z * Z * Z)%type.

(** ** Geometry primitives *)

Definition clamp (x lo hi : R) : R := Rmax lo (Rmin hi x).

Definition reflect (v n : Vec2) (restitution : R) : Vec2 :=
  let vn := Vec2.dot v n in
  if Rlt_dec vn 0
  then Vec2.sub v (Vec2.scale ((1 + restitution) * vn) n)
  else v.

(** Result of [circle_line_collision]: (hit, push_vec, normal,
    closest_point, t). *)
Record LineHit : Type := mkLineHit {
  lh_hit : bool;
  lh_push : Vec2;
  lh_normal : Vec2;
  lh_closest : Vec2;
  lh_t : R
}.

Definition circle_line_collision (c : Vec2) (r : R) (a b : Vec2) : LineHit :=
  let ab := Vec2.sub b a in
  let ab2 := Vec2.length_squared ab in
  if Req_dec_T ab2 0 then
    let diff := Vec2.sub c a in
    let dist := Vec2.length diff + EPS in
    if Rlt_dec dist r then
      let n := Vec2.div diff dist in
      mkLineHit true (Vec2.scale (r - dist) n) n a 0
    else mkLineHit false Vec2.zero Vec2.zero Vec2.zero 0
  else
    let t := clamp (Vec2.dot (Vec2.sub c a) ab / ab2) 0 1 in
    let closest := Vec2.add a (Vec2.scale t ab) in
    let diff := Vec2.sub c closest in
    let dist := Vec2.length diff + EPS in
    if Rlt_dec dist r then
      let n := Vec2.div diff dist in
      let push := Vec2.scale (r - dist) n in
      mkLineHit true push n closest t
    else mkLineHit false Vec2.zero Vec2.zero closest t.

(** Result of [circle_circle_collision]: (hit, push_vec, normal). *)
Record CircleHit : Type := mkCircleHit {
  ch_hit : bool;
  ch_push : Vec2;
  ch_normal : Vec2
}.

Definition circle_circle_collision (c1 : Vec2) (r1 : R) (c2 : Vec2) (r2 : R)
  : CircleHit :=
  let diff := Vec2.sub c1 c2 in
  let d := Vec2.length diff + EPS in
  if Rlt_dec d (r1 + r2) then
    let n := Vec2.div diff d in
    let push := Vec2.scale (r1 + r2 - d) n in
    mkCircleHit true push n
  else mkCircleHit false Vec2.zero Vec2.zero.

(** ** Table elements *)

Module Wall.
Record t : Type := mk {
  a : Vec2;
  b : Vec2;
  color : Color;
  score : Z;
  restitution : R
}.
(** The dataclass defaults. *)
Definition default (a b : Vec2) : t :=
  mk a b (220, 220, 220)%Z 5%Z RESTI_BALL_WALL.
End Wall.

Module Bumper.
Record t : Type := mk {
  pos : Vec2;
  radius : R;
  score : Z;
  color : Color
}.
Definition make (pos : Vec2) (radius : R) (score : Z) : t :=
  mk pos radius score (255, 215, 0)%Z.
End Bumper.

Module Rollover.
Record t : Type := mk {
  pos : Vec2;
  radius : R;
  lit : bool;
  score : Z
}.
Definition make (pos : Vec2) : t := mk pos 14 false 250%Z.

Definition set_lit (r : t) (l : bool) : t :=
  mk (pos r) (radius r) l (score r).

(** [check] returns the updated sensor and whether it was newly lit. *)
Definition check (r : t) (ball_pos : Vec2) (ball_r : R) : t * bool :=
  if lit r then (r, false)
  else if Rlt_dec (Vec2.length (Vec2.sub ball_pos (pos r)))
                  (radius r + ball_r * 0.6)
       then (set_lit r true, true)
       else (r, false).
End Rollover.

Module Particle.
Record t : Type := mk {
  pos : Vec2;
  vel : Vec2;
  color : Color;
  life : R
}.

Definition update (p : t) (dt : R) : t :=
  let vel' := Vec2.set_y (vel p) (Vec2.y (vel p) + PARTICLE_GRAV * dt) in
  mk (Vec2.add (pos p) (Vec2.scale dt vel')) vel' (color p) (life p - dt).
End Particle.

(** ** Flippers *)

Module Flipper.
Record t : Type := mk {
  pivot : Vec2;
  length : R;
  is_left : bool;
  angle : R;
  min_angle : R;
  max_angle : R;
  key_pressed : bool;
  ang_vel : R
}.

(** [__init__] *)
Definition init (pivot : Vec2) (length : R) (is_left : bool) : t :=
  if is_left
  then mk pivot length is_left FLIPPER_LEFT_MIN
          FLIPPER_LEFT_MIN FLIPPER_LEFT_MAX false 0
  else mk pivot length is_left FLIPPER_RIGHT_MIN
          FLIPPER_RIGHT_MIN FLIPPER_RIGHT_MAX false 0.

Definition set_key_pressed (f : t) (k : bool) : t :=
  mk (pivot f) (length f) (is_left f) (angle f)
     (min_angle f) (max_angle f) k (ang_vel f).

Definition endpoints (f : t) : Vec2 * Vec2 :=
  let dir_vec := Vec2.mk (cos (angle f)) (- sin (angle f)) in
  let tip := Vec2.add (pivot f) (Vec2.scale (length f) dir_vec) in
  (pivot f, tip).

Definition target (f : t) : R :=
  if key_pressed f then max_angle f else min_angle f.

(** The angle after one step of [update]. *)
Definition step_angle (f : t) (dt : R) : R :=
  let target := target f in
  if Rlt_dec (angle f) target
  then Rmin (angle f + FLIPPER_SPEED * dt) target
  else if Rgt_dec (angle f) target
       then Rmax (angle f - FLIPPER_SPEED * dt) target
       else angle f.

Definition update (f : t) (dt : R) : t :=
  let prev_angle := angle f in
  let angle' := step_angle f dt in
  mk (pivot f) (length f) (is_left f) angle'
     (min_angle f) (max_angle f) (key_pressed f)
     ((angle' - prev_angle) / Rmax dt 1e-6).
End Flipper.

(** ** The ball *)

Module Ball.
Record t : Type := mk {
  pos : Vec2;
  vel : Vec2;
  radius : R;
  mass : R;
  in_play : bool;
  trail : list Vec2
}.

(** [__init__] *)
Definition init (pos : Vec2) : t :=
  mk pos Vec2.zero BALL_RADIUS BALL_MASS false [].

Definition set_pos (b : t) (p : Vec2) : t :=
  mk p (vel b) (radius b) (mass b) (in_play b) (trail b).
Definition set_vel (b : t) (v : Vec2) : t :=
  mk (pos b) v (radius b) (mass b) (in_play b) (trail b).
Definition set_in_play (b : t) (p : bool) : t :=
  mk (pos b) (vel b) (radius b) (mass b) p (trail b).
Definition set_trail (b : t) (l : list Vec2) : t :=
  mk (pos b) (vel b) (radius b) (mass b) (in_play b) l.

(** [deque(maxlen=TRAIL_POINTS).append]: the oldest point is dropped
    once the capacity is exceeded. *)
Definition trail_append (l : list Vec2) (p : Vec2) : list Vec2 :=
  let l' := l ++ [p] in
  if Nat.ltb TRAIL_POINTS (List.length l') then tl l' else l'.

(** Velocity after gravity and air drag, before the speed clamp. *)
Definition vel_gravity_drag (b : t) (dt : R) : Vec2 :=
  let v := Vec2.set_y (vel b) (Vec2.y (vel b) + GRAVITY * dt) in
  Vec2.scale (Rpower (1 - AIR_FRICTION) (dt * 60)) v.

(** The speed clamp. *)
Definition clamp_speed (v : Vec2) : Vec2 :=
  let sp := Vec2.length v in
  if Rgt_dec sp MAX_BALL_SPEED
  then Vec2.scale (MAX_BALL_SPEED / sp) v
  else v.

Definition apply_physics (b : t) (dt : R) : t :=
  if negb (in_play b) then b
  else
    let v := clamp_speed (vel_gravity_drag b dt) in
    let p := Vec2.add (pos b) (Vec2.scale dt v) in
    mk p v (radius b) (mass b) (in_play b) (trail_append (trail b) p).
End Ball.

(** ** The environment of the game *)

(** Outcome of [random.choice([-1, 1])]. *)
Inductive Sign : Type := Minus | Plus.

Definition sign_val (s : Sign) : R :=
  match s with Minus => -1 | Plus => 1 end.

(** The global [random] module: a generator state and the draws the game
    makes from it.  [particle_burst pos normal color] stands for the body of
    [spawn_particles], whose particle count, directions, speeds and
    lifetimes are all random draws. *)
Class Random : Type := {
  Rng : Type;
  choice_sign : Rng -> Sign * Rng;
  uniform : R -> R -> Rng -> R * Rng;
  particle_burst : Vec2 -> Vec2 -> Color -> Rng -> list Particle.t * Rng
}.

(** [highscore.txt]: its integer content ([None] when the file is missing
    or does not parse) and whether writing to it succeeds. *)
Record Disk : Type := mkDisk {
  highscore_txt : option Z;
  writable : bool
}.

(** Keys and events delivered by [pygame.event.get]. *)
Inductive Key : Type :=
| K_ESCAPE | K_LEFT | K_z | K_RIGHT | K_SLASH | K_QUESTION
| K_p | K_r | K_n | K_SPACE | K_other.

Inductive Event : Type :=
| QUIT
| KEYDOWN (key : Key)
| KEYUP (key : Key)
| OtherEvent.

Definition is_K_ESCAPE (k : Key) : bool :=
  match k with K_ESCAPE => true | _ => false end.
Definition is_K_p (k : Key) : bool :=
  match k with K_p => true | _ => false end.
Definition is_K_r (k : Key) : bool :=
  match k with K_r => true | _ => false end.
Definition is_K_n (k : Key) : bool :=
  match k with K_n => true | _ => false end.
(** [e.key in (pygame.K_LEFT, pygame.K_z)] *)
Definition is_left_key (k : Key) : bool :=
  match k with K_LEFT | K_z => true | _ => false end.
(** [e.key in (pygame.K_RIGHT, pygame.K_SLASH, pygame.K_QUESTION)] *)
Definition is_right_key (k : Key) : bool :=
  match k with K_RIGHT | K_SLASH | K_QUESTION => true | _ => false end.

(** ** The game *)

Module Game.
Section WithRandom.
Context {rnd : Random}.

Record t : Type := mk {
  running : bool;
  walls : list Wall.t;
  bumpers : list Bumper.t;
  rollovers : list Rollover.t;
  left_flipper : Flipper.t;
  right_flipper : Flipper.t;
  ball : Ball.t;
  plunger_power : R;
  ball_save_timer : R;
  ball_save_active : bool;
  score : Z;
  high_score : Z;
  balls_left : Z;
  paused : bool;
  game_over : bool;
  just_lost : bool;
  bonus_mult : Z;
  bumper_mult : Z;
  bumper_mult_timer : R;
  tilt_meter : R;
  tilt_active : bool;
  tilt_timer : R;
  particles : list Particle.t;
  rng : Rng;
  disk : Disk
}.

(** Field updates. *)
Definition set_running (g : t) (v : bool) : t :=
  mk v (walls g) (bumpers g) (rollovers g) (left_flipper g)
     (right_flipper g) (ball g) (plunger_power g) (ball_save_timer g)
     (ball_save_active g) (score g) (high_score g) (balls_left g) (paused g)
     (game_over g) (just_lost g) (bonus_mult g) (bumper_mult g)
     (bumper_mult_timer g) (tilt_meter g) (tilt_active g) (tilt_timer g)
     (particles g) (rng g) (disk g).
Definition set_walls (g : t) (v : list Wall.t) : t :=
  mk (running g) v (bumpers g) (rollovers g) (left_flipper g)
     (right_flipper g) (ball g) (plunger_power g) (ball_save_timer g)
     (ball_save_active g) (score g) (high_score g) (balls_left g) (paused g)
     (game_over g) (just_lost g) (bonus_mult g) (bumper_mult g)
     (bumper_mult_timer g) (tilt_meter g) (tilt_active g) (tilt_timer g)
     (particles g) (rng g) (disk g).
Definition set_bumpers (g : t) (v : list Bumper.t) : t :=
  mk (running g) (walls g) v (rollovers g) (left_flipper g)
     (right_flipper g) (ball g) (plunger_power g) (ball_save_timer g)
     (ball_save_active g) (score g) (high_score g) (balls_left g) (paused g)
     (game_over g) (just_lost g) (bonus_mult g) (bumper_mult g)
     (bumper_mult_timer g) (tilt_meter g) (tilt_active g) (tilt_timer g)
     (particles g) (rng g) (disk g).
Definition set_rollovers (g : t) (v : list Rollover.t) : t :=
  mk (running g) (walls g) (bumpers g) v (left_flipper g) (right_flipper g)
     (ball g) (plunger_power g) (ball_save_timer g) (ball_save_active g)
     (score g) (high_score g) (balls_left g) (paused g) (game_over g)
     (just_lost g) (bonus_mult g) (bumper_mult g) (bumper_mult_timer g)
     (tilt_meter g) (tilt_active g) (tilt_timer g) (particles g) (rng g)
     (disk g).
Definition set_left_flipper (g : t) (v : Flipper.t) : t :=
  mk (running g) (walls g) (bumpers g) (rollovers g) v (right_flipper g)
     (ball g) (plunger_power g) (ball_save_timer g) (ball_save_active g)
     (score g) (high_score g) (balls_left g) (paused g) (game_over g)
     (just_lost g) (bonus_mult g) (bumper_mult g) (bumper_mult_timer g)
     (tilt_meter g) (tilt_active g) (tilt_timer g) (particles g) (rng g)
     (disk g).
Definition set_right_flipper (g : t) (v : Flipper.t) : t :=
  mk (running g) (walls g) (bumpers g) (rollovers g) (left_flipper g) v
     (ball g) (plunger_power g) (ball_save_timer g) (ball_save_active g)
     (score g) (high_score g) (balls_left g) (paused g) (game_over g)
     (just_lost g) (bonus_mult g) (bumper_mult g) (bumper_mult_timer g)
     (tilt_meter g) (tilt_active g) (tilt_timer g) (particles g) (rng g)
     (disk g).
Definition set_ball (g : t) (v : Ball.t) : t :=
  mk (running g) (walls g) (bumpers g) (rollovers g) (left_flipper g)
     (right_flipper g) v (plunger_power g) (ball_save_timer g)
     (ball_save_active g) (score g) (high_score g) (balls_left g) (paused g)
     (game_over g) (just_lost g) (bonus_mult g) (bumper_mult g)
     (bumper_mult_timer g) (tilt_meter g) (tilt_active g) (tilt_timer g)
     (particles g) (rng g) (disk g).
Definition set_plunger_power (g : t) (v : R) : t :=
  mk (running g) (walls g) (bumpers g) (rollovers g) (left_flipper g)
     (right_flipper g) (ball g) v (ball_save_timer g) (ball_save_active g)
     (score g) (high_score g) (balls_left g) (paused g) (game_over g)
     (just_lost g) (bonus_mult g) (bumper_mult g) (bumper_mult_timer g)
     (tilt_meter g) (tilt_active g) (tilt_timer g) (particles g) (rng g)
     (disk g).
Definition set_ball_save_timer (g : t) (v : R) : t :=
  mk (running g) (walls g) (bumpers g) (rollovers g) (left_flipper g)
     (right_flipper g) (ball g) (plunger_power g) v (ball_save_active g)
     (score g) (high_score g) (balls_left g) (paused g) (game_over g)
     (just_lost g) (bonus_mult g) (bumper_mult g) (bumper_mult_timer g)
     (tilt_meter g) (tilt_active g) (tilt_timer g) (particles g) (rng g)
     (disk g).
Definition set_ball_save_active (g : t) (v : bool) : t :=
  mk (running g) (walls g) (bumpers g) (rollovers g) (left_flipper g)
     (right_flipper g) (ball g) (plunger_power g) (ball_save_timer g) v
     (score g) (high_score g) (balls_left g) (paused g) (game_over g)
     (just_lost g) (bonus_mult g) (bumper_mult g) (bumper_mult_timer g)
     (tilt_meter g) (tilt_active g) (tilt_timer g) (particles g) (rng g)
     (disk g).
Definition set_score (g : t) (v : Z) : t :=
  mk (running g) (walls g) (bumpers g) (rollovers g) (left_flipper g)
     (right_flipper g) (ball g) (plunger_power g) (ball_save_timer g)
     (ball_save_active g) v (high_score g) (balls_left g) (paused g)
     (game_over g) (just_lost g) (bonus_mult g) (bumper_mult g)
     (bumper_mult_timer g) (tilt_meter g) (tilt_active g) (tilt_timer g)
     (particles g) (rng g) (disk g).
Definition set_high_score (g : t) (v : Z) : t :=
  mk (running g) (walls g) (bumpers g) (rollovers g) (left_flipper g)
     (right_flipper g) (ball g) (plunger_power g) (ball_save_timer g)
     (ball_save_active g) (score g) v (balls_left g) (paused g)
     (game_over g) (just_lost g) (bonus_mult g) (bumper_mult g)
     (bumper_mult_timer g) (tilt_meter g) (tilt_active g) (tilt_timer g)
     (particles g) (rng g) (disk g).
Definition set_balls_left (g : t) (v : Z) : t :=
  mk (running g) (walls g) (bumpers g) (rollovers g) (left_flipper g)
     (right_flipper g) (ball g) (plunger_power g) (ball_save_timer g)
     (ball_save_active g) (score g) (high_score g) v (paused g)
     (game_over g) (just_lost g) (bonus_mult g) (bumper_mult g)
     (bumper_mult_timer g) (tilt_meter g) (tilt_active g) (tilt_timer g)
     (particles g) (rng g) (disk g).
Definition set_paused (g : t) (v : bool) : t :=
  mk (running g) (walls g) (bumpers g) (rollovers g) (left_flipper g)
     (right_flipper g) (ball g) (plunger_power g) (ball_save_timer g)
     (ball_save_active g) (score g) (high_score g) (balls_left g) v
     (game_over g) (just_lost g) (bonus_mult g) (bumper_mult g)
     (bumper_mult_timer g) (tilt_meter g) (tilt_active g) (tilt_timer g)
     (particles g) (rng g) (disk g).
Definition set_game_over (g : t) (v : bool) : t :=
  mk (running g) (walls g) (bumpers g) (rollovers g) (left_flipper g)
     (right_flipper g) (ball g) (plunger_power g) (ball_save_timer g)
     (ball_save_active g) (score g) (high_score g) (balls_left g) (paused g)
     v (just_lost g) (bonus_mult g) (bumper_mult g) (bumper_mult_timer g)
     (tilt_meter g) (tilt_active g) (tilt_timer g) (particles g) (rng g)
     (disk g).
Definition set_just_lost (g : t) (v : bool) : t :=
  mk (running g) (walls g) (bumpers g) (rollovers g) (left_flipper g)
     (right_flipper g) (ball g) (plunger_power g) (ball_save_timer g)
     (ball_save_active g) (score g) (high_score g) (balls_left g) (paused g)
     (game_over g) v (bonus_mult g) (bumper_mult g) (bumper_mult_timer g)
     (tilt_meter g) (tilt_active g) (tilt_timer g) (particles g) (rng g)
     (disk g).
Definition set_bonus_mult (g : t) (v : Z) : t :=
  mk (running g) (walls g) (bumpers g) (rollovers g) (left_flipper g)
     (right_flipper g) (ball g) (plunger_power g) (ball_save_timer g)
     (ball_save_active g) (score g) (high_score g) (balls_left g) (paused g)
     (game_over g) (just_lost g) v (bumper_mult g) (bumper_mult_timer g)
     (tilt_meter g) (tilt_active g) (tilt_timer g) (particles g) (rng g)
     (disk g).
Definition set_bumper_mult (g : t) (v : Z) : t :=
  mk (running g) (walls g) (bumpers g) (rollovers g) (left_flipper g)
     (right_flipper g) (ball g) (plunger_power g) (ball_save_timer g)
     (ball_save_active g) (score g) (high_score g) (balls_left g) (paused g)
     (game_over g) (just_lost g) (bonus_mult g) v (bumper_mult_timer g)
     (tilt_meter g) (tilt_active g) (tilt_timer g) (particles g) (rng g)
     (disk g).
Definition set_bumper_mult_timer (g : t) (v : R) : t :=
  mk (running g) (walls g) (bumpers g) (rollovers g) (left_flipper g)
     (right_flipper g) (ball g) (plunger_power g) (ball_save_timer g)
     (ball_save_active g) (score g) (high_score g) (balls_left g) (paused g)
     (game_over g) (just_lost g) (bonus_mult g) (bumper_mult g) v
     (tilt_meter g) (tilt_active g) (tilt_timer g) (particles g) (rng g)
     (disk g).
Definition set_tilt_meter (g : t) (v : R) : t :=
  mk (running g) (walls g) (bumpers g) (rollovers g) (left_flipper g)
     (right_flipper g) (ball g) (plunger_power g) (ball_save_timer g)
     (ball_save_active g) (score g) (high_score g) (balls_left g) (paused g)
     (game_over g) (just_lost g) (bonus_mult g) (bumper_mult g)
     (bumper_mult_timer g) v (tilt_active g) (tilt_timer g) (particles g)
     (rng g) (disk g).
Definition set_tilt_active (g : t) (v : bool) : t :=
  mk (running g) (walls g) (bumpers g) (rollovers g) (left_flipper g)
     (right_flipper g) (ball g) (plunger_power g) (ball_save_timer g)
     (ball_save_active g) (score g) (high_score g) (balls_left g) (paused g)
     (game_over g) (just_lost g) (bonus_mult g) (bumper_mult g)
     (bumper_mult_timer g) (tilt_meter g) v (tilt_timer g) (particles g)
     (rng g) (disk g).
Definition set_tilt_timer (g : t) (v : R) : t :=
  mk (running g) (walls g) (bumpers g) (rollovers g) (left_flipper g)
     (right_flipper g) (ball g) (plunger_power g) (ball_save_timer g)
     (ball_save_active g) (score g) (high_score g) (balls_left g) (paused g)
     (game_over g) (just_lost g) (bonus_mult g) (bumper_mult g)
     (bumper_mult_timer g) (tilt_meter g) (tilt_active g) v (particles g)
     (rng g) (disk g).
Definition set_particles (g : t) (v : list Particle.t) : t :=
  mk (running g) (walls g) (bumpers g) (rollovers g) (left_flipper g)
     (right_flipper g) (ball g) (plunger_power g) (ball_save_timer g)
     (ball_save_active g) (score g) (high_score g) (balls_left g) (paused g)
     (game_over g) (just_lost g) (bonus_mult g) (bumper_mult g)
     (bumper_mult_timer g) (tilt_meter g) (tilt_active g) (tilt_timer g) v
     (rng g) (disk g).
Definition set_rng (g : t) (v : Rng) : t :=
  mk (running g) (walls g) (bumpers g) (rollovers g) (left_flipper g)
     (right_flipper g) (ball g) (plunger_power g) (ball_save_timer g)
     (ball_save_active g) (score g) (high_score g) (balls_left g) (paused g)
     (game_over g) (just_lost g) (bonus_mult g) (bumper_mult g)
     (bumper_mult_timer g) (tilt_meter g) (tilt_active g) (tilt_timer g)
     (particles g) v (disk g).
Definition set_disk (g : t) (v : Disk) : t :=
  mk (running g) (walls g) (bumpers g) (rollovers g) (left_flipper g)
     (right_flipper g) (ball g) (plunger_power g) (ball_save_timer g)
     (ball_save_active g) (score g) (high_score g) (balls_left g) (paused g)
     (game_over g) (just_lost g) (bonus_mult g) (bumper_mult g)
     (bumper_mult_timer g) (tilt_meter g) (tilt_active g) (tilt_timer g)
     (particles g) (rng g) v.

(** *** High-score persistence *)

Definition load_high_score (d : Disk) : Z :=
  match highscore_txt d with
  | Some n => n
  | None => 0%Z
  end.

(** A failed write is swallowed by the [except] clause. *)
Definition save_high_score (g : t) : t :=
  if writable (disk g)
  then set_disk g (mkDisk (Some (high_score g)) (writable (disk g)))
  else g.

(** *** Table set-up ([__init__]) *)

Definition margin : R := 80.
Definition bottom_y : R := HEIGHT - 80.

Definition init_walls : list Wall.t :=
  [ Wall.default (Vec2.mk margin 140) (Vec2.mk margin bottom_y);
    Wall.default (Vec2.mk margin 140) (Vec2.mk (WIDTH - margin - 100) 140);
    Wall.default (Vec2.mk (WIDTH - margin - 100) 140)
                 (Vec2.mk (WIDTH - margin - 100) (bottom_y - 180));
    Wall.default (Vec2.mk margin bottom_y)
                 (Vec2.mk (WIDTH / 2 - 80) (HEIGHT - 20));
    Wall.default (Vec2.mk (WIDTH - margin - 100) (bottom_y - 180))
                 (Vec2.mk (WIDTH - margin - 60) (bottom_y - 60));
    Wall.default (Vec2.mk (WIDTH - margin - 60) (bottom_y - 60))
                 (Vec2.mk (WIDTH / 2 + 80) (HEIGHT - 20));
    Wall.mk (Vec2.mk (WIDTH * 0.28) (bottom_y - 40))
            (Vec2.mk (WIDTH * 0.42) (bottom_y - 110))
            (255, 150, 150)%Z 25%Z 1.2;
    Wall.mk (Vec2.mk (WIDTH * 0.72) (bottom_y - 40))
            (Vec2.mk (WIDTH * 0.58) (bottom_y - 110))
            (255, 150, 150)%Z 25%Z 1.2 ].

Definition init_bumpers : list Bumper.t :=
  [ Bumper.make (Vec2.mk (WIDTH * 0.35) 300) 38 150;
    Bumper.make (Vec2.mk (WIDTH * 0.55) 300) 38 150;
    Bumper.make (Vec2.mk (WIDTH * 0.45) 220) 38 200;
    Bumper.make (Vec2.mk (WIDTH * 0.32) 480) 28 100;
    Bumper.make (Vec2.mk (WIDTH * 0.58) 520) 28 100;
    Bumper.make (Vec2.mk (WIDTH * 0.46) 620) 24 75 ].

Definition init_rollovers : list Rollover.t :=
  [ Rollover.make (Vec2.mk (WIDTH * 0.35) 160);
    Rollover.make (Vec2.mk (WIDTH * 0.45) 160);
    Rollover.make (Vec2.mk (WIDTH * 0.55) 160) ].

Definition pivot_y : R := HEIGHT - 120.

(** Where a new ball is placed (the plunger zone). *)
Definition launch_pos : Vec2 := Vec2.mk (WIDTH - 140) (HEIGHT - 140).

Definition init (r : Rng) (d : Disk) : t :=
  mk true init_walls init_bumpers init_rollovers
     (Flipper.init (Vec2.mk (WIDTH * 0.35) pivot_y) FLIPPER_LENGTH true)
     (Flipper.init (Vec2.mk (WIDTH * 0.65) pivot_y) FLIPPER_LENGTH false)
     (Ball.init launch_pos)
     0 0 false
     0%Z (load_high_score d) START_BALLS
     false false false
     1%Z 1%Z 0
     0 false 0
     [] r d.

(** *** Ball life cycle *)

Definition reset_ball (g : t) : t :=
  let g := set_ball g (Ball.init launch_pos) in
  let g := set_plunger_power g 0 in
  let g := set_just_lost g false in
  let g := set_ball_save_active g false in
  set_ball_save_timer g 0.

Definition launch_ball (g : t) : t :=
  if Ball.in_play (ball g) then g
  else
    let (angle, r) := uniform (radians 100) (radians 120) (rng g) in
    let g := set_rng g r in
    let speed := plunger_power g + 400 in
    let vx := cos angle * speed in
    let vy := - sin angle * speed in
    let g := set_ball g (Ball.set_vel (ball g) (Vec2.mk vx vy)) in
    let g := set_ball g (Ball.set_in_play (ball g) true) in
    let g := set_plunger_power g 0 in
    let g := set_ball_save_active g true in
    set_ball_save_timer g BALL_SAVE_TIME.

(** *** Particles *)

Definition spawn_particles (g : t) (pos normal : Vec2) (color : Color) : t :=
  let (ps, r) := particle_burst pos normal color (rng g) in
  set_rng (set_particles g (particles g ++ ps)) r.

Definition particles_update (g : t) (dt : R) : t :=
  let aged := map (fun p => Particle.update p dt) (particles g) in
  set_particles g
    (filter (fun p => if Rgt_dec (Particle.life p) 0 then true else false)
            aged).

(** *** Nudge and tilt *)

Definition do_nudge (g : t) : t :=
  let (dir_sign, r) := choice_sign (rng g) in
  let g := set_rng g r in
  let v := Ball.vel (ball g) in
  let g := set_ball g (Ball.set_vel (ball g)
             (Vec2.set_x v (Vec2.x v + sign_val dir_sign * NUDGE_IMPULSE))) in
  let g := set_tilt_meter g (tilt_meter g + 1) in
  if (if Rge_dec (tilt_meter g) TILT_MAX then true else false)
     && negb (tilt_active g)
  then
    let g := set_tilt_active g true in
    let g := set_tilt_timer g TILT_LOCKOUT in
    let g := set_left_flipper g
               (Flipper.set_key_pressed (left_flipper g) false) in
    set_right_flipper g (Flipper.set_key_pressed (right_flipper g) false)
  else g.

(** *** Restart *)

Definition restart (g : t) : t :=
  let g := set_score g 0%Z in
  let g := set_balls_left g START_BALLS in
  let g := set_game_over g false in
  let g := set_paused g false in
  let g := reset_ball g in
  let g := set_bonus_mult g 1%Z in
  let g := set_bumper_mult g 1%Z in
  let g := set_bumper_mult_timer g 0 in
  let g := set_rollovers g
             (map (fun r => Rollover.set_lit r false) (rollovers g)) in
  let g := set_tilt_meter g 0 in
  let g := set_tilt_active g false in
  set_particles g [].

(** *** Input *)

(** The body of the event loop of [handle_events] for one event. *)
Definition handle_event (g : t) (e : Event) : t :=
  match e with
  | QUIT => set_running g false
  | KEYDOWN key =>
    let g := if is_K_ESCAPE key then set_running g false else g in
    let g := if negb (tilt_active g) && is_left_key key
             then set_left_flipper g
                    (Flipper.set_key_pressed (left_flipper g) true)
             else g in
    let g := if negb (tilt_active g) && is_right_key key
             then set_right_flipper g
                    (Flipper.set_key_pressed (right_flipper g) true)
             else g in
    let g := if is_K_p key
             then if negb (game_over g)
                  then set_paused g (negb (paused g)) else g
             else g in
    let g := if is_K_r key
             then if game_over g then restart g else g
             else g in
    if is_K_n key && Ball.in_play (ball g) && negb (paused g)
       && negb (game_over g)
    then do_nudge g
    else g
  | KEYUP key =>
    let g := if is_left_key key
             then set_left_flipper g
                    (Flipper.set_key_pressed (left_flipper g) false)
             else g in
    if is_right_key key
    then set_right_flipper g
           (Flipper.set_key_pressed (right_flipper g) false)
    else g
  | OtherEvent => g
  end.

(** [events] is the queue returned by [pygame.event.get()] and
    [space_held] is [pygame.key.get_pressed()[K_SPACE]]. *)
Definition handle_events (g : t) (dt : R) (events : list Event)
    (space_held : bool) : t :=
  let g := fold_left handle_event events g in
  if negb (Ball.in_play (ball g)) && negb (game_over g) && negb (paused g)
  then
    if space_held
    then set_plunger_power g
           (clamp (plunger_power g + PLUNGER_CHARGE_RATE * dt) 0 PLUNGER_MAX)
    else if Rgt_dec (plunger_power g) 0 then launch_ball g else g
  else g.

(** *** Collision handlers *)

Definition add_score (g : t) (n : Z) : t := set_score g (score g + n)%Z.

(** The body of the loop over the walls in [handle_wall_collisions]. *)
Definition wall_collide (g : t) (w : Wall.t) : t :=
  let h := circle_line_collision (Ball.pos (ball g)) (Ball.radius (ball g))
                                 (Wall.a w) (Wall.b w) in
  if lh_hit h then
    let n := lh_normal h in
    let g := set_ball g (Ball.set_pos (ball g)
               (Vec2.add (Ball.pos (ball g)) (lh_push h))) in
    let t := Vec2.mk (- Vec2.y n) (Vec2.x n) in
    let vt := Vec2.dot (Ball.vel (ball g)) t in
    let vn := Vec2.dot (Ball.vel (ball g)) n in
    let vt := vt * (1 - TANGENTIAL_FRICTION) in
    let g := set_ball g (Ball.set_vel (ball g)
               (Vec2.add (Vec2.scale vt t) (Vec2.scale vn n))) in
    let g := set_ball g (Ball.set_vel (ball g)
               (reflect (Ball.vel (ball g)) n (Wall.restitution w))) in
    if Ball.in_play (ball g)
    then spawn_particles (add_score g (Wall.score w))
           (Ball.pos (ball g)) n (200, 220, 255)%Z
    else g
  else g.

(** The safety clamp at the left, right and top borders that ends
    [handle_wall_collisions]. *)
Definition boundary_clamp (b : Ball.t) : Ball.t :=
  let margin := 74 in
  let b :=
    if Rlt_dec (Vec2.x (Ball.pos b) - Ball.radius b) margin
    then
      let b := Ball.set_pos b
                 (Vec2.set_x (Ball.pos b) (margin + Ball.radius b)) in
      Ball.set_vel b (Vec2.set_x (Ball.vel b)
                        (Rabs (Vec2.x (Ball.vel b)) * RESTI_BALL_WALL))
    else b in
  let b :=
    if Rgt_dec (Vec2.x (Ball.pos b) + Ball.radius b) (WIDTH - 160)
    then
      let b := Ball.set_pos b
                 (Vec2.set_x (Ball.pos b) (WIDTH - 160 - Ball.radius b)) in
      Ball.set_vel b (Vec2.set_x (Ball.vel b)
                        (- Rabs (Vec2.x (Ball.vel b)) * RESTI_BALL_WALL))
    else b in
  if Rlt_dec (Vec2.y (Ball.pos b) - Ball.radius b) (120 + 16)
  then
    let b := Ball.set_pos b
               (Vec2.set_y (Ball.pos b) (120 + 16 + Ball.radius b)) in
    Ball.set_vel b (Vec2.set_y (Ball.vel b)
                      (Rabs (Vec2.y (Ball.vel b)) * RESTI_BALL_WALL))
  else b.

Definition handle_wall_collisions (g : t) : t :=
  let g := fold_left wall_collide (walls g) g in
  set_ball g (boundary_clamp (ball g)).

(** The body of the loop over the bumpers in [handle_bumper_collisions]. *)
Definition bumper_collide (g : t) (b : Bumper.t) : t :=
  let h := circle_circle_collision (Ball.pos (ball g)) (Ball.radius (ball g))
                                   (Bumper.pos b) (Bumper.radius b) in
  if ch_hit h then
    let n := ch_normal h in
    let g := set_ball g (Ball.set_pos (ball g)
               (Vec2.add (Ball.pos (ball g)) (ch_push h))) in
    let g := set_ball g (Ball.set_vel (ball g)
               (reflect (Ball.vel (ball g)) n RESTI_BALL_BUMPER)) in
    let g := set_ball g (Ball.set_vel (ball g)
               (Vec2.add (Ball.vel (ball g)) (Vec2.scale 200 n))) in
    if Ball.in_play (ball g)
    then spawn_particles (add_score g (Bumper.score b * bumper_mult g))
           (Ball.pos (ball g)) n (255, 230, 120)%Z
    else g
  else g.

Definition handle_bumper_collisions (g : t) : t :=
  fold_left bumper_collide (bumpers g) g.

(** The first loop of [handle_rollovers]: every sensor is checked in turn;
    the result is the list of updated sensors and the game with the scores
    of the newly lit ones added.  (The counter [newly] of the source is
    never read and is left out.) *)
Fixpoint check_rollovers (rs : list Rollover.t) (g : t)
  : list Rollover.t * t :=
  match rs with
  | [] => ([], g)
  | r :: rest =>
    let (r', newly_lit) :=
      Rollover.check r (Ball.pos (ball g)) (Ball.radius (ball g)) in
    let g :=
      if newly_lit && Ball.in_play (ball g)
      then spawn_particles (add_score g (Rollover.score r'))
             (Rollover.pos r') (Vec2.mk 0 (-1)) (120, 220, 255)%Z
      else g in
    let (rest', g) := check_rollovers rest g in
    (r' :: rest', g)
  end.

Definition handle_rollovers (g : t) : t :=
  let (rs, g) := check_rollovers (rollovers g) g in
  let g := set_rollovers g rs in
  if Ball.in_play (ball g) && forallb Rollover.lit (rollovers g)
  then
    let g := add_score g 1000 in
    let g := set_bumper_mult g 2%Z in
    let g := set_bumper_mult_timer g 15 in
    set_rollovers g (map (fun r => Rollover.set_lit r false) (rollovers g))
  else g.

Definition handle_flipper_collision (g : t) (flipper : Flipper.t) : t :=
  let (a, b) := Flipper.endpoints flipper in
  let h := circle_line_collision (Ball.pos (ball g)) (Ball.radius (ball g))
                                 a b in
  if negb (lh_hit h) then g
  else
    let n := lh_normal h in
    let contact := lh_closest h in
    let g := set_ball g (Ball.set_pos (ball g)
               (Vec2.add (Ball.pos (ball g)) (lh_push h))) in
    let g := set_ball g (Ball.set_vel (ball g)
               (reflect (Ball.vel (ball g)) n RESTI_BALL_FLIPPER)) in
    let r := Vec2.sub contact (Flipper.pivot flipper) in
    let v_point :=
      Vec2.scale (Flipper.ang_vel flipper)
                 (Vec2.mk (- Vec2.y r) (Vec2.x r)) in
    let boost := Vec2.dot v_point n in
    let g :=
      if Rgt_dec boost 0
      then set_ball g (Ball.set_vel (ball g)
             (Vec2.add (Ball.vel (ball g)) (Vec2.scale (boost * 0.9) n)))
      else g in
    if Ball.in_play (ball g)
    then spawn_particles (add_score g 1) contact n (230, 70, 70)%Z
    else g.

(** *** The frame update *)

(** Flipper motion, ball physics and the collision handlers. *)
Definition update_motion (g : t) (dt : R) : t :=
  let g := set_left_flipper g (Flipper.update (left_flipper g) dt) in
  let g := set_right_flipper g (Flipper.update (right_flipper g) dt) in
  let g := set_ball g (Ball.apply_physics (ball g) dt) in
  let g := handle_wall_collisions g in
  let g := handle_bumper_collisions g in
  let g := handle_rollovers g in
  let g := handle_flipper_collision g (left_flipper g) in
  let g := handle_flipper_collision g (right_flipper g) in
  particles_update g dt.

(** Bumper-multiplier, tilt and ball-save timers. *)
Definition update_timers (g : t) (dt : R) : t :=
  let g :=
    if Rgt_dec (bumper_mult_timer g) 0 then
      let g := set_bumper_mult_timer g (bumper_mult_timer g - dt) in
      if Rle_dec (bumper_mult_timer g) 0 then set_bumper_mult g 1%Z else g
    else g in
  let g :=
    if tilt_active g then
      let g := set_tilt_timer g (tilt_timer g - dt) in
      if Rle_dec (tilt_timer g) 0 then set_tilt_active g false else g
    else set_tilt_meter g (Rmax 0 (tilt_meter g - TILT_DECAY * dt)) in
  if ball_save_active g then
    let g := set_ball_save_timer g (ball_save_timer g - dt) in
    if Rle_dec (ball_save_timer g) 0 then set_ball_save_active g false else g
  else g.

(** Whether the drain check at the end of [update] fires. *)
Definition drains (g : t) : bool :=
  Ball.in_play (ball g)
  && (if Rgt_dec (Vec2.y (Ball.pos (ball g)) - Ball.radius (ball g))
                 (HEIGHT + 40)
      then true else false).

(** The drain check that ends [update]. *)
Definition drain_check (g : t) : t :=
  if drains g then
    if ball_save_active g then
      let g := set_ball g (Ball.set_in_play (ball g) false) in
      reset_ball g
    else
      let g := set_balls_left g (balls_left g - 1)%Z in
      let g := set_ball g (Ball.set_in_play (ball g) false) in
      let g := set_just_lost g true in
      if (balls_left g <=? 0)%Z then
        let g := set_game_over g true in
        let g := set_high_score g (Z.max (high_score g) (score g)) in
        save_high_score g
      else reset_ball g
  else g.

Definition update (g : t) (dt : R) : t :=
  if paused g || game_over g then g
  else drain_check (update_timers (update_motion g dt) dt).

(** One iteration of the loop of [run]. *)
Definition frame (g : t) (dt : R) (events : list Event) (space_held : bool)
  : t :=
  update (handle_events g dt events space_held) dt.

(** The loop of [run] over the frames whose inputs are given: each entry is
    the frame time, the event queue and the state of the space key.  The
    loop body runs only while [running] holds. *)
Fixpoint run_loop (g : t) (inputs : list (R * list Event * bool)) : t :=
  match inputs with
  | [] => g
  | (dt, events, space_held) :: rest =>
    if running g
    then run_loop (frame g dt events space_held) rest
    else g
  end.

Definition run (g : t) (inputs : list (R * list Event * bool)) : t :=
  run_loop (reset_ball g) inputs.

End WithRandom.
End Game.

(** * Vocabulary of the properties *)

Section Vocabulary.
Context {rnd : Random}.

Import Game.

(** The session fields that only the drain check, restart and the pause key
    write. *)
Definition session_frame (g g' : Game.t) : Prop :=
  balls_left g' = balls_left g
  /\ high_score g' = high_score g
  /\ game_over g' = game_over g
  /\ paused g' = paused g
  /\ disk g' = disk g.

(** What the motion phase keeps: the session fields and the ball-save
    window. *)
Definition motion_frame (g g' : Game.t) : Prop :=
  session_frame g g'
  /\ ball_save_active g' = ball_save_active g
  /\ ball_save_timer g' = ball_save_timer g.

(** The in-play flag is kept, and so is the score when the ball is idle. *)
Definition idle_frame (g g' : Game.t) : Prop :=
  Ball.in_play (ball g') = Ball.in_play (ball g)
  /\ (Ball.in_play (ball g) = false -> score g' = score g).

(** Score collected from the sensors of [rs] that the ball at [p] with
    radius [rad] newly lights. *)
Fixpoint newly_lit_score (rs : list Rollover.t) (p : Vec2) (rad : R) : Z :=
  match rs with
  | [] => 0%Z
  | r :: rest =>
    ((if snd (Rollover.check r p rad) then Rollover.score r else 0)
     + newly_lit_score rest p rad)%Z
  end.

(** The sensors after the ball at [p] has been checked against each. *)
Definition checked_rollovers (rs : list Rollover.t) (p : Vec2) (rad : R)
  : list Rollover.t :=
  map (fun r => fst (Rollover.check r p rad)) rs.

(** While the game is not over at least one ball is left: this holds
    initially, after [restart], and is kept by every frame, so that at a
    drain "the count reaches zero" and "the count is no longer positive"
    are the same event. *)
Definition balls_invariant (g : Game.t) : Prop :=
  game_over g = false -> (1 <= balls_left g)%Z.

(** The table is above the height [Y]: every wall end, the lowest point of
    every bumper and the whole reach of both flippers. *)
Definition table_above (g : Game.t) (Y : R) : Prop :=
  Forall (fun w => Vec2.y (Wall.a w) <= Y /\ Vec2.y (Wall.b w) <= Y) (walls g)
  /\ Forall (fun b => Vec2.y (Bumper.pos b) + Bumper.radius b <= Y)
            (bumpers g)
  /\ 0 <= Flipper.length (left_flipper g)
  /\ Vec2.y (Flipper.pivot (left_flipper g))
     + Flipper.length (left_flipper g) <= Y
  /\ 0 <= Flipper.length (right_flipper g)
  /\ Vec2.y (Flipper.pivot (right_flipper g))
     + Flipper.length (right_flipper g) <= Y.

(** What the collision handlers and the particle update never write. *)
Definition handlers_frame (g g' : Game.t) : Prop :=
  running g' = running g
  /\ walls g' = walls g
  /\ bumpers g' = bumpers g
  /\ left_flipper g' = left_flipper g
  /\ right_flipper g' = right_flipper g
  /\ plunger_power g' = plunger_power g
  /\ just_lost g' = just_lost g
  /\ bonus_mult g' = bonus_mult g
  /\ tilt_meter g' = tilt_meter g
  /\ tilt_active g' = tilt_active g
  /\ tilt_timer g' = tilt_timer g
  /\ Ball.radius (ball g') = Ball.radius (ball g)
  /\ Ball.mass (ball g') = Ball.mass (ball g)
  /\ Ball.trail (ball g') = Ball.trail (ball g).

(** A tilted table has both flipper intents cleared. *)
Definition tilt_lock (g : Game.t) : Prop :=
  tilt_active g = true ->
  Flipper.key_pressed (left_flipper g) = false
  /\ Flipper.key_pressed (right_flipper g) = false.

(** The plunger charge stays within its range. *)
Definition plunger_ok (g : Game.t) : Prop :=
  0 <= plunger_power g <= PLUNGER_MAX.

(** The bumper multiplier is 1, or 2 with its timer still running. *)
Definition mult_ok (g : Game.t) : Prop :=
  bumper_mult g = 1%Z
  \/ (bumper_mult g = 2%Z /\ 0 < bumper_mult_timer g).

(** No table element carries a negative score. *)
Definition scores_nonneg (g : Game.t) : Prop :=
  Forall (fun w => (0 <= Wall.score w)%Z) (walls g)
  /\ Forall (fun b => (0 <= Bumper.score b)%Z) (bumpers g)
  /\ Forall (fun r => (0 <= Rollover.score r)%Z) (rollovers g).

(** The game that [handle_rollovers] sees within [update_motion]. *)
Definition before_rollovers (g : Game.t) (dt : R) : Game.t :=
  handle_bumper_collisions
    (handle_wall_collisions
       (set_ball
          (set_right_flipper
             (set_left_flipper g (Flipper.update (left_flipper g) dt))
             (Flipper.update (right_flipper g) dt))
          (Ball.apply_physics (ball g) dt))).

(** What a finished game keeps. *)
Definition over_frame (g g' : Game.t) : Prop :=
  game_over g' = true
  /\ score g' = score g
  /\ balls_left g' = balls_left g
  /\ high_score g' = high_score g
  /\ ball g' = ball g
  /\ paused g' = paused g
  /\ plunger_power g' = plunger_power g
  /\ tilt_meter g' = tilt_meter g
  /\ tilt_active g' = tilt_active g
  /\ rollovers g' = rollovers g
  /\ disk g' = disk g.

(** A finished game has its score recorded in the high score. *)
Definition record_ok (g : Game.t) : Prop :=
  game_over g = true -> (score g <= high_score g)%Z.

(** The rule invariants of a session taken together. *)
Definition session_ok (g : Game.t) : Prop :=
  balls_invariant g
  /\ tilt_lock g
  /\ plunger_ok g
  /\ mult_ok g
  /\ scores_nonneg g
  /\ (0 <= score g)%Z
  /\ record_ok g.

(** The events that end the loop of [run]. *)
Definition quits (e : Event) : bool :=
  match e with
  | QUIT => true
  | KEYDOWN key => is_K_ESCAPE key
  | _ => false
  end.

(** [n] successive flipper updates with the same timestep. *)
Definition flipper_steps (n : nat) (f : Flipper.t) (dt : R) : Flipper.t :=
  Nat.iter n (fun f' => Flipper.update f' dt) f.

(** The direction at right angles to [n] that the wall response uses. *)
Definition perp (n : Vec2) : Vec2 := Vec2.mk (- Vec2.y n) (Vec2.x n).

End Vocabulary.

(** * Example games on the real table *)

(** A deterministic generator for the examples: signs alternate starting
    with [Plus], [uniform] returns the midpoint, and a burst is ten equal
    particles. *)
Definition demo_random : Random := {|
  Rng := nat;
  choice_sign := fun n => (if Nat.even n then Plus else Minus, S n);
  uniform := fun a b n => ((a + b) / 2, S n);
  particle_burst := fun pos normal color n =>
    (repeat (Particle.mk pos
               (Vec2.mk (-100 * Vec2.x normal) (100 * Vec2.y normal))
               color 0.3) 10, S n)
|}.

(** The table as [__init__] builds it, with a stored high score of 1200. *)
Definition table : @Game.t demo_random :=
  Game.init (rnd := demo_random) 0%nat (mkDisk (Some 1200%Z) true).

(** A ball in play, just above the drain line and falling. *)
Definition falling_ball : Ball.t :=
  Ball.mk (Vec2.mk 200 690) (Vec2.mk 0 1500) BALL_RADIUS BALL_MASS true [].

(** The last ball of a session, about to drain. *)
Definition last_ball_game : @Game.t demo_random :=
  Game.set_balls_left (Game.set_ball table falling_ball) 1.

(** A tilted table with the ball in play. *)
Definition tilted_game : @Game.t demo_random :=
  Game.set_tilt_timer
    (Game.set_tilt_active
       (Game.set_tilt_meter (Game.set_ball table falling_ball) 3) true) 4.

(** Two nudges so far, not tilted, flippers held. *)
Definition nudged_game : @Game.t demo_random :=
  let g := Game.set_tilt_meter (Game.set_ball table falling_ball) 2 in
  let g := Game.set_left_flipper g
             (Flipper.set_key_pressed (Game.left_flipper g) true) in
  Game.set_right_flipper g
    (Flipper.set_key_pressed (Game.right_flipper g) true).

(** The left flipper at rest with its key pressed. *)
Definition pressed_flipper : Flipper.t :=
  Flipper.set_key_pressed
    (Flipper.init (Vec2.mk (WIDTH * 0.35) Game.pivot_y) FLIPPER_LENGTH true)
    true.





(** Unit vector from the bumper centre up to the ball. *)
Definition up : Vec2 := Vec2.mk 0 (-1).


(** A finished game: the table with the game-over flag set. *)
Definition finished_game : @Game.t demo_random :=
  Game.set_game_over table true.

(** The idle ball where the border clamp of the first frame leaves it. *)
Definition idle_game : @Game.t demo_random :=
  Game.set_ball table
    (Ball.mk (Vec2.mk 328 510) Vec2.zero BALL_RADIUS BALL_MASS false []).

(** Distance from the idle ball to the centre of the fifth bumper, plus the
    guard. *)
Definition idle_gap : R :=
  Vec2.length (Vec2.sub (Vec2.mk 328 510) (Vec2.mk (WIDTH * 0.58) 520)) + EPS.

(** * Properties *)

(** ** Vector algebra *)

Lemma length_squared_nonneg (v : Vec2) : 0 <= Vec2.length_squared v.
Proof. unfold Vec2.length_squared. nra. Qed.

Lemma length_nonneg (v : Vec2) : 0 <= Vec2.length v.
Proof. apply sqrt_pos. Qed.

Lemma length_sqr (v : Vec2) :
  Vec2.length v * Vec2.length v = Vec2.length_squared v.
Proof. apply sqrt_sqrt, length_squared_nonneg. Qed.

Lemma length_scale (k : R) (v : Vec2) :
  Vec2.length (Vec2.scale k v) = Rabs k * Vec2.length v.
Proof.
  unfold Vec2.length, Vec2.length_squared, Vec2.scale; simpl.
  replace (k * Vec2.x v * (k * Vec2.x v) + k * Vec2.y v * (k * Vec2.y v))
    with (Rsqr k * (Vec2.x v * Vec2.x v + Vec2.y v * Vec2.y v))
    by (unfold Rsqr; ring).
  rewrite sqrt_mult; [ | apply Rle_0_sqr | nra ].
  now rewrite sqrt_Rsqr_abs.
Qed.

Lemma dot_self (v : Vec2) : Vec2.dot v v = Vec2.length_squared v.
Proof. reflexivity. Qed.

Lemma unit_dot_self (n : Vec2) : Vec2.length n = 1 -> Vec2.dot n n = 1.
Proof. intros H. rewrite dot_self, <- length_sqr, H. ring. Qed.

Lemma dot_sub_scale (v n : Vec2) (k : R) :
  Vec2.dot (Vec2.sub v (Vec2.scale k n)) n
  = Vec2.dot v n - k * Vec2.dot n n.
Proof. unfold Vec2.dot, Vec2.sub, Vec2.scale; simpl. ring. Qed.

Lemma PI_pos : 0 < PI.
Proof. exact PI_RGT_0. Qed.

Lemma FLIPPER_SPEED_pos : 0 < FLIPPER_SPEED.
Proof. unfold FLIPPER_SPEED, radians. pose proof PI_pos. lra. Qed.

(** ** Ball dynamics *)

Lemma clamp_speed_bound (v : Vec2) :
  Vec2.length (Ball.clamp_speed v) <= MAX_BALL_SPEED.
Proof.
  unfold Ball.clamp_speed.
  destruct (Rgt_dec (Vec2.length v) MAX_BALL_SPEED) as [Hgt | Hle].
  - rewrite length_scale.
    assert (Hm : 0 < MAX_BALL_SPEED) by (unfold MAX_BALL_SPEED; lra).
    assert (Hs : 0 < Vec2.length v) by lra.
    rewrite Rabs_pos_eq.
    + unfold Rdiv. rewrite Rmult_assoc, Rinv_l by lra. lra.
    + apply Rlt_le, Rdiv_lt_0_compat; assumption.
  - lra.
Qed.

Lemma clamp_speed_rescales (v : Vec2) :
  MAX_BALL_SPEED < Vec2.length v ->
  Ball.clamp_speed v = Vec2.scale (MAX_BALL_SPEED / Vec2.length v) v
  /\ 0 < MAX_BALL_SPEED / Vec2.length v
  /\ Vec2.length (Ball.clamp_speed v) = MAX_BALL_SPEED.
Proof.
  intros Hgt. unfold Ball.clamp_speed.
  assert (Hm : 0 < MAX_BALL_SPEED) by (unfold MAX_BALL_SPEED; lra).
  assert (Hs : 0 < Vec2.length v) by lra.
  assert (Hk : 0 < MAX_BALL_SPEED / Vec2.length v)
    by (apply Rdiv_lt_0_compat; assumption).
  destruct (Rgt_dec (Vec2.length v) MAX_BALL_SPEED) as [_ | Hn]; [ | lra ].
  repeat split; try assumption.
  rewrite length_scale, Rabs_pos_eq by lra.
  unfold Rdiv. rewrite Rmult_assoc, Rinv_l by lra. lra.
Qed.

Lemma clamp_speed_below (v : Vec2) :
  Vec2.length v <= MAX_BALL_SPEED -> Ball.clamp_speed v = v.
Proof.
  intros Hle. unfold Ball.clamp_speed.
  destruct (Rgt_dec (Vec2.length v) MAX_BALL_SPEED); [ lra | reflexivity ].
Qed.

Lemma apply_physics_vel (b : Ball.t) (dt : R) :
  Ball.in_play b = true ->
  Ball.vel (Ball.apply_physics b dt)
  = Ball.clamp_speed (Ball.vel_gravity_drag b dt).
Proof. intros Hp. unfold Ball.apply_physics. now rewrite Hp. Qed.

(** C1: for a ball in play and a positive timestep, the speed after
    [Ball.apply_physics] is at most [MAX_BALL_SPEED]; when the speed after
    gravity and drag exceeds the maximum, the new velocity is that velocity
    multiplied by the positive factor [MAX_BALL_SPEED / speed] (same
    direction) and its magnitude is exactly the maximum; otherwise the
    velocity after gravity and drag is kept. *)
Theorem apply_physics_speed_clamp (b : Ball.t) (dt : R) :
  Ball.in_play b = true ->
  0 < dt ->
  let v1 := Ball.vel_gravity_drag b dt in
  let v' := Ball.vel (Ball.apply_physics b dt) in
  Vec2.length v' <= MAX_BALL_SPEED
  /\ (MAX_BALL_SPEED < Vec2.length v1 ->
      v' = Vec2.scale (MAX_BALL_SPEED / Vec2.length v1) v1
      /\ 0 < MAX_BALL_SPEED / Vec2.length v1
      /\ Vec2.length v' = MAX_BALL_SPEED)
  /\ (Vec2.length v1 <= MAX_BALL_SPEED -> v' = v1).
Proof.
  intros Hp Hdt v1 v'. subst v1 v'.
  rewrite (apply_physics_vel b dt Hp).
  split; [ apply clamp_speed_bound | split ].
  - apply clamp_speed_rescales.
  - apply clamp_speed_below.
Qed.

(** ** Reflection *)

(** C2: for a unit normal [n], if the component of [v] along [n] is
    negative, [reflect] returns [v - (1+e)*(v.n)*n], and an incoming normal
    speed [s > 0] (that is, [v.n = -s]) leaves with normal speed [e*s]; if
    the component is non-negative, [reflect] returns [v] unchanged. *)
Theorem reflect_law (v n : Vec2) (e : R) :
  Vec2.length n = 1 ->
  (Vec2.dot v n < 0 ->
     reflect v n e
     = Vec2.sub v (Vec2.scale ((1 + e) * Vec2.dot v n) n)
     /\ forall s, 0 < s -> Vec2.dot v n = - s ->
          Vec2.dot (reflect v n e) n = e * s)
  /\ (0 <= Vec2.dot v n -> reflect v n e = v).
Proof.
  intros Hn. apply unit_dot_self in Hn.
  unfold reflect. split; intros Hvn.
  - destruct (Rlt_dec (Vec2.dot v n) 0) as [_ | Hc]; [ | lra ].
    split; [ reflexivity | ].
    intros s Hs Hdot. rewrite dot_sub_scale, Hn, Hdot. ring.
  - destruct (Rlt_dec (Vec2.dot v n) 0); [ lra | reflexivity ].
Qed.

(** ** Flipper kinematics *)

Lemma step_angle_cases (f : Flipper.t) (dt : R) :
  0 < dt ->
  (Flipper.angle f < Flipper.target f ->
     Flipper.angle f < Flipper.step_angle f dt <= Flipper.target f
     /\ (Flipper.step_angle f dt = Flipper.target f
         \/ Flipper.step_angle f dt
            = Flipper.angle f + FLIPPER_SPEED * dt))
  /\ (Flipper.target f < Flipper.angle f ->
     Flipper.target f <= Flipper.step_angle f dt < Flipper.angle f
     /\ (Flipper.step_angle f dt = Flipper.target f
         \/ Flipper.step_angle f dt
            = Flipper.angle f - FLIPPER_SPEED * dt))
  /\ (Flipper.angle f = Flipper.target f ->
     Flipper.step_angle f dt = Flipper.angle f).
Proof.
  intros Hdt. pose proof FLIPPER_SPEED_pos as Hs.
  assert (Hq : 0 < FLIPPER_SPEED * dt) by nra.
  unfold Flipper.step_angle.
  split; [ | split ]; intros H;
    destruct (Rlt_dec (Flipper.angle f) (Flipper.target f));
    destruct (Rgt_dec (Flipper.angle f) (Flipper.target f));
    try lra.
  - unfold Rmin; destruct (Rle_dec _ _); lra.
  - unfold Rmax; destruct (Rle_dec _ _); lra.
Qed.

(** The step of [update] is the fixed-rate step cut off at the target. *)
Lemma step_angle_rate (f : Flipper.t) (dt : R) :
  (Flipper.angle f < Flipper.target f ->
     Flipper.step_angle f dt
     = Rmin (Flipper.angle f + FLIPPER_SPEED * dt) (Flipper.target f))
  /\ (Flipper.target f < Flipper.angle f ->
     Flipper.step_angle f dt
     = Rmax (Flipper.angle f - FLIPPER_SPEED * dt) (Flipper.target f)).
Proof.
  unfold Flipper.step_angle. cbv zeta.
  split; intros H;
    destruct (Rlt_dec (Flipper.angle f) (Flipper.target f));
    destruct (Rgt_dec (Flipper.angle f) (Flipper.target f));
    try lra; reflexivity.
Qed.

(** C8: for a flipper whose angle lies in [[min_angle, max_angle]] and a
    positive timestep, [Flipper.update] keeps the limits and the activation
    intent and moves the angle toward the target (max angle when the intent
    is set, min angle otherwise) at the fixed rate [FLIPPER_SPEED]: below
    the target the new angle is [min (angle + FLIPPER_SPEED * dt, target)],
    above it [max (angle - FLIPPER_SPEED * dt, target)], so the step is
    exactly [FLIPPER_SPEED * dt] whenever that does not pass the target and
    ends on the target otherwise; the angle moves strictly, never passes the
    target, rests once on it, and stays within [[min_angle, max_angle]]. *)
Theorem flipper_update_toward_target (f : Flipper.t) (dt : R) :
  Flipper.min_angle f <= Flipper.angle f <= Flipper.max_angle f ->
  0 < dt ->
  let f' := Flipper.update f dt in
  let target := if Flipper.key_pressed f
                then Flipper.max_angle f else Flipper.min_angle f in
  Flipper.min_angle f' = Flipper.min_angle f
  /\ Flipper.max_angle f' = Flipper.max_angle f
  /\ Flipper.key_pressed f' = Flipper.key_pressed f
  /\ Flipper.min_angle f <= Flipper.angle f' <= Flipper.max_angle f
  /\ (Flipper.angle f < target ->
        Flipper.angle f < Flipper.angle f' <= target
        /\ (Flipper.angle f' = target
            \/ Flipper.angle f' = Flipper.angle f + FLIPPER_SPEED * dt))
  /\ (target < Flipper.angle f ->
        target <= Flipper.angle f' < Flipper.angle f
        /\ (Flipper.angle f' = target
            \/ Flipper.angle f' = Flipper.angle f - FLIPPER_SPEED * dt))
  /\ (Flipper.angle f = target -> Flipper.angle f' = Flipper.angle f)
  /\ (Flipper.angle f < target ->
      Flipper.angle f'
      = Rmin (Flipper.angle f + FLIPPER_SPEED * dt) target
      /\ (Flipper.angle f + FLIPPER_SPEED * dt <= target ->
          Flipper.angle f' = Flipper.angle f + FLIPPER_SPEED * dt)
      /\ (target <= Flipper.angle f + FLIPPER_SPEED * dt ->
          Flipper.angle f' = target))
  /\ (target < Flipper.angle f ->
      Flipper.angle f'
      = Rmax (Flipper.angle f - FLIPPER_SPEED * dt) target
      /\ (target <= Flipper.angle f - FLIPPER_SPEED * dt ->
          Flipper.angle f' = Flipper.angle f - FLIPPER_SPEED * dt)
      /\ (Flipper.angle f - FLIPPER_SPEED * dt <= target ->
          Flipper.angle f' = target)).
Proof.
  intros Hin Hdt f' target.
  destruct (step_angle_cases f dt Hdt) as (Hup & Hdown & Heq).
  destruct (step_angle_rate f dt) as (Rup & Rdown).
  assert (Ht : target = Flipper.target f) by reflexivity.
  assert (Htin : Flipper.min_angle f <= target <= Flipper.max_angle f).
  { subst target. destruct (Flipper.key_pressed f); lra. }
  rewrite Ht in *. clear Ht.
  change (Flipper.angle f') with (Flipper.step_angle f dt).
  repeat split; try reflexivity.
  - destruct (Rtotal_order (Flipper.angle f) (Flipper.target f))
      as [H | [H | H]].
    + destruct (Hup H); lra.
    + rewrite (Heq H); lra.
    + destruct (Hdown H); lra.
  - destruct (Rtotal_order (Flipper.angle f) (Flipper.target f))
      as [H | [H | H]].
    + destruct (Hup H); lra.
    + rewrite (Heq H); lra.
    + destruct (Hdown H); lra.
  - apply Hup; assumption.
  - apply Hup; assumption.
  - apply Hup; assumption.
  - apply Hdown; assumption.
  - apply Hdown; assumption.
  - apply Hdown; assumption.
  - apply Heq; assumption.
  - apply Rup; assumption.
  - intros Hle. rewrite (Rup H). apply Rmin_left, Hle.
  - intros Hle. rewrite (Rup H). apply Rmin_right, Hle.
  - apply Rdown; assumption.
  - intros Hle. rewrite (Rdown H). apply Rmax_left, Hle.
  - intros Hle. rewrite (Rdown H). apply Rmax_right, Hle.
Qed.

(** Both flippers start within their limits. *)
Lemma flipper_init_in_range (pivot : Vec2) (len : R) (is_left : bool) :
  let f := Flipper.init pivot len is_left in
  Flipper.min_angle f <= Flipper.angle f <= Flipper.max_angle f.
Proof.
  pose proof PI_pos as Hpi.
  destruct is_left; simpl;
    unfold FLIPPER_LEFT_MIN, FLIPPER_LEFT_MAX, FLIPPER_RIGHT_MIN,
      FLIPPER_RIGHT_MAX, radians; lra.
Qed.

(** ** Game rules *)

Section GameRules.
Context {rnd : Random}.

Import Game.

(** *** Launch *)

(** C10: when the ball is already in play, [launch_ball] returns the game
    unchanged (ball, plunger charge, ball-save flag and timer, generator
    state and everything else). *)
Theorem launch_ball_in_play_noop (g : Game.t) :
  Ball.in_play (ball g) = true ->
  launch_ball g = g.
Proof. intros Hp. unfold launch_ball. now rewrite Hp. Qed.

(** *** Restart *)

Lemma reset_ball_ball (g : Game.t) : ball (reset_ball g) = Ball.init launch_pos.
Proof. reflexivity. Qed.

Lemma restart_rollovers_unlit (g : Game.t) :
  Forall (fun r => Rollover.lit r = false) (rollovers (restart g)).
Proof.
  unfold restart; simpl. apply Forall_forall. intros r Hr.
  apply in_map_iff in Hr. destruct Hr as (r0 & <- & _). reflexivity.
Qed.

(** C7: the restart key acts only when the game is over (otherwise the
    key-down event leaves the game as it is), and [restart] sets the score
    to zero, balls-remaining to [START_BALLS], every rollover to unlit, the
    bumper multiplier to 1 and its timer to 0, the tilt meter to 0 and the
    tilt flag to false, puts a fresh idle ball at the launch position, and
    keeps the high score. *)
Theorem restart_only_when_game_over (g : Game.t) :
  handle_event g (KEYDOWN K_r) = (if game_over g then restart g else g)
  /\ score (restart g) = 0%Z
  /\ balls_left (restart g) = START_BALLS
  /\ rollovers (restart g)
     = map (fun r => Rollover.set_lit r false) (rollovers g)
  /\ Forall (fun r => Rollover.lit r = false) (rollovers (restart g))
  /\ bumper_mult (restart g) = 1%Z
  /\ bumper_mult_timer (restart g) = 0
  /\ tilt_meter (restart g) = 0
  /\ tilt_active (restart g) = false
  /\ ball (restart g) = Ball.init launch_pos
  /\ Ball.in_play (ball (restart g)) = false
  /\ Ball.pos (ball (restart g)) = launch_pos
  /\ game_over (restart g) = false
  /\ high_score (restart g) = high_score g.
Proof.
  split.
  - unfold handle_event; simpl.
    rewrite !andb_false_r. destruct (game_over g); reflexivity.
  - repeat split; try reflexivity. apply restart_rollovers_unlit.
Qed.

(** *** Nudge and tilt *)

Lemma sign_val_cases (s : Sign) : sign_val s = -1 \/ sign_val s = 1.
Proof. destruct s; simpl; auto. Qed.

(** The nudge key is gated by: ball in play, not paused, game not over. *)
Lemma nudge_key_gate (g : Game.t) :
  handle_event g (KEYDOWN K_n)
  = if Ball.in_play (ball g) && negb (paused g) && negb (game_over g)
    then do_nudge g else g.
Proof. unfold handle_event; simpl. now rewrite !andb_false_r. Qed.

Lemma do_nudge_impulse (g : Game.t) :
  let s := fst (choice_sign (rng g)) in
  Ball.vel (ball (do_nudge g))
  = Vec2.mk (Vec2.x (Ball.vel (ball g)) + sign_val s * NUDGE_IMPULSE)
            (Vec2.y (Ball.vel (ball g)))
  /\ Ball.pos (ball (do_nudge g)) = Ball.pos (ball g)
  /\ Ball.in_play (ball (do_nudge g)) = Ball.in_play (ball g)
  /\ tilt_meter (do_nudge g) = tilt_meter g + 1.
Proof.
  unfold do_nudge. destruct (choice_sign (rng g)) as [s r]. cbv zeta.
  destruct (_ && _); repeat split; reflexivity.
Qed.

Lemma do_nudge_tilt_activates (g : Game.t) :
  tilt_meter g + 1 >= TILT_MAX ->
  tilt_active g = false ->
  tilt_active (do_nudge g) = true
  /\ tilt_timer (do_nudge g) = TILT_LOCKOUT
  /\ Flipper.key_pressed (left_flipper (do_nudge g)) = false
  /\ Flipper.key_pressed (right_flipper (do_nudge g)) = false.
Proof.
  intros Hm Ha. unfold do_nudge.
  destruct (choice_sign (rng g)) as [s r]. cbv zeta. simpl.
  rewrite Ha.
  destruct (Rge_dec (tilt_meter g + 1) TILT_MAX) as [_ | Hn];
    [ | exfalso; exact (Hn Hm) ].
  repeat split; reflexivity.
Qed.

Lemma do_nudge_tilt_unchanged (g : Game.t) :
  tilt_meter g + 1 < TILT_MAX \/ tilt_active g = true ->
  tilt_active (do_nudge g) = tilt_active g
  /\ tilt_timer (do_nudge g) = tilt_timer g
  /\ left_flipper (do_nudge g) = left_flipper g
  /\ right_flipper (do_nudge g) = right_flipper g.
Proof.
  intros H. unfold do_nudge.
  destruct (choice_sign (rng g)) as [s r]. cbv zeta. simpl.
  destruct (Rge_dec (tilt_meter g + 1) TILT_MAX) as [Hge | Hlt];
    destruct (tilt_active g) eqn:Ha; simpl;
    try (repeat split; (reflexivity || assumption)).
  destruct H as [H | H]; [ lra | discriminate ].
Qed.

(** C4 (as the code has it): the nudge key performs a nudge exactly when
    the ball is in play, the game is not paused and the game is not over
    (tilt does not block it); a nudge adds [NUDGE_IMPULSE] times a drawn
    sign (-1 or 1) to the horizontal velocity and adds exactly 1 to the tilt
    meter; when the meter then is at least [TILT_MAX] and tilt is not
    active, tilt activates, the lockout timer is set to [TILT_LOCKOUT] and
    both flipper intents are cleared; otherwise tilt flag, timer and
    flippers are left as they are. *)
Theorem nudge_gate_and_effect (g : Game.t) :
  handle_event g (KEYDOWN K_n)
  = (if Ball.in_play (ball g) && negb (paused g) && negb (game_over g)
     then do_nudge g else g)
  /\ (exists s : Sign,
        (sign_val s = -1 \/ sign_val s = 1)
        /\ Ball.vel (ball (do_nudge g))
           = Vec2.mk (Vec2.x (Ball.vel (ball g)) + sign_val s * NUDGE_IMPULSE)
                     (Vec2.y (Ball.vel (ball g))))
  /\ tilt_meter (do_nudge g) = tilt_meter g + 1
  /\ (tilt_meter g + 1 >= TILT_MAX -> tilt_active g = false ->
        tilt_active (do_nudge g) = true
        /\ tilt_timer (do_nudge g) = TILT_LOCKOUT
        /\ Flipper.key_pressed (left_flipper (do_nudge g)) = false
        /\ Flipper.key_pressed (right_flipper (do_nudge g)) = false)
  /\ (tilt_meter g + 1 < TILT_MAX \/ tilt_active g = true ->
        tilt_active (do_nudge g) = tilt_active g
        /\ tilt_timer (do_nudge g) = tilt_timer g
        /\ left_flipper (do_nudge g) = left_flipper g
        /\ right_flipper (do_nudge g) = right_flipper g).
Proof.
  split; [ apply nudge_key_gate | ].
  split.
  { exists (fst (choice_sign (rng g))). split.
    - apply sign_val_cases.
    - apply do_nudge_impulse. }
  split; [ apply do_nudge_impulse | ].
  split; [ apply do_nudge_tilt_activates | apply do_nudge_tilt_unchanged ].
Qed.

(** *** What the motion and timer phases leave alone *)

Lemma session_frame_refl (g : Game.t) : session_frame g g.
Proof. repeat split. Qed.

Lemma session_frame_trans (g1 g2 g3 : Game.t) :
  session_frame g1 g2 -> session_frame g2 g3 -> session_frame g1 g3.
Proof.
  unfold session_frame.
  intros (A1 & A2 & A3 & A4 & A5) (B1 & B2 & B3 & B4 & B5).
  repeat split; congruence.
Qed.

Lemma motion_frame_refl (g : Game.t) : motion_frame g g.
Proof. repeat split. Qed.

Lemma motion_frame_trans (g1 g2 g3 : Game.t) :
  motion_frame g1 g2 -> motion_frame g2 g3 -> motion_frame g1 g3.
Proof.
  unfold motion_frame. intros (A & A1 & A2) (B & B1 & B2).
  split; [ eapply session_frame_trans; eassumption | split; congruence ].
Qed.

Lemma idle_frame_refl (g : Game.t) : idle_frame g g.
Proof. split; auto. Qed.

Lemma idle_frame_trans (g1 g2 g3 : Game.t) :
  idle_frame g1 g2 -> idle_frame g2 g3 -> idle_frame g1 g3.
Proof.
  unfold idle_frame. intros (A1 & A2) (B1 & B2). split.
  - congruence.
  - intros H. rewrite B2, A2; congruence.
Qed.

Lemma fold_left_frame {B : Type} (F : Game.t -> Game.t -> Prop)
    (f : Game.t -> B -> Game.t) :
  (forall g, F g g) ->
  (forall g1 g2 g3, F g1 g2 -> F g2 g3 -> F g1 g3) ->
  (forall g b, F g (f g b)) ->
  forall l g, F g (fold_left f l g).
Proof.
  intros Hrefl Htrans Hstep l.
  induction l as [ | b l IH ]; intros g; simpl.
  - apply Hrefl.
  - eapply Htrans; [ apply Hstep | apply IH ].
Qed.

Ltac split_branches :=
  repeat (simpl;
          match goal with
          | |- context [ let (_, _) := ?e in _ ] => destruct e
          | |- context [ if ?c then _ else _ ] => destruct c eqn:?
          end).

Ltac frame_step :=
  unfold motion_frame, session_frame, idle_frame, wall_collide,
    bumper_collide,
    handle_flipper_collision, particles_update, update_timers,
    spawn_particles, add_score;
  cbv zeta; split_branches; simpl in *;
  repeat split; try reflexivity; try congruence.

Lemma spawn_particles_motion (g : Game.t) p n c :
  motion_frame g (spawn_particles g p n c).
Proof. frame_step. Qed.

Lemma wall_collide_motion (g : Game.t) w : motion_frame g (wall_collide g w).
Proof. frame_step. Qed.

Lemma wall_collide_idle (g : Game.t) w : idle_frame g (wall_collide g w).
Proof. frame_step. Qed.

Lemma handle_wall_collisions_motion (g : Game.t) :
  motion_frame g (handle_wall_collisions g).
Proof.
  unfold handle_wall_collisions. cbv zeta.
  eapply motion_frame_trans.
  - apply (fold_left_frame motion_frame wall_collide motion_frame_refl
             motion_frame_trans wall_collide_motion).
  - repeat split.
Qed.

Lemma boundary_clamp_in_play (b : Ball.t) :
  Ball.in_play (boundary_clamp b) = Ball.in_play b.
Proof. unfold boundary_clamp. cbv zeta. split_branches; reflexivity. Qed.

Lemma handle_wall_collisions_idle (g : Game.t) :
  idle_frame g (handle_wall_collisions g).
Proof.
  unfold handle_wall_collisions. cbv zeta.
  eapply idle_frame_trans.
  - apply (fold_left_frame idle_frame wall_collide idle_frame_refl
             idle_frame_trans wall_collide_idle).
  - split; simpl; [ apply boundary_clamp_in_play | reflexivity ].
Qed.

Lemma bumper_collide_motion (g : Game.t) b :
  motion_frame g (bumper_collide g b).
Proof. frame_step. Qed.

Lemma bumper_collide_idle (g : Game.t) b : idle_frame g (bumper_collide g b).
Proof. frame_step. Qed.

Lemma handle_bumper_collisions_motion (g : Game.t) :
  motion_frame g (handle_bumper_collisions g).
Proof.
  apply (fold_left_frame motion_frame bumper_collide motion_frame_refl
           motion_frame_trans bumper_collide_motion).
Qed.

Lemma handle_bumper_collisions_idle (g : Game.t) :
  idle_frame g (handle_bumper_collisions g).
Proof.
  apply (fold_left_frame idle_frame bumper_collide idle_frame_refl
           idle_frame_trans bumper_collide_idle).
Qed.

Lemma spawn_particles_ball (g : Game.t) p n c :
  ball (spawn_particles g p n c) = ball g.
Proof. unfold spawn_particles. destruct (particle_burst _ _ _ _). reflexivity. Qed.

Lemma spawn_particles_score (g : Game.t) p n c :
  score (spawn_particles g p n c) = score g.
Proof. unfold spawn_particles. destruct (particle_burst _ _ _ _). reflexivity. Qed.

Lemma spawn_particles_rules (g : Game.t) p n c :
  bumper_mult (spawn_particles g p n c) = bumper_mult g
  /\ bumper_mult_timer (spawn_particles g p n c) = bumper_mult_timer g
  /\ rollovers (spawn_particles g p n c) = rollovers g.
Proof.
  unfold spawn_particles. destruct (particle_burst _ _ _ _).
  repeat split.
Qed.

(** *** Rollovers *)


Lemma check_score (r : Rollover.t) (p : Vec2) (rad : R) :
  Rollover.score (fst (Rollover.check r p rad)) = Rollover.score r.
Proof.
  unfold Rollover.check.
  destruct (Rollover.lit r); [ reflexivity | ].
  destruct (Rlt_dec _ _); reflexivity.
Qed.

Lemma check_rollovers_spec (rs : list Rollover.t) (g : Game.t) :
  let p := Ball.pos (ball g) in
  let rad := Ball.radius (ball g) in
  fst (check_rollovers rs g) = map (fun r => fst (Rollover.check r p rad)) rs
  /\ ball (snd (check_rollovers rs g)) = ball g
  /\ score (snd (check_rollovers rs g))
     = (score g + if Ball.in_play (ball g)
                  then newly_lit_score rs p rad else 0)%Z
  /\ bumper_mult (snd (check_rollovers rs g)) = bumper_mult g
  /\ bumper_mult_timer (snd (check_rollovers rs g)) = bumper_mult_timer g
  /\ motion_frame g (snd (check_rollovers rs g)).
Proof.
  revert g. induction rs as [ | r rest IH ]; intros g p rad; simpl.
  - repeat split. destruct (Ball.in_play (ball g)); ring.
  - subst p rad.
    destruct (Rollover.check r (Ball.pos (ball g)) (Ball.radius (ball g)))
      as [r' newly] eqn:Hc.
    assert (Hs : Rollover.score r' = Rollover.score r).
    { pose proof (check_score r (Ball.pos (ball g)) (Ball.radius (ball g)))
        as H. now rewrite Hc in H. }
    set (g1 := if newly && Ball.in_play (ball g)
               then spawn_particles (add_score g (Rollover.score r'))
                      (Rollover.pos r') (Vec2.mk 0 (-1)) (120, 220, 255)%Z
               else g).
    assert (Hb : ball g1 = ball g).
    { subst g1. destruct (newly && _); [ | reflexivity ].
      now rewrite spawn_particles_ball. }
    assert (Hsc : score g1
                  = (score g + if newly && Ball.in_play (ball g)
                               then Rollover.score r else 0)%Z).
    { subst g1. destruct (newly && _).
      - rewrite spawn_particles_score. simpl. now rewrite Hs.
      - ring. }
    assert (Hr : bumper_mult g1 = bumper_mult g
                 /\ bumper_mult_timer g1 = bumper_mult_timer g
                 /\ motion_frame g g1).
    { subst g1. destruct (newly && _).
      - destruct (spawn_particles_rules (add_score g (Rollover.score r'))
                    (Rollover.pos r') (Vec2.mk 0 (-1)) (120, 220, 255)%Z)
          as (A & B & _).
        rewrite A, B. split; [ reflexivity | split; [ reflexivity | ] ].
        eapply motion_frame_trans; [ | apply spawn_particles_motion ].
        repeat split.
      - repeat split. }
    destruct Hr as (Hm & Ht & Hf).
    specialize (IH g1). cbv zeta in IH. rewrite Hb in IH.
    destruct (check_rollovers rest g1) as [rest' g2]. simpl in *.
    destruct IH as (I1 & I2 & I3 & I4 & I5 & I6).
    split; [ congruence | ]. split; [ congruence | ].
    split.
    { rewrite I3, Hsc.
      destruct newly; destruct (Ball.in_play (ball g)); simpl; ring. }
    split; [ congruence | ]. split; [ congruence | ].
    eapply motion_frame_trans; eassumption.
Qed.

Lemma handle_rollovers_spec (g : Game.t) :
  let p := Ball.pos (ball g) in
  let rad := Ball.radius (ball g) in
  let checked := checked_rollovers (rollovers g) p rad in
  let bonus := Ball.in_play (ball g) && forallb Rollover.lit checked in
  ball (handle_rollovers g) = ball g
  /\ score (handle_rollovers g)
     = (score g
        + (if Ball.in_play (ball g)
           then newly_lit_score (rollovers g) p rad else 0)
        + (if bonus then 1000 else 0))%Z
  /\ rollovers (handle_rollovers g)
     = (if bonus
        then map (fun r => Rollover.set_lit r false) checked
        else checked)
  /\ bumper_mult (handle_rollovers g)
     = (if bonus then 2%Z else bumper_mult g)
  /\ bumper_mult_timer (handle_rollovers g)
     = (if bonus then 15 else bumper_mult_timer g)
  /\ motion_frame g (handle_rollovers g).
Proof.
  intros p rad checked bonus.
  destruct (check_rollovers_spec (rollovers g) g)
    as (H1 & H2 & H3 & H4 & H5 & H6).
  fold p rad in H1, H3. fold (checked_rollovers (rollovers g) p rad) in H1.
  fold checked in H1.
  unfold handle_rollovers.
  destruct (check_rollovers (rollovers g) g) as [rs g1]. simpl in *.
  subst rs. rewrite H2. fold bonus.
  destruct H6 as ((F1 & F2 & F3 & F4 & F5) & F6 & F7).
  destruct bonus; simpl; unfold motion_frame, session_frame; simpl.
  - repeat split; try assumption. rewrite H3. ring.
  - repeat split; try assumption. rewrite H3. ring.
Qed.

Lemma handle_rollovers_motion (g : Game.t) :
  motion_frame g (handle_rollovers g).
Proof. apply handle_rollovers_spec. Qed.

Lemma handle_rollovers_idle (g : Game.t) : idle_frame g (handle_rollovers g).
Proof.
  destruct (handle_rollovers_spec g) as (Hb & Hs & _).
  split.
  - now rewrite Hb.
  - intros Hp. rewrite Hs, Hp. simpl. ring.
Qed.



Lemma handle_flipper_collision_motion (g : Game.t) f :
  motion_frame g (handle_flipper_collision g f).
Proof. frame_step. Qed.

Lemma handle_flipper_collision_idle (g : Game.t) f :
  idle_frame g (handle_flipper_collision g f).
Proof. frame_step. Qed.

Lemma particles_update_motion (g : Game.t) dt :
  motion_frame g (particles_update g dt).
Proof. frame_step. Qed.

Lemma update_timers_session (g : Game.t) dt :
  session_frame g (update_timers g dt).
Proof. frame_step. Qed.

Lemma update_timers_ball (g : Game.t) dt :
  ball (update_timers g dt) = ball g /\ score (update_timers g dt) = score g.
Proof. unfold update_timers. cbv zeta. split_branches; split; reflexivity. Qed.

Lemma update_motion_frame (g : Game.t) dt :
  motion_frame g (update_motion g dt).
Proof.
  unfold update_motion. cbv zeta.
  repeat (eapply motion_frame_trans;
          [ | first [ apply particles_update_motion
                    | apply handle_flipper_collision_motion
                    | apply handle_rollovers_motion
                    | apply handle_bumper_collisions_motion
                    | apply handle_wall_collisions_motion ] ]).
  repeat split.
Qed.

Lemma update_motion_session (g : Game.t) dt :
  session_frame g (update_motion g dt).
Proof. apply update_motion_frame. Qed.

Lemma update_timers_save_off (g : Game.t) dt :
  ball_save_active g = false ->
  ball_save_active (update_timers g dt) = false.
Proof.
  intros H. unfold update_timers. cbv zeta. split_branches;
    simpl in *; congruence.
Qed.

(** *** Drain *)

Lemma update_running (g : Game.t) dt :
  paused g = false -> game_over g = false ->
  update g dt = drain_check (update_timers (update_motion g dt) dt).
Proof. intros Hp Ho. unfold update. now rewrite Hp, Ho. Qed.

Lemma update_game_over (g : Game.t) dt :
  game_over g = true -> update g dt = g.
Proof. intros Ho. unfold update. rewrite Ho, orb_true_r. reflexivity. Qed.

Lemma save_high_score_fields (g : Game.t) :
  high_score (save_high_score g) = high_score g
  /\ game_over (save_high_score g) = game_over g
  /\ balls_left (save_high_score g) = balls_left g
  /\ ball (save_high_score g) = ball g
  /\ score (save_high_score g) = score g
  /\ (writable (disk g) = true ->
      highscore_txt (disk (save_high_score g)) = Some (high_score g))
  /\ (writable (disk g) = false -> disk (save_high_score g) = disk g).
Proof.
  unfold save_high_score.
  destruct (writable (disk g)); repeat split; simpl; congruence.
Qed.

(** The drain check when ball save is active. *)
Lemma drain_check_saved (g : Game.t) :
  drains g = true -> ball_save_active g = true ->
  balls_left (drain_check g) = balls_left g
  /\ ball (drain_check g) = Ball.init launch_pos
  /\ ball_save_active (drain_check g) = false
  /\ ball_save_timer (drain_check g) = 0
  /\ game_over (drain_check g) = game_over g
  /\ high_score (drain_check g) = high_score g
  /\ score (drain_check g) = score g.
Proof.
  intros Hd Hs. unfold drain_check. rewrite Hd, Hs. repeat split.
Qed.

(** The drain check when ball save is not active. *)
Lemma drain_check_lost (g : Game.t) :
  drains g = true -> ball_save_active g = false ->
  balls_left (drain_check g) = (balls_left g - 1)%Z
  /\ score (drain_check g) = score g
  /\ ((balls_left g - 1 <= 0)%Z ->
      game_over (drain_check g) = true
      /\ high_score (drain_check g) = Z.max (high_score g) (score g)
      /\ Ball.in_play (ball (drain_check g)) = false
      /\ (writable (disk g) = true ->
          highscore_txt (disk (drain_check g))
          = Some (Z.max (high_score g) (score g))))
  /\ ((0 < balls_left g - 1)%Z ->
      game_over (drain_check g) = game_over g
      /\ high_score (drain_check g) = high_score g
      /\ disk (drain_check g) = disk g
      /\ ball (drain_check g) = Ball.init launch_pos).
Proof.
  intros Hd Hs. unfold drain_check. rewrite Hd, Hs. cbv zeta. simpl.
  destruct (Z.leb_spec (balls_left g - 1) 0) as [Hle | Hgt].
  - match goal with
    | |- context [ save_high_score ?x ] =>
      destruct (save_high_score_fields x) as (A & B & C & D & E & F & _)
    end.
    simpl in *. rewrite A, B, C, D, E.
    repeat split; try reflexivity; try lia.
    intros Hw. now apply F.
  - repeat split; try reflexivity; lia.
Qed.

Lemma drains_spec (g : Game.t) :
  drains g = true <->
  Ball.in_play (ball g) = true
  /\ Vec2.y (Ball.pos (ball g)) - Ball.radius (ball g) > HEIGHT + 40.
Proof.
  unfold drains. destruct (Ball.in_play (ball g)); simpl;
    [ destruct (Rgt_dec (Vec2.y (Ball.pos (ball g)) - Ball.radius (ball g))
                        (HEIGHT + 40)) | ];
    split; intros H;
    try discriminate; try tauto; try (destruct H; discriminate).
Qed.

(** C3: in an update of a running game in which the drain check finds the
    ball in play and below the drain line ([g1] is the game as the drain
    check sees it, after the motion and timer phases):
    - with ball save active, balls-remaining is unchanged and a fresh idle
      ball stands at the launch position with the save flag and timer
      cleared;
    - with ball save inactive, balls-remaining drops by exactly 1; if that
      leaves none, the game is over, the high score is the maximum of the
      previous high score and the session score, that value is what a
      successful write stores, and every later update leaves the game as it
      is (the transition cannot fire again); if balls remain, a fresh idle
      ball stands at the launch position and the game is not over. *)
Theorem drain_rules (g : Game.t) (dt : R) :
  paused g = false ->
  game_over g = false ->
  let g1 := update_timers (update_motion g dt) dt in
  let g' := update g dt in
  Ball.in_play (ball g1) = true ->
  Vec2.y (Ball.pos (ball g1)) - Ball.radius (ball g1) > HEIGHT + 40 ->
  (ball_save_active g1 = true ->
     balls_left g' = balls_left g
     /\ ball g' = Ball.init launch_pos
     /\ Ball.in_play (ball g') = false
     /\ Ball.pos (ball g') = launch_pos
     /\ ball_save_active g' = false
     /\ ball_save_timer g' = 0
     /\ game_over g' = false
     /\ high_score g' = high_score g)
  /\ (ball_save_active g1 = false ->
        balls_left g' = (balls_left g - 1)%Z
        /\ score g' = score g1
        /\ ((balls_left g - 1 <= 0)%Z ->
              game_over g' = true
              /\ high_score g' = Z.max (high_score g) (score g')
              /\ (writable (disk g) = true ->
                    highscore_txt (disk g') = Some (high_score g'))
              /\ forall dt', update g' dt' = g')
        /\ ((0 < balls_left g - 1)%Z ->
              game_over g' = false
              /\ high_score g' = high_score g
              /\ ball g' = Ball.init launch_pos
              /\ Ball.in_play (ball g') = false
              /\ Ball.pos (ball g') = launch_pos)).
Proof.
  intros Hp Ho g1 g' Hin Hy.
  assert (Hd : drains g1 = true) by (apply drains_spec; split; assumption).
  assert (Hg' : g' = drain_check g1) by (apply update_running; assumption).
  assert (Hf : session_frame g g1).
  { eapply session_frame_trans;
      [ apply update_motion_session | apply update_timers_session ]. }
  destruct Hf as (Fb & Fh & Fo & _ & Fd).
  rewrite Hg'. split; intros Hs.
  - destruct (drain_check_saved g1 Hd Hs) as (A & B & C & D & E & F & _).
    rewrite A, B, C, D, E, F. repeat split; congruence.
  - destruct (drain_check_lost g1 Hd Hs) as (A & B & Hover & Hnext).
    rewrite A, B, Fb.
    split; [ reflexivity | ]. split; [ reflexivity | ]. split.
    + intros Hz.
      destruct (Hover ltac:(lia)) as (O1 & O2 & O3 & O4).
      split; [ exact O1 | ].
      split; [ rewrite O2; congruence | ].
      split.
      * intros Hw. rewrite O2. apply O4. congruence.
      * intros dt'. apply update_game_over. exact O1.
    + intros Hz.
      destruct (Hnext ltac:(lia)) as (N1 & N2 & N3 & N4).
      rewrite N4. repeat split; congruence.
Qed.

Lemma balls_invariant_update (g : Game.t) (dt : R) :
  balls_invariant g -> balls_invariant (update g dt).
Proof.
  unfold balls_invariant. intros Hinv.
  unfold update.
  destruct (paused g); simpl; [ exact Hinv | ].
  destruct (game_over g) eqn:Ho; [ congruence | ].
  set (g1 := update_timers (update_motion g dt) dt).
  assert (Hf : session_frame g g1).
  { eapply session_frame_trans;
      [ apply update_motion_session | apply update_timers_session ]. }
  destruct Hf as (Fb & _ & Fo & _).
  specialize (Hinv eq_refl).
  unfold drain_check.
  destruct (drains g1); [ | intros _; lia ].
  destruct (ball_save_active g1); simpl; [ intros _; lia | ].
  destruct (Z.leb_spec (balls_left g1 - 1) 0) as [Hle | Hgt].
  - match goal with
    | |- context [ save_high_score ?x ] =>
      destruct (save_high_score_fields x) as (_ & B & _)
    end.
    rewrite B. simpl. discriminate.
  - simpl. intros _. lia.
Qed.

Lemma balls_invariant_restart (g : Game.t) : balls_invariant (restart g).
Proof. intros _. change (1 <= 3)%Z. lia. Qed.

Lemma balls_invariant_init (r : Rng) (d : Disk) :
  balls_invariant (Game.init r d).
Proof. intros _. change (1 <= 3)%Z. lia. Qed.

Lemma do_nudge_session (g : Game.t) : session_frame g (do_nudge g).
Proof. unfold do_nudge, session_frame. split_branches; repeat split. Qed.

Lemma launch_ball_session (g : Game.t) : session_frame g (launch_ball g).
Proof. unfold launch_ball, session_frame. split_branches; repeat split. Qed.

Lemma balls_invariant_handle_event (g : Game.t) (e : Event) :
  balls_invariant g -> balls_invariant (handle_event g e).
Proof.
  intros Hinv. destruct e as [ | key | key | ]; try exact Hinv.
  - unfold handle_event. cbv zeta.
    set (g1 := if is_K_ESCAPE key then set_running g false else g).
    assert (H1 : balls_invariant g1)
      by (subst g1; destruct (is_K_ESCAPE key); exact Hinv).
    clearbody g1.
    set (g2 := if negb (tilt_active g1) && is_left_key key
               then set_left_flipper g1
                      (Flipper.set_key_pressed (left_flipper g1) true)
               else g1).
    assert (H2 : balls_invariant g2)
      by (subst g2; destruct (_ && _); exact H1).
    clearbody g2.
    set (g3 := if negb (tilt_active g2) && is_right_key key
               then set_right_flipper g2
                      (Flipper.set_key_pressed (right_flipper g2) true)
               else g2).
    assert (H3 : balls_invariant g3)
      by (subst g3; destruct (_ && _); exact H2).
    clearbody g3.
    set (g4 := if is_K_p key
               then if negb (game_over g3)
                    then set_paused g3 (negb (paused g3)) else g3
               else g3).
    assert (H4 : balls_invariant g4)
      by (subst g4; destruct (is_K_p key); [ destruct (negb _) | ];
          exact H3).
    clearbody g4.
    set (g5 := if is_K_r key
               then if game_over g4 then restart g4 else g4
               else g4).
    assert (H5 : balls_invariant g5).
    { subst g5. destruct (is_K_r key); [ destruct (game_over g4) | ];
        try exact H4. apply balls_invariant_restart. }
    clearbody g5.
    destruct (_ && _); [ | exact H5 ].
    destruct (do_nudge_session g5) as (A & _ & B & _).
    unfold balls_invariant in *. rewrite A, B. exact H5.
  - unfold handle_event. cbv zeta.
    destruct (is_left_key key); destruct (is_right_key key); exact Hinv.
Qed.

Lemma balls_invariant_handle_events (g : Game.t) dt events space_held :
  balls_invariant g -> balls_invariant (handle_events g dt events space_held).
Proof.
  intros Hinv. unfold handle_events. cbv zeta.
  assert (H : balls_invariant (fold_left handle_event events g)).
  { revert g Hinv. induction events as [ | e l IH ]; intros g Hinv; simpl.
    - exact Hinv.
    - apply IH, balls_invariant_handle_event, Hinv. }
  set (g1 := fold_left handle_event events g) in *. clearbody g1.
  destruct (_ && _); [ | exact H ].
  destruct space_held; [ exact H | ].
  destruct (Rgt_dec _ _); [ | exact H ].
  destruct (launch_ball_session g1) as (A & _ & B & _).
  unfold balls_invariant in *. rewrite A, B. exact H.
Qed.

(** Every frame of [run] keeps the invariant. *)
Lemma balls_invariant_frame (g : Game.t) dt events space_held :
  balls_invariant g -> balls_invariant (frame g dt events space_held).
Proof.
  intros H. unfold frame.
  apply balls_invariant_update, balls_invariant_handle_events, H.
Qed.

(** *** Bumpers *)

Lemma vec2_eq (u v : Vec2) :
  Vec2.x u = Vec2.x v -> Vec2.y u = Vec2.y v -> u = v.
Proof. destruct u, v; simpl; intros -> ->; reflexivity. Qed.

Lemma EPS_pos : 0 < EPS.
Proof. unfold EPS. lra. Qed.

Lemma sub_add_scale (c u : Vec2) (L : R) :
  Vec2.sub (Vec2.add c (Vec2.scale L u)) c = Vec2.scale L u.
Proof. apply vec2_eq; simpl; ring. Qed.

Lemma div_scale (u : Vec2) (L d : R) :
  Vec2.div (Vec2.scale L u) d = Vec2.scale (L / d) u.
Proof. apply vec2_eq; simpl; unfold Rdiv; ring. Qed.

Lemma length_scale_unit (u : Vec2) (L : R) :
  Vec2.length u = 1 -> 0 < L -> Vec2.length (Vec2.scale L u) = L.
Proof.
  intros Hu HL. rewrite length_scale, Hu, Rabs_pos_eq by lra. ring.
Qed.

(** A ball whose centre is at distance [L] from the bumper centre along the
    unit vector [u]. *)
Lemma circle_circle_along_unit (c2 u : Vec2) (L r1 r2 : R) :
  Vec2.length u = 1 -> 0 < L -> L + EPS < r1 + r2 ->
  let k := L / (L + EPS) in
  circle_circle_collision (Vec2.add c2 (Vec2.scale L u)) r1 c2 r2
  = mkCircleHit true
      (Vec2.scale (r1 + r2 - (L + EPS)) (Vec2.scale k u))
      (Vec2.scale k u).
Proof.
  intros Hu HL Hhit k. unfold circle_circle_collision.
  rewrite sub_add_scale, (length_scale_unit u L Hu HL), div_scale.
  destruct (Rlt_dec (L + EPS) (r1 + r2)); [ reflexivity | contradiction ].
Qed.

Lemma circle_circle_far (c1 c2 : Vec2) (r1 r2 : R) :
  (r1 + r2) * (r1 + r2) <= Vec2.length_squared (Vec2.sub c1 c2) ->
  circle_circle_collision c1 r1 c2 r2
  = mkCircleHit false Vec2.zero Vec2.zero.
Proof.
  intros Hfar. unfold circle_circle_collision.
  destruct (Rlt_dec _ _) as [Hlt | _]; [ exfalso | reflexivity ].
  pose proof EPS_pos.
  pose proof (length_nonneg (Vec2.sub c1 c2)) as Hn.
  pose proof (length_sqr (Vec2.sub c1 c2)) as Hs.
  nra.
Qed.

Lemma bumper_collide_hit (g : Game.t) (b : Bumper.t) :
  let h := circle_circle_collision (Ball.pos (ball g)) (Ball.radius (ball g))
             (Bumper.pos b) (Bumper.radius b) in
  ch_hit h = true ->
  Ball.pos (ball (bumper_collide g b))
  = Vec2.add (Ball.pos (ball g)) (ch_push h)
  /\ Ball.vel (ball (bumper_collide g b))
     = Vec2.add (reflect (Ball.vel (ball g)) (ch_normal h) RESTI_BALL_BUMPER)
                (Vec2.scale 200 (ch_normal h))
  /\ Ball.in_play (ball (bumper_collide g b)) = Ball.in_play (ball g)
  /\ score (bumper_collide g b)
     = (if Ball.in_play (ball g)
        then (score g + Bumper.score b * bumper_mult g)%Z
        else score g).
Proof.
  intros h Hhit. unfold bumper_collide. fold h. rewrite Hhit. cbv zeta.
  simpl. destruct (Ball.in_play (ball g)) eqn:Hp.
  - rewrite spawn_particles_ball, spawn_particles_score.
    repeat split; (reflexivity || exact Hp).
  - repeat split; (reflexivity || exact Hp).
Qed.

Lemma bumper_collide_miss (g : Game.t) (b : Bumper.t) :
  ch_hit (circle_circle_collision (Ball.pos (ball g)) (Ball.radius (ball g))
            (Bumper.pos b) (Bumper.radius b)) = false ->
  bumper_collide g b = g.
Proof. intros H. unfold bumper_collide. now rewrite H. Qed.




(** *** The idle ball *)

Lemma apply_physics_idle (b : Ball.t) (dt : R) :
  Ball.in_play b = false -> Ball.apply_physics b dt = b.
Proof. intros H. unfold Ball.apply_physics. now rewrite H. Qed.

Lemma update_motion_idle (g : Game.t) dt :
  idle_frame g (update_motion g dt).
Proof.
  unfold update_motion. cbv zeta.
  eapply idle_frame_trans; [ | split; reflexivity ].
  repeat (eapply idle_frame_trans;
          [ | first [ apply handle_flipper_collision_idle
                    | apply handle_rollovers_idle
                    | apply handle_bumper_collisions_idle
                    | apply handle_wall_collisions_idle ] ]).
  unfold idle_frame; simpl. unfold Ball.apply_physics.
  destruct (Ball.in_play (ball g)) eqn:Hp; simpl; rewrite ?Hp; auto.
Qed.

Lemma drain_check_idle (g : Game.t) :
  Ball.in_play (ball g) = false -> drain_check g = g.
Proof. intros H. unfold drain_check, drains. now rewrite H. Qed.

(** C5 (as the code has it): while the ball is not in play,
    [Ball.apply_physics] leaves the ball as it is, and the wall, bumper,
    rollover and flipper collision handlers change neither the score nor
    the in-play flag; a whole update of a running game keeps the score and
    leaves the ball idle. *)
Theorem idle_ball_scores_nothing (g : Game.t) (dt : R) (f : Flipper.t) :
  Ball.in_play (ball g) = false ->
  Ball.apply_physics (ball g) dt = ball g
  /\ (score (handle_wall_collisions g) = score g
      /\ Ball.in_play (ball (handle_wall_collisions g)) = false)
  /\ (score (handle_bumper_collisions g) = score g
      /\ Ball.in_play (ball (handle_bumper_collisions g)) = false)
  /\ (score (handle_rollovers g) = score g
      /\ ball (handle_rollovers g) = ball g)
  /\ (score (handle_flipper_collision g f) = score g
      /\ Ball.in_play (ball (handle_flipper_collision g f)) = false)
  /\ (score (update g dt) = score g
      /\ Ball.in_play (ball (update g dt)) = false).
Proof.
  intros Hp.
  split; [ apply apply_physics_idle, Hp | ].
  split.
  { destruct (handle_wall_collisions_idle g) as (A & B).
    split; [ apply B, Hp | congruence ]. }
  split.
  { destruct (handle_bumper_collisions_idle g) as (A & B).
    split; [ apply B, Hp | congruence ]. }
  split.
  { destruct (handle_rollovers_idle g) as (A & B).
    split; [ apply B, Hp | apply handle_rollovers_spec ]. }
  split.
  { destruct (handle_flipper_collision_idle g f) as (A & B).
    split; [ apply B, Hp | congruence ]. }
  unfold update. destruct (paused g || game_over g); [ split; auto | ].
  destruct (update_motion_idle g dt) as (A & B).
  destruct (update_timers_ball (update_motion g dt) dt) as (C & D).
  rewrite drain_check_idle by congruence.
  split; [ rewrite D; apply B, Hp | congruence ].
Qed.

End GameRules.

(** ** A ball below the table *)

Section BelowTable.
Context {rnd : Random}.

Import Game.

Lemma length_ge_y (v : Vec2) : Vec2.y v <= Vec2.length v.
Proof.
  pose proof (length_nonneg v) as Hn.
  pose proof (length_sqr v) as Hs.
  unfold Vec2.length_squared in Hs.
  destruct (Rle_dec (Vec2.y v) 0) as [Hneg | Hpos]; [ lra | ].
  nra.
Qed.

Lemma clamp_unit (x : R) : 0 <= clamp x 0 1 <= 1.
Proof.
  unfold clamp, Rmax, Rmin.
  destruct (Rle_dec 1 x); destruct (Rle_dec 0 _); lra.
Qed.

(** No contact with a segment that lies at least a radius higher up (the
    y axis points down). *)
Lemma circle_line_below (c : Vec2) (r : R) (a b : Vec2) :
  Vec2.y a + r <= Vec2.y c -> Vec2.y b + r <= Vec2.y c ->
  lh_hit (circle_line_collision c r a b) = false.
Proof.
  intros Ha Hb. pose proof EPS_pos as He.
  unfold circle_line_collision.
  destruct (Req_dec_T _ 0) as [_ | _].
  - destruct (Rlt_dec _ r) as [Hlt | _]; [ exfalso | reflexivity ].
    pose proof (length_ge_y (Vec2.sub c a)) as Hy. simpl in Hy. lra.
  - set (t := clamp _ 0 1). pose proof (clamp_unit
      (Vec2.dot (Vec2.sub c a) (Vec2.sub b a)
       / Vec2.length_squared (Vec2.sub b a))) as Ht. fold t in Ht.
    destruct (Rlt_dec _ r) as [Hlt | _]; [ exfalso | reflexivity ].
    pose proof (length_ge_y
      (Vec2.sub c (Vec2.add a (Vec2.scale t (Vec2.sub b a))))) as Hy.
    simpl in Hy. nra.
Qed.

Lemma circle_circle_below (c1 : Vec2) (r1 : R) (c2 : Vec2) (r2 : R) :
  Vec2.y c2 + (r1 + r2) <= Vec2.y c1 ->
  ch_hit (circle_circle_collision c1 r1 c2 r2) = false.
Proof.
  intros H. pose proof EPS_pos as He. unfold circle_circle_collision.
  destruct (Rlt_dec _ _) as [Hlt | _]; [ exfalso | reflexivity ].
  pose proof (length_ge_y (Vec2.sub c1 c2)) as Hy. simpl in Hy. lra.
Qed.

Lemma wall_collide_miss (g : Game.t) (w : Wall.t) :
  lh_hit (circle_line_collision (Ball.pos (ball g)) (Ball.radius (ball g))
            (Wall.a w) (Wall.b w)) = false ->
  wall_collide g w = g.
Proof. intros H. unfold wall_collide. now rewrite H. Qed.

Lemma walls_below (ws : list Wall.t) (g : Game.t) (Y : R) :
  Forall (fun w => Vec2.y (Wall.a w) <= Y /\ Vec2.y (Wall.b w) <= Y) ws ->
  Y + Ball.radius (ball g) <= Vec2.y (Ball.pos (ball g)) ->
  fold_left wall_collide ws g = g.
Proof.
  intros Hws Hy. induction Hws as [ | w ws (Ha & Hb) _ IH ]; simpl.
  - reflexivity.
  - rewrite wall_collide_miss; [ exact IH | ].
    apply circle_line_below; lra.
Qed.

Lemma bumpers_below (bs : list Bumper.t) (g : Game.t) (Y : R) :
  Forall (fun b => Vec2.y (Bumper.pos b) + Bumper.radius b <= Y) bs ->
  Y + Ball.radius (ball g) <= Vec2.y (Ball.pos (ball g)) ->
  fold_left bumper_collide bs g = g.
Proof.
  intros Hbs Hy. induction Hbs as [ | b bs Hb _ IH ]; simpl.
  - reflexivity.
  - rewrite bumper_collide_miss; [ exact IH | ].
    apply circle_circle_below; lra.
Qed.

Lemma boundary_clamp_inside (b : Ball.t) :
  74 <= Vec2.x (Ball.pos b) - Ball.radius b ->
  Vec2.x (Ball.pos b) + Ball.radius b <= WIDTH - 160 ->
  120 + 16 <= Vec2.y (Ball.pos b) - Ball.radius b ->
  boundary_clamp b = b.
Proof.
  intros H1 H2 H3. unfold boundary_clamp. cbv zeta.
  destruct (Rlt_dec _ 74); [ lra | ].
  destruct (Rgt_dec _ (WIDTH - 160)); [ lra | ].
  destruct (Rlt_dec _ (120 + 16)); [ lra | reflexivity ].
Qed.

Lemma flipper_below (g : Game.t) (f : Flipper.t) (Y : R) :
  0 <= Flipper.length f ->
  Vec2.y (Flipper.pivot f) + Flipper.length f <= Y ->
  Y + Ball.radius (ball g) <= Vec2.y (Ball.pos (ball g)) ->
  handle_flipper_collision g f = g.
Proof.
  intros Hl Hp Hy. unfold handle_flipper_collision, Flipper.endpoints.
  cbv zeta. rewrite circle_line_below; [ reflexivity | lra | ].
  simpl. pose proof (SIN_bound (Flipper.angle f)) as (Hs & _). nra.
Qed.

Lemma set_ball_same (g : Game.t) : set_ball g (ball g) = g.
Proof. destruct g; reflexivity. Qed.

Lemma check_rollovers_flippers (rs : list Rollover.t) (g : Game.t) :
  left_flipper (snd (check_rollovers rs g)) = left_flipper g
  /\ right_flipper (snd (check_rollovers rs g)) = right_flipper g.
Proof.
  revert g. induction rs as [ | r l IH ]; intros g; simpl.
  - auto.
  - destruct (Rollover.check r _ _) as [r' nl].
    match goal with
    | |- context [ check_rollovers l ?x ] =>
      specialize (IH x); destruct (check_rollovers l x) as [rest' g4]
    end.
    simpl in *. destruct (nl && _); [ | exact IH ].
    unfold spawn_particles in IH.
    destruct (particle_burst _ _ _ _). exact IH.
Qed.

Lemma handle_rollovers_flippers (g : Game.t) :
  left_flipper (handle_rollovers g) = left_flipper g
  /\ right_flipper (handle_rollovers g) = right_flipper g.
Proof.
  pose proof (check_rollovers_flippers (rollovers g) g) as H.
  unfold handle_rollovers, add_score.
  destruct (check_rollovers (rollovers g) g) as [rs g3].
  cbv zeta. destruct (_ && _); simpl; exact H.
Qed.

(** Below the table and between the side borders, the motion phase moves
    the ball by [Ball.apply_physics] only. *)
Lemma update_motion_below (g : Game.t) (dt Y : R) :
  let b1 := Ball.apply_physics (ball g) dt in
  table_above g Y ->
  Y + Ball.radius b1 <= Vec2.y (Ball.pos b1) ->
  74 <= Vec2.x (Ball.pos b1) - Ball.radius b1 ->
  Vec2.x (Ball.pos b1) + Ball.radius b1 <= WIDTH - 160 ->
  120 + 16 <= Vec2.y (Ball.pos b1) - Ball.radius b1 ->
  ball (update_motion g dt) = b1.
Proof.
  intros b1 (Hw & Hb & Hl1 & Hl2 & Hr1 & Hr2) Hy Hx1 Hx2 Hy2.
  unfold update_motion. cbv zeta.
  set (g1 := set_ball _ (Ball.apply_physics _ dt)).
  assert (Hb1 : ball g1 = b1) by reflexivity.
  assert (Hwalls : handle_wall_collisions g1 = g1).
  { unfold handle_wall_collisions. cbv zeta.
    rewrite (walls_below (walls g1) g1 Y); [ | exact Hw | now rewrite Hb1 ].
    rewrite boundary_clamp_inside by (rewrite Hb1; assumption).
    apply set_ball_same. }
  rewrite Hwalls.
  assert (Hbump : handle_bumper_collisions g1 = g1).
  { unfold handle_bumper_collisions.
    apply (bumpers_below (bumpers g1) g1 Y); [ exact Hb | now rewrite Hb1 ]. }
  rewrite Hbump.
  set (g2 := handle_rollovers g1).
  assert (Hb2 : ball g2 = b1).
  { unfold g2. destruct (handle_rollovers_spec g1) as (H & _). congruence. }
  destruct (handle_rollovers_flippers g1) as (Hfl & Hfr). fold g2 in Hfl, Hfr.
  rewrite (flipper_below g2 (left_flipper g2) Y);
    [ | rewrite Hfl; exact Hl1 | rewrite Hfl; exact Hl2
      | rewrite Hb2; exact Hy ].
  rewrite (flipper_below g2 (right_flipper g2) Y);
    [ | rewrite Hfr; exact Hr1 | rewrite Hfr; exact Hr2
      | rewrite Hb2; exact Hy ].
  exact Hb2.
Qed.

End BelowTable.

(** * Worked examples on the real table *)

Lemma apply_physics_speed_clamp_witness :
  Ball.in_play falling_ball = true
  /\ 0 < / 60
  /\ Vec2.length (Ball.vel (Ball.apply_physics falling_ball (/ 60)))
     <= MAX_BALL_SPEED.
Proof.
  assert (H1 : Ball.in_play falling_ball = true) by reflexivity.
  assert (H2 : 0 < / 60) by lra.
  split; [ exact H1 | split; [ exact H2 | ] ].
  exact (proj1 (apply_physics_speed_clamp falling_ball (/ 60) H1 H2)).
Defined.

Lemma reflect_law_witness :
  Vec2.length (Vec2.mk 0 1) = 1
  /\ Vec2.dot (reflect (Vec2.mk 3 (-4)) (Vec2.mk 0 1) RESTI_BALL_WALL)
              (Vec2.mk 0 1)
     = RESTI_BALL_WALL * 4.
Proof.
  assert (H1 : Vec2.length (Vec2.mk 0 1) = 1).
  { unfold Vec2.length, Vec2.length_squared; simpl.
    replace (0 * 0 + 1 * 1) with 1 by ring. apply sqrt_1. }
  split; [ exact H1 | ].
  destruct (reflect_law (Vec2.mk 3 (-4)) (Vec2.mk 0 1) RESTI_BALL_WALL H1)
    as (Hin & _).
  destruct Hin as (_ & Hs).
  - unfold Vec2.dot; simpl. lra.
  - apply Hs; [ lra | unfold Vec2.dot; simpl; lra ].
Defined.

Lemma flipper_update_toward_target_witness :
  (Flipper.min_angle pressed_flipper <= Flipper.angle pressed_flipper
   <= Flipper.max_angle pressed_flipper)
  /\ 0 < / 120
  /\ Flipper.min_angle pressed_flipper
     <= Flipper.angle (Flipper.update pressed_flipper (/ 120))
     <= Flipper.max_angle pressed_flipper
  /\ Flipper.angle (Flipper.update pressed_flipper (/ 120))
     = Flipper.angle pressed_flipper + FLIPPER_SPEED * / 120.
Proof.
  assert (H1 : Flipper.min_angle pressed_flipper
               <= Flipper.angle pressed_flipper
               <= Flipper.max_angle pressed_flipper).
  { simpl. unfold FLIPPER_LEFT_MIN, FLIPPER_LEFT_MAX, radians.
    pose proof PI_RGT_0. lra. }
  assert (H2 : 0 < / 120) by lra.
  split; [ exact H1 | split; [ exact H2 | ] ].
  pose proof (flipper_update_toward_target pressed_flipper (/ 120) H1 H2)
    as T.
  cbv zeta in T.
  destruct T as (_ & _ & _ & Hrange & _ & _ & _ & Hrate & _).
  split; [ exact Hrange | ].
  apply Hrate.
  - simpl. unfold FLIPPER_LEFT_MIN, FLIPPER_LEFT_MAX, radians.
    pose proof PI_RGT_0. lra.
  - simpl. unfold FLIPPER_LEFT_MIN, FLIPPER_LEFT_MAX, FLIPPER_SPEED, radians.
    pose proof PI_RGT_0. lra.
Defined.

Lemma launch_ball_in_play_noop_witness :
  Ball.in_play (Game.ball last_ball_game) = true
  /\ Game.launch_ball last_ball_game = last_ball_game.
Proof.
  assert (H : Ball.in_play (Game.ball last_ball_game) = true)
    by reflexivity.
  split; [ exact H | exact (launch_ball_in_play_noop last_ball_game H) ].
Defined.

Lemma nudge_gate_and_effect_witness :
  (Game.tilt_meter nudged_game + 1 >= TILT_MAX)
  /\ Game.tilt_active nudged_game = false
  /\ Game.tilt_active (Game.do_nudge nudged_game) = true
  /\ Game.tilt_timer (Game.do_nudge nudged_game) = TILT_LOCKOUT
  /\ Flipper.key_pressed (Game.left_flipper (Game.do_nudge nudged_game))
     = false
  /\ Flipper.key_pressed (Game.right_flipper (Game.do_nudge nudged_game))
     = false.
Proof.
  assert (H1 : Game.tilt_meter nudged_game + 1 >= TILT_MAX)
    by (simpl; unfold TILT_MAX; lra).
  assert (H2 : Game.tilt_active nudged_game = false) by reflexivity.
  split; [ exact H1 | split; [ exact H2 | ] ].
  destruct (nudge_gate_and_effect nudged_game) as (_ & _ & _ & H & _).
  exact (H H1 H2).
Defined.

(** C4, counterexample to "only while not tilted": on a tilted table with
    the ball in play the nudge key still performs a nudge: the meter goes
    from 3 to 4 and the ball gains 260 of horizontal velocity. *)
Lemma nudge_performed_while_tilted :
  Game.tilt_active tilted_game = true
  /\ Ball.in_play (Game.ball tilted_game) = true
  /\ Game.paused tilted_game = false
  /\ Game.handle_event tilted_game (KEYDOWN K_n) = Game.do_nudge tilted_game
  /\ Game.tilt_meter (Game.handle_event tilted_game (KEYDOWN K_n))
     = Game.tilt_meter tilted_game + 1
  /\ Vec2.x (Ball.vel (Game.ball (Game.handle_event tilted_game (KEYDOWN K_n))))
     = Vec2.x (Ball.vel (Game.ball tilted_game)) + NUDGE_IMPULSE
  /\ Game.handle_event tilted_game (KEYDOWN K_n) <> tilted_game.
Proof.
  assert (Hg : Game.handle_event tilted_game (KEYDOWN K_n)
               = Game.do_nudge tilted_game)
    by (rewrite nudge_key_gate; reflexivity).
  destruct (do_nudge_impulse tilted_game) as (Hv & _ & _ & Hm).
  repeat split; try reflexivity; try exact Hg; rewrite Hg.
  - exact Hm.
  - rewrite Hv. simpl. lra.
  - intros Heq. rewrite Heq in Hm. simpl in Hm. lra.
Qed.

(** One sixtieth of a second later the falling ball is below the drain
    line. *)
Lemma falling_ball_step :
  let b1 := Ball.apply_physics falling_ball (/ 60) in
  Ball.in_play b1 = true
  /\ Ball.radius b1 = 12
  /\ Vec2.x (Ball.pos b1) = 200
  /\ 715 < Vec2.y (Ball.pos b1) < 716.
Proof.
  set (vy := (1 - AIR_FRICTION) * (1500 + GRAVITY * / 60)).
  assert (Hvy : 1532 < vy < 1533) by (unfold vy, AIR_FRICTION, GRAVITY; lra).
  assert (Hv1 : Ball.vel_gravity_drag falling_ball (/ 60) = Vec2.mk 0 vy).
  { unfold Ball.vel_gravity_drag.
    replace (/ 60 * 60) with 1 by lra.
    rewrite Rpower_1 by (unfold AIR_FRICTION; lra).
    apply vec2_eq; simpl; unfold vy; ring. }
  assert (Hc : Ball.clamp_speed (Vec2.mk 0 vy) = Vec2.mk 0 vy).
  { apply clamp_speed_below. apply Rnot_lt_le. intros Hgt.
    pose proof (length_sqr (Vec2.mk 0 vy)) as Hs.
    unfold Vec2.length_squared in Hs. simpl in Hs.
    unfold MAX_BALL_SPEED in Hgt. nra. }
  unfold Ball.apply_physics. simpl negb. cbv iota zeta.
  rewrite Hv1, Hc. simpl.
  repeat split; try reflexivity; try lra.
Qed.

Lemma table_above_670 : table_above last_ball_game 670.
Proof.
  unfold table_above. simpl.
  unfold Game.init_walls, Game.init_bumpers.
  repeat split;
    repeat (apply Forall_cons || apply Forall_nil); simpl;
    unfold Game.bottom_y, Game.margin, Game.pivot_y, HEIGHT, WIDTH,
      FLIPPER_LENGTH;
    try split; lra.
Qed.

Lemma last_ball_before_drain :
  let g1 := Game.update_timers (Game.update_motion last_ball_game (/ 60))
              (/ 60) in
  Game.ball g1 = Ball.apply_physics falling_ball (/ 60)
  /\ Game.ball_save_active g1 = false.
Proof.
  intros g1.
  destruct falling_ball_step as (Hp & Hr & Hx & Hy).
  destruct (update_timers_ball (Game.update_motion last_ball_game (/ 60))
              (/ 60)) as (Hb & Hs).
  fold g1 in Hb, Hs.
  assert (Hm : Game.ball (Game.update_motion last_ball_game (/ 60))
               = Ball.apply_physics falling_ball (/ 60)).
  { apply (update_motion_below last_ball_game (/ 60) 670).
    - exact table_above_670.
    - change (Game.ball last_ball_game) with falling_ball. lra.
    - change (Game.ball last_ball_game) with falling_ball. lra.
    - change (Game.ball last_ball_game) with falling_ball.
      unfold WIDTH. lra.
    - change (Game.ball last_ball_game) with falling_ball. lra. }
  split; [ congruence | ].
  apply update_timers_save_off.
  destruct (update_motion_frame last_ball_game (/ 60)) as (_ & H & _).
  rewrite H. reflexivity.
Qed.

Lemma drain_rules_witness :
  let g := last_ball_game in
  let g1 := Game.update_timers (Game.update_motion g (/ 60)) (/ 60) in
  let g' := Game.update g (/ 60) in
  Game.paused g = false
  /\ Game.game_over g = false
  /\ Ball.in_play (Game.ball g1) = true
  /\ Vec2.y (Ball.pos (Game.ball g1)) - Ball.radius (Game.ball g1)
     > HEIGHT + 40
  /\ Game.ball_save_active g1 = false
  /\ Game.balls_left g' = 0%Z
  /\ Game.game_over g' = true
  /\ Game.high_score g' = Z.max 1200 (Game.score g')
  /\ highscore_txt (Game.disk g') = Some (Game.high_score g')
  /\ Game.update g' (/ 60) = g'.
Proof.
  intros g g1 g'.
  destruct falling_ball_step as (Hp & Hr & Hx & Hy).
  destruct last_ball_before_drain as (Hb & Hs). fold g g1 in Hb, Hs.
  assert (H1 : Game.paused g = false) by reflexivity.
  assert (H2 : Game.game_over g = false) by reflexivity.
  assert (H3 : Ball.in_play (Game.ball g1) = true) by (rewrite Hb; exact Hp).
  assert (H4 : Vec2.y (Ball.pos (Game.ball g1)) - Ball.radius (Game.ball g1)
               > HEIGHT + 40)
    by (rewrite Hb, Hr; unfold HEIGHT; lra).
  destruct (drain_rules g (/ 60) H1 H2 H3 H4) as (_ & Hlost).
  destruct (Hlost Hs) as (Hleft & _ & Hover & _).
  assert (Hz : (Game.balls_left g - 1 <= 0)%Z) by (simpl; lia).
  destruct (Hover Hz) as (O1 & O2 & O3 & O4).
  repeat split; try assumption.
  - apply O3. reflexivity.
  - apply O4.
Defined.

(** ** Rollovers on the real table *)




(** ** Bumpers on the real table *)

Lemma up_unit : Vec2.length up = 1.
Proof.
  unfold Vec2.length, Vec2.length_squared; simpl.
  replace (0 * 0 + -1 * -1) with 1 by ring. apply sqrt_1.
Qed.




(** ** The idle ball on the real table *)

Lemma idle_ball_scores_nothing_witness :
  Ball.in_play (Game.ball idle_game) = false
  /\ Game.score (Game.handle_bumper_collisions idle_game) = 0%Z
  /\ Game.score (Game.update idle_game (/ 120)) = 0%Z
  /\ Ball.in_play (Game.ball (Game.update idle_game (/ 120))) = false.
Proof.
  assert (H : Ball.in_play (Game.ball idle_game) = false) by reflexivity.
  destruct (idle_ball_scores_nothing idle_game (/ 120)
              (Game.left_flipper idle_game) H)
    as (_ & _ & (Hb & _) & _ & _ & (Hu & Hp)).
  split; [ exact H | ]. split; [ exact Hb | ]. split; [ exact Hu | exact Hp ].
Defined.

Lemma bumper_collide_far (g : @Game.t demo_random) (b : Bumper.t) :
  (Ball.radius (Game.ball g) + Bumper.radius b)
  * (Ball.radius (Game.ball g) + Bumper.radius b)
  <= Vec2.length_squared (Vec2.sub (Ball.pos (Game.ball g)) (Bumper.pos b)) ->
  Game.bumper_collide g b = g.
Proof.
  intros H. apply bumper_collide_miss.
  now rewrite (circle_circle_far _ _ _ _ H).
Qed.

Lemma idle_gap_bounds : 39 < idle_gap < 40.
Proof.
  unfold idle_gap.
  set (v := Vec2.sub (Vec2.mk 328 510) (Vec2.mk (WIDTH * 0.58) 520)).
  pose proof (length_nonneg v) as Hn.
  pose proof (length_sqr v) as Hs.
  assert (Hv : Vec2.length_squared v = 1544).
  { unfold v, Vec2.length_squared; simpl. unfold WIDTH. lra. }
  rewrite Hv in Hs. unfold EPS. split; nra.
Qed.


(** *** The first frame of an idle ball *)

Lemma length_ge_x (v : Vec2) : Vec2.x v <= Vec2.length v.
Proof.
  pose proof (length_nonneg v) as Hn.
  pose proof (length_sqr v) as Hs.
  unfold Vec2.length_squared in Hs.
  destruct (Rle_dec (Vec2.x v) 0) as [Hneg | Hpos]; [ lra | ].
  nra.
Qed.

(** No contact with a segment that lies at least a radius to the left. *)
Lemma circle_line_left (c : Vec2) (r : R) (a b : Vec2) :
  Vec2.x a + r <= Vec2.x c -> Vec2.x b + r <= Vec2.x c ->
  lh_hit (circle_line_collision c r a b) = false.
Proof.
  intros Ha Hb. pose proof EPS_pos as He.
  unfold circle_line_collision.
  destruct (Req_dec_T _ 0) as [_ | _].
  - destruct (Rlt_dec _ r) as [Hlt | _]; [ exfalso | reflexivity ].
    pose proof (length_ge_x (Vec2.sub c a)) as Hx. simpl in Hx. lra.
  - set (t := clamp _ 0 1). pose proof (clamp_unit
      (Vec2.dot (Vec2.sub c a) (Vec2.sub b a)
       / Vec2.length_squared (Vec2.sub b a))) as Ht. fold t in Ht.
    destruct (Rlt_dec _ r) as [Hlt | _]; [ exfalso | reflexivity ].
    pose proof (length_ge_x
      (Vec2.sub c (Vec2.add a (Vec2.scale t (Vec2.sub b a))))) as Hx.
    simpl in Hx. nra.
Qed.

(** No contact with a proper segment all of whose points are at least a
    radius away. *)
Lemma circle_line_clear (c : Vec2) (r : R) (a b : Vec2) :
  0 <= r ->
  Vec2.length_squared (Vec2.sub b a) <> 0 ->
  (forall t, 0 <= t <= 1 ->
     r * r <= Vec2.length_squared
                (Vec2.sub c (Vec2.add a (Vec2.scale t (Vec2.sub b a))))) ->
  lh_hit (circle_line_collision c r a b) = false.
Proof.
  intros Hr Hab Hfar. pose proof EPS_pos as He.
  unfold circle_line_collision.
  destruct (Req_dec_T _ 0) as [Hz | _]; [ contradiction | ].
  set (t := clamp _ 0 1). pose proof (clamp_unit
    (Vec2.dot (Vec2.sub c a) (Vec2.sub b a)
     / Vec2.length_squared (Vec2.sub b a))) as Ht. fold t in Ht.
  destruct (Rlt_dec _ r) as [Hlt | _]; [ exfalso | reflexivity ].
  specialize (Hfar t Ht).
  set (v := Vec2.sub c (Vec2.add a (Vec2.scale t (Vec2.sub b a)))) in *.
  pose proof (length_nonneg v). pose proof (length_sqr v). nra.
Qed.

(** Contact at the very point of the segment on which the centre lies:
    the normal [diff / (0 + EPS)] is the zero vector and so is the push. *)
Lemma circle_line_on_point (c : Vec2) (r : R) (a b : Vec2) :
  EPS < r ->
  Vec2.length_squared (Vec2.sub b a) <> 0 ->
  Vec2.add a
    (Vec2.scale (clamp (Vec2.dot (Vec2.sub c a) (Vec2.sub b a)
                        / Vec2.length_squared (Vec2.sub b a)) 0 1)
                (Vec2.sub b a)) = c ->
  lh_hit (circle_line_collision c r a b) = true
  /\ lh_push (circle_line_collision c r a b) = Vec2.zero
  /\ lh_normal (circle_line_collision c r a b) = Vec2.zero.
Proof.
  intros Hr Hab Hc. pose proof EPS_pos as He.
  unfold circle_line_collision.
  destruct (Req_dec_T _ 0) as [Hz | _]; [ contradiction | ].
  rewrite Hc.
  assert (Hd : Vec2.sub c c = Vec2.zero) by (apply vec2_eq; simpl; ring).
  rewrite Hd.
  assert (Hl : Vec2.length Vec2.zero = 0).
  { unfold Vec2.length, Vec2.length_squared; simpl.
    replace (0 * 0 + 0 * 0) with 0 by ring. apply sqrt_0. }
  rewrite Hl.
  destruct (Rlt_dec (0 + EPS) r) as [_ | Hn]; [ | lra ].
  simpl. repeat split; apply vec2_eq; simpl; unfold Rdiv; ring.
Qed.

Lemma ball_eq (b b' : Ball.t) :
  Ball.pos b = Ball.pos b' -> Ball.vel b = Ball.vel b' ->
  Ball.radius b = Ball.radius b' -> Ball.mass b = Ball.mass b' ->
  Ball.in_play b = Ball.in_play b' -> Ball.trail b = Ball.trail b' ->
  b = b'.
Proof. destruct b, b'; simpl; intros; subst; reflexivity. Qed.

Lemma wall_collide_hit (g : @Game.t demo_random) (w : Wall.t) :
  let h := circle_line_collision (Ball.pos (Game.ball g))
             (Ball.radius (Game.ball g)) (Wall.a w) (Wall.b w) in
  let n := lh_normal h in
  let t := Vec2.mk (- Vec2.y n) (Vec2.x n) in
  let v := Ball.vel (Game.ball g) in
  let b' := Game.ball (Game.wall_collide g w) in
  lh_hit h = true ->
  Ball.pos b' = Vec2.add (Ball.pos (Game.ball g)) (lh_push h)
  /\ Ball.vel b'
     = reflect (Vec2.add
                  (Vec2.scale (Vec2.dot v t * (1 - TANGENTIAL_FRICTION)) t)
                  (Vec2.scale (Vec2.dot v n) n))
               n (Wall.restitution w)
  /\ Ball.radius b' = Ball.radius (Game.ball g)
  /\ Ball.mass b' = Ball.mass (Game.ball g)
  /\ Ball.in_play b' = Ball.in_play (Game.ball g)
  /\ Ball.trail b' = Ball.trail (Game.ball g).
Proof.
  intros h n t v b' Hhit. unfold b', Game.wall_collide. fold h.
  rewrite Hhit. cbv zeta. simpl.
  destruct (Ball.in_play (Game.ball g)) eqn:Hp.
  - rewrite spawn_particles_ball. simpl. repeat split. exact Hp.
  - simpl. repeat split. exact Hp.
Qed.

Lemma wall_collide_idle_eq (g : @Game.t demo_random) (w : Wall.t) :
  Ball.in_play (Game.ball g) = false ->
  Game.wall_collide g w = Game.set_ball g (Game.ball (Game.wall_collide g w)).
Proof.
  intros Hp. unfold Game.wall_collide. cbv zeta.
  destruct (lh_hit _); simpl; rewrite ?Hp; destruct g; reflexivity.
Qed.

(** Such a contact leaves an idle ball at rest exactly as it was. *)
Lemma wall_collide_on_point (g : @Game.t demo_random) (w : Wall.t) :
  let h := circle_line_collision (Ball.pos (Game.ball g))
             (Ball.radius (Game.ball g)) (Wall.a w) (Wall.b w) in
  Ball.in_play (Game.ball g) = false ->
  Ball.vel (Game.ball g) = Vec2.zero ->
  lh_hit h = true -> lh_push h = Vec2.zero -> lh_normal h = Vec2.zero ->
  Game.wall_collide g w = g.
Proof.
  intros h Hp Hv Hhit Hpush Hn.
  rewrite (wall_collide_idle_eq g w Hp).
  destruct (wall_collide_hit g w Hhit) as (A & B & C & D & E & F).
  fold h in A, B. rewrite Hpush in A. rewrite Hn, Hv in B.
  transitivity (Game.set_ball g (Game.ball g)); [ | apply set_ball_same ].
  f_equal.
  apply ball_eq; try assumption.
  - rewrite A. apply vec2_eq; simpl; ring.
  - rewrite B, Hv. unfold reflect.
    destruct (Rlt_dec _ 0) as [Hc | _].
    + exfalso. unfold Vec2.dot in Hc; simpl in Hc. lra.
    + apply vec2_eq; unfold Vec2.dot; simpl; ring.
Qed.

Lemma clamp_inside (x : R) : 0 <= x <= 1 -> clamp x 0 1 = x.
Proof.
  intros H. unfold clamp, Rmax, Rmin.
  destruct (Rle_dec 1 x); destruct (Rle_dec 0 _); lra.
Qed.

(** Unfold the table constants down to numerals. *)
Ltac consts :=
  unfold Game.launch_pos, Game.bottom_y, Game.margin, WIDTH, HEIGHT,
    BALL_RADIUS, EPS.

Lemma wall_collide_resting (g : @Game.t demo_random) (w : Wall.t) :
  Ball.in_play (Game.ball g) = false ->
  Ball.vel (Game.ball g) = Vec2.zero ->
  EPS < Ball.radius (Game.ball g) ->
  Vec2.length_squared (Vec2.sub (Wall.b w) (Wall.a w)) <> 0 ->
  Vec2.add (Wall.a w)
    (Vec2.scale
       (clamp (Vec2.dot (Vec2.sub (Ball.pos (Game.ball g)) (Wall.a w))
                        (Vec2.sub (Wall.b w) (Wall.a w))
               / Vec2.length_squared (Vec2.sub (Wall.b w) (Wall.a w))) 0 1)
       (Vec2.sub (Wall.b w) (Wall.a w)))
  = Ball.pos (Game.ball g) ->
  Game.wall_collide g w = g.
Proof.
  intros Hp Hv Hr Hab Hc.
  destruct (circle_line_on_point _ _ _ _ Hr Hab Hc) as (H1 & H2 & H3).
  apply wall_collide_on_point; assumption.
Qed.

Lemma launch_ball_walls :
  fold_left Game.wall_collide (Game.walls table) table = table.
Proof.
  change (Game.walls table) with (@Game.init_walls).
  unfold Game.init_walls. cbn [fold_left].
  rewrite (wall_collide_miss table)
    by (apply circle_line_left; simpl; consts; lra).
  rewrite (wall_collide_miss table)
    by (apply circle_line_below; simpl; consts; lra).
  rewrite (wall_collide_miss table)
    by (apply circle_line_below; simpl; consts; lra).
  rewrite (wall_collide_miss table)
    by (apply circle_line_left; simpl; consts; lra).
  rewrite (wall_collide_resting table);
    [ | reflexivity | reflexivity | simpl; consts; lra
      | simpl; unfold Vec2.length_squared; simpl; consts; lra | ].
  2:{ simpl. unfold Vec2.length_squared, Vec2.dot; simpl. consts.
      match goal with
      | |- context [ clamp ?q 0 1 ] => replace q with 1 by lra
      end.
      rewrite clamp_inside by lra. apply vec2_eq; simpl; lra. }
  rewrite (wall_collide_resting table);
    [ | reflexivity | reflexivity | simpl; consts; lra
      | simpl; unfold Vec2.length_squared; simpl; consts; lra | ].
  2:{ simpl. unfold Vec2.length_squared, Vec2.dot; simpl. consts.
      match goal with
      | |- context [ clamp ?q 0 1 ] => replace q with 0 by lra
      end.
      rewrite clamp_inside by lra. apply vec2_eq; simpl; lra. }
  rewrite (wall_collide_miss table)
    by (apply circle_line_left; simpl; consts; lra).
  rewrite (wall_collide_miss table); [ reflexivity | ].
  apply circle_line_clear.
  - simpl. consts. lra.
  - simpl. unfold Vec2.length_squared; simpl. consts. lra.
  - intros t Ht. simpl. unfold Vec2.length_squared; simpl. consts.
    pose proof (Rle_0_sqr (7 * t - 1)) as Hsq. unfold Rsqr in Hsq. lra.
Qed.

(** The right border clamp alone. *)
Lemma boundary_clamp_right (b : Ball.t) :
  74 <= Vec2.x (Ball.pos b) - Ball.radius b ->
  Vec2.x (Ball.pos b) + Ball.radius b > WIDTH - 160 ->
  120 + 16 <= Vec2.y (Ball.pos b) - Ball.radius b ->
  Game.boundary_clamp b
  = Ball.set_vel
      (Ball.set_pos b
         (Vec2.set_x (Ball.pos b) (WIDTH - 160 - Ball.radius b)))
      (Vec2.set_x (Ball.vel b)
         (- Rabs (Vec2.x (Ball.vel b)) * RESTI_BALL_WALL)).
Proof.
  intros H1 H2 H3. destruct b as [p v r m ip tr]. simpl in *.
  unfold Game.boundary_clamp. cbv zeta. simpl.
  destruct (Rlt_dec (Vec2.x p - r) 74) as [Hc | _]; [ lra | ].
  simpl.
  destruct (Rgt_dec (Vec2.x p + r) (WIDTH - 160)) as [_ | Hc]; [ | lra ].
  simpl.
  destruct (Rlt_dec (Vec2.y p - r) (120 + 16)) as [Hc | _]; [ lra | ].
  reflexivity.
Qed.

(** The wall phase of the first frame moves the new ball from the launch
    position to where [idle_game] has it: only the right border clamp
    acts. *)
Lemma first_frame_walls : Game.handle_wall_collisions table = idle_game.
Proof.
  unfold Game.handle_wall_collisions. cbv zeta.
  rewrite launch_ball_walls. unfold idle_game. f_equal.
  change (Game.ball table) with (Ball.init Game.launch_pos).
  rewrite boundary_clamp_right by (simpl; consts; lra).
  apply ball_eq; try reflexivity; apply vec2_eq; simpl;
    rewrite ?Rabs_R0; consts; unfold RESTI_BALL_WALL; lra.
Qed.

(** C5, counterexample to "the handlers change neither position nor
    velocity": the wall phase of the first frame leaves the new idle ball
    at (328, 510) with zero velocity, where it overlaps the fifth bumper;
    [handle_bumper_collisions] then pushes it to the right and gives it a
    velocity, while the ball stays out of play. *)
Lemma idle_ball_pushed_by_bumper :
  let g' := Game.handle_bumper_collisions idle_game in
  Game.handle_wall_collisions table = idle_game
  /\ Ball.in_play (Game.ball idle_game) = false
  /\ Ball.vel (Game.ball idle_game) = Vec2.zero
  /\ Ball.in_play (Game.ball g') = false
  /\ Vec2.x (Ball.pos (Game.ball idle_game))
     < Vec2.x (Ball.pos (Game.ball g'))
  /\ 0 < Vec2.x (Ball.vel (Game.ball g'))
  /\ Ball.pos (Game.ball g') <> Ball.pos (Game.ball idle_game)
  /\ Ball.vel (Game.ball g') <> Ball.vel (Game.ball idle_game).
Proof.
  intros g'.
  pose proof idle_gap_bounds as Hd.
  set (b5 := Bumper.make (Vec2.mk (WIDTH * 0.58) 520) 28 100).
  set (b6 := Bumper.make (Vec2.mk (WIDTH * 0.46) 620) 24 75).
  assert (Hg' : g' = Game.bumper_collide (Game.bumper_collide idle_game b5) b6).
  { unfold g', Game.handle_bumper_collisions.
    change (Game.bumpers idle_game) with (@Game.init_bumpers).
    unfold Game.init_bumpers. cbn [fold_left].
    do 4 rewrite (bumper_collide_far idle_game)
      by (unfold Vec2.length_squared; simpl; unfold BALL_RADIUS, WIDTH; lra).
    reflexivity. }
  set (g5 := Game.bumper_collide idle_game b5) in *.
  set (n := Vec2.div (Vec2.sub (Vec2.mk 328 510) (Vec2.mk (WIDTH * 0.58) 520))
                     idle_gap).
  assert (Hh : circle_circle_collision (Ball.pos (Game.ball idle_game))
                 (Ball.radius (Game.ball idle_game))
                 (Bumper.pos b5) (Bumper.radius b5)
               = mkCircleHit true
                   (Vec2.scale (BALL_RADIUS + 28 - idle_gap) n) n).
  { unfold circle_circle_collision. simpl. fold idle_gap. fold n.
    destruct (Rlt_dec idle_gap (BALL_RADIUS + 28)) as [_ | Hc];
      [ reflexivity | unfold BALL_RADIUS in Hc; lra ]. }
  assert (Hnx : Vec2.x n = 38 / idle_gap /\ Vec2.y n = -10 / idle_gap).
  { unfold n; simpl. unfold WIDTH. split; f_equal; lra. }
  destruct Hnx as (Hnx & Hny). clearbody n.
  destruct (bumper_collide_hit idle_game b5) as (Hpos & Hvel & Hplay & _).
  { rewrite Hh. reflexivity. }
  fold g5 in Hpos, Hvel, Hplay. rewrite Hh in Hpos, Hvel.
  cbn [ch_push ch_normal] in Hpos, Hvel.
  assert (Hrefl : reflect (Ball.vel (Game.ball idle_game)) n RESTI_BALL_BUMPER
                  = Vec2.zero).
  { unfold reflect. simpl.
    destruct (Rlt_dec _ 0) as [Hc | _]; [ | reflexivity ].
    unfold Vec2.dot in Hc; simpl in Hc. lra. }
  rewrite Hrefl in Hvel.
  assert (Hq : 0 < / idle_gap) by (apply Rinv_0_lt_compat; lra).
  assert (Hx5 : 328 < Vec2.x (Ball.pos (Game.ball g5))).
  { rewrite Hpos. simpl. rewrite Hnx. unfold BALL_RADIUS, Rdiv. nra. }
  assert (Hy5 : Vec2.y (Ball.pos (Game.ball g5)) < 510).
  { rewrite Hpos. simpl. rewrite Hny. unfold BALL_RADIUS, Rdiv. nra. }
  assert (Hr5 : Ball.radius (Game.ball g5) = BALL_RADIUS).
  { unfold g5, Game.bumper_collide. rewrite Hh. reflexivity. }
  assert (H6 : Game.bumper_collide g5 b6 = g5).
  { apply bumper_collide_far. rewrite Hr5.
    unfold Vec2.length_squared; simpl. unfold BALL_RADIUS, WIDTH. nra. }
  rewrite H6 in Hg'. rewrite Hg'.
  assert (Hvx : 0 < Vec2.x (Ball.vel (Game.ball g5))).
  { rewrite Hvel. simpl. rewrite Hnx. unfold Rdiv. nra. }
  split; [ exact first_frame_walls | ].
  split; [ reflexivity | ]. split; [ reflexivity | ].
  split; [ exact Hplay | ].
  split; [ simpl; exact Hx5 | ].
  split; [ exact Hvx | ].
  split.
  - intros Heq. rewrite Heq in Hx5. simpl in Hx5. lra.
  - intros Heq. rewrite Heq in Hvx. simpl in Hvx. lra.
Qed.

(** * Further properties of the code *)

(** ** Geometry *)

Lemma clamp_cases (x lo hi : R) :
  lo <= hi ->
  (x <= lo /\ clamp x lo hi = lo)
  \/ (lo <= x <= hi /\ clamp x lo hi = x)
  \/ (hi <= x /\ clamp x lo hi = hi).
Proof.
  intros H. unfold clamp, Rmax, Rmin.
  destruct (Rle_dec hi x) as [H1 | H1].
  - destruct (Rle_dec lo hi) as [_ | H2]; [ | lra ].
    right; right. split; [ lra | reflexivity ].
  - destruct (Rle_dec lo x) as [H2 | H2].
    + right; left. split; [ lra | reflexivity ].
    + left. split; [ lra | reflexivity ].
Qed.

(** X1: with [lo <= hi], [clamp] lands in [[lo, hi]], is the identity on
    that interval, sticks to the nearer end outside it, and clamping twice
    is clamping once. *)
Theorem clamp_range (x lo hi : R) :
  lo <= hi ->
  lo <= clamp x lo hi <= hi
  /\ (lo <= x <= hi -> clamp x lo hi = x)
  /\ (x <= lo -> clamp x lo hi = lo)
  /\ (hi <= x -> clamp x lo hi = hi)
  /\ clamp (clamp x lo hi) lo hi = clamp x lo hi.
Proof.
  intros H.
  assert (Hin : lo <= clamp x lo hi <= hi)
    by (destruct (clamp_cases x lo hi H) as [(A & ->) | [(A & ->) | (A & ->)]];
        lra).
  split; [ exact Hin | ].
  split; [ | split; [ | split ] ].
  - intros Hx.
    destruct (clamp_cases x lo hi H) as [(A & ->) | [(A & ->) | (A & ->)]];
      lra.
  - intros Hx.
    destruct (clamp_cases x lo hi H) as [(A & ->) | [(A & ->) | (A & ->)]];
      lra.
  - intros Hx.
    destruct (clamp_cases x lo hi H) as [(A & ->) | [(A & ->) | (A & ->)]];
      lra.
  - destruct (clamp_cases (clamp x lo hi) lo hi H)
      as [(A & ->) | [(A & ->) | (A & ->)]]; lra.
Qed.

Lemma clamp_range_witness :
  0 <= PLUNGER_MAX
  /\ 0 <= clamp 500 0 PLUNGER_MAX <= PLUNGER_MAX
  /\ clamp 500 0 PLUNGER_MAX = PLUNGER_MAX.
Proof.
  assert (H : 0 <= PLUNGER_MAX) by (unfold PLUNGER_MAX; lra).
  destruct (clamp_range 500 0 PLUNGER_MAX H) as (H1 & _ & _ & H2 & _).
  split; [ exact H | ]. split; [ exact H1 | ].
  apply H2. unfold PLUNGER_MAX. lra.
Defined.

(** The point of the segment at parameter [s]. *)
Lemma segment_point_sq (c a b : Vec2) (q t s : R) :
  let ab := Vec2.sub b a in
  q * Vec2.length_squared ab = Vec2.dot (Vec2.sub c a) ab ->
  Vec2.length_squared (Vec2.sub c (Vec2.add a (Vec2.scale s ab)))
  - Vec2.length_squared (Vec2.sub c (Vec2.add a (Vec2.scale t ab)))
  = Vec2.length_squared ab * ((s - t) * (s + t - 2 * q)).
Proof.
  intros ab Hq. unfold ab in *.
  unfold Vec2.length_squared, Vec2.dot in *. simpl in *.
  set (p := Vec2.x b - Vec2.x a) in *. set (w := Vec2.y b - Vec2.y a) in *.
  set (u := Vec2.x c - Vec2.x a) in *. set (v := Vec2.y c - Vec2.y a) in *.
  replace (Vec2.x c - (Vec2.x a + s * p)) with (u - s * p)
    by (unfold u; ring).
  replace (Vec2.y c - (Vec2.y a + s * w)) with (v - s * w)
    by (unfold v; ring).
  replace (Vec2.x c - (Vec2.x a + t * p)) with (u - t * p)
    by (unfold u; ring).
  replace (Vec2.y c - (Vec2.y a + t * w)) with (v - t * w)
    by (unfold v; ring).
  transitivity ((s * s - t * t) * (p * p + w * w)
                - 2 * (s - t) * (u * p + v * w)); [ ring | ].
  rewrite <- Hq. ring.
Qed.

(** The clamped projection parameter minimises the squared distance over
    the segment. *)
Lemma clamped_projection_nearest (c a b : Vec2) (s : R) :
  let ab := Vec2.sub b a in
  let t := clamp (Vec2.dot (Vec2.sub c a) ab / Vec2.length_squared ab) 0 1 in
  Vec2.length_squared ab <> 0 ->
  0 <= s <= 1 ->
  Vec2.length_squared (Vec2.sub c (Vec2.add a (Vec2.scale t ab)))
  <= Vec2.length_squared (Vec2.sub c (Vec2.add a (Vec2.scale s ab))).
Proof.
  intros ab t Hab Hs.
  set (q := Vec2.dot (Vec2.sub c a) ab / Vec2.length_squared ab) in *.
  assert (Hq : q * Vec2.length_squared ab = Vec2.dot (Vec2.sub c a) ab)
    by (unfold q; field; exact Hab).
  pose proof (segment_point_sq c a b q t s Hq) as Hd. fold ab in Hd.
  clearbody q.
  pose proof (length_squared_nonneg ab) as Hn.
  assert (Hpos : 0 < Vec2.length_squared ab) by lra.
  assert (Hsign : 0 <= (s - t) * (s + t - 2 * q)).
  { assert (H01 : 0 <= 1) by lra.
    destruct (clamp_cases q 0 1 H01) as [(A & E) | [(A & E) | (A & E)]];
      fold t in E; rewrite E.
    - apply Rmult_le_pos; lra.
    - replace ((s - q) * (s + q - 2 * q)) with ((s - q) * (s - q)) by ring.
      pose proof (Rle_0_sqr (s - q)) as Hsq. unfold Rsqr in Hsq. exact Hsq.
    - replace ((s - 1) * (s + 1 - 2 * q))
        with ((1 - s) * (2 * q - 1 - s)) by ring.
      apply Rmult_le_pos; lra. }
  assert (Hprod : 0 <= Vec2.length_squared ab * ((s - t) * (s + t - 2 * q)))
    by (apply Rmult_le_pos; lra).
  lra.
Qed.

(** X2: for a proper segment, the parameter returned by
    [circle_line_collision] lies in [[0, 1]], the returned closest point is
    the segment point at that parameter, and no point of the segment is
    nearer to the circle centre. *)
Theorem closest_point_is_nearest (c : Vec2) (r : R) (a b : Vec2) :
  Vec2.length_squared (Vec2.sub b a) <> 0 ->
  let h := circle_line_collision c r a b in
  0 <= lh_t h <= 1
  /\ lh_closest h = Vec2.add a (Vec2.scale (lh_t h) (Vec2.sub b a))
  /\ forall s, 0 <= s <= 1 ->
       Vec2.length (Vec2.sub c (lh_closest h))
       <= Vec2.length (Vec2.sub c (Vec2.add a (Vec2.scale s (Vec2.sub b a)))).
Proof.
  intros Hab h.
  assert (Hh : lh_t h
               = clamp (Vec2.dot (Vec2.sub c a) (Vec2.sub b a)
                        / Vec2.length_squared (Vec2.sub b a)) 0 1
               /\ lh_closest h
                  = Vec2.add a (Vec2.scale (lh_t h) (Vec2.sub b a))).
  { unfold h, circle_line_collision.
    destruct (Req_dec_T _ 0) as [Hz | _]; [ contradiction | ].
    destruct (Rlt_dec _ r); simpl; split; reflexivity. }
  destruct Hh as (Ht & Hc).
  split; [ rewrite Ht; apply clamp_unit | ].
  split; [ exact Hc | ].
  intros s Hs. rewrite Hc, Ht. unfold Vec2.length.
  apply sqrt_le_1_alt. apply clamped_projection_nearest; assumption.
Qed.

Lemma closest_point_is_nearest_witness :
  let a := Vec2.mk 80 140 in
  let b := Vec2.mk 80 570 in
  let h := circle_line_collision (Vec2.mk 100 300) BALL_RADIUS a b in
  Vec2.length_squared (Vec2.sub b a) <> 0
  /\ 0 <= lh_t h <= 1
  /\ lh_closest h = Vec2.add a (Vec2.scale (lh_t h) (Vec2.sub b a)).
Proof.
  intros a b h.
  assert (H : Vec2.length_squared (Vec2.sub b a) <> 0)
    by (unfold Vec2.length_squared; simpl; lra).
  destruct (closest_point_is_nearest (Vec2.mk 100 300) BALL_RADIUS a b H)
    as (H1 & H2 & _).
  split; [ exact H | ]. split; [ exact H1 | exact H2 ].
Defined.

Lemma length_squared_zero (v : Vec2) :
  Vec2.length_squared v = 0 -> v = Vec2.zero.
Proof.
  unfold Vec2.length_squared. intros H.
  apply vec2_eq; simpl; nra.
Qed.

Lemma length_mono (u v : Vec2) :
  Vec2.length_squared u <= Vec2.length_squared v ->
  Vec2.length u <= Vec2.length v.
Proof. intros H. unfold Vec2.length. now apply sqrt_le_1_alt. Qed.

(** What a hit means: the returned closest point is nearer than the radius,
    guard included. *)
Lemma circle_line_hit_iff (c : Vec2) (r : R) (a b : Vec2) :
  lh_hit (circle_line_collision c r a b) = true <->
  Vec2.length
    (Vec2.sub c
       (if Req_dec_T (Vec2.length_squared (Vec2.sub b a)) 0 then a
        else Vec2.add a
               (Vec2.scale
                  (clamp (Vec2.dot (Vec2.sub c a) (Vec2.sub b a)
                          / Vec2.length_squared (Vec2.sub b a)) 0 1)
                  (Vec2.sub b a)))) + EPS < r.
Proof.
  unfold circle_line_collision.
  destruct (Req_dec_T _ 0) as [Hz | Hnz].
  - destruct (Rlt_dec _ r) as [Hlt | Hge]; simpl; split; intros H;
      try discriminate; try reflexivity; try assumption. contradiction.
  - destruct (Rlt_dec _ r) as [Hlt | Hge]; simpl; split; intros H;
      try discriminate; try reflexivity; try assumption. contradiction.
Qed.

(** X3: [circle_line_collision] reports a hit exactly when some point of
    the segment (a single point when the ends coincide) is closer to the
    centre than [r - EPS], that is, when its distance plus the guard [EPS]
    is below the radius: such a point always gives a hit; a reported hit
    comes with a closest point that is that close; and when every point of
    the segment is at distance [r - EPS] or more, as for a circle that just
    touches the segment at distance [r], no hit is reported. *)
Theorem circle_line_detects_overlap (c : Vec2) (r : R) (a b : Vec2) :
  (forall s, 0 <= s <= 1 ->
     Vec2.length (Vec2.sub c (Vec2.add a (Vec2.scale s (Vec2.sub b a))))
       + EPS < r ->
     lh_hit (circle_line_collision c r a b) = true)
  /\ (lh_hit (circle_line_collision c r a b) = true ->
      Vec2.length (Vec2.sub c (lh_closest (circle_line_collision c r a b)))
        + EPS < r)
  /\ ((forall s, 0 <= s <= 1 ->
        r <= Vec2.length
               (Vec2.sub c (Vec2.add a (Vec2.scale s (Vec2.sub b a))))
             + EPS) ->
      lh_hit (circle_line_collision c r a b) = false).
Proof.
  split; [ | split ].
  - intros s Hs Hnear. apply circle_line_hit_iff.
    destruct (Req_dec_T _ 0) as [Hz | Hnz].
    + apply length_squared_zero in Hz.
      rewrite Hz in Hnear.
      replace (Vec2.add a (Vec2.scale s Vec2.zero)) with a in Hnear
        by (apply vec2_eq; simpl; ring).
      exact Hnear.
    + pose proof (clamped_projection_nearest c a b s Hnz Hs) as Hmin.
      apply length_mono in Hmin. cbv zeta in Hmin. lra.
  - intros Hhit. pose proof Hhit as Hh. apply circle_line_hit_iff in Hh.
    unfold circle_line_collision in *.
    destruct (Req_dec_T _ 0) as [Hz | Hnz].
    + destruct (Rlt_dec _ r) as [Hlt | Hge]; [ | discriminate ].
      simpl. exact Hh.
    + destruct (Rlt_dec _ r) as [Hlt | Hge]; [ | discriminate ].
      simpl. exact Hh.
  - intros Hfar.
    destruct (lh_hit (circle_line_collision c r a b)) eqn:Hhit;
      [ exfalso | reflexivity ].
    apply circle_line_hit_iff in Hhit.
    destruct (Req_dec_T _ 0) as [Hz | Hnz].
    + assert (H0 : 0 <= 0 <= 1) by lra.
      pose proof (Hfar 0 H0) as Hf.
      replace (Vec2.add a (Vec2.scale 0 (Vec2.sub b a))) with a in Hf
        by (apply vec2_eq; simpl; ring).
      lra.
    + pose proof (Hfar _ (clamp_unit
                            (Vec2.dot (Vec2.sub c a) (Vec2.sub b a)
                             / Vec2.length_squared (Vec2.sub b a)))) as Hf.
      lra.
Qed.

Lemma circle_line_detects_overlap_witness :
  let c := Vec2.mk 85 355 in
  let a := Vec2.mk 80 140 in
  let b := Vec2.mk 80 570 in
  0 <= / 2 <= 1
  /\ Vec2.length (Vec2.sub c (Vec2.add a (Vec2.scale (/ 2) (Vec2.sub b a))))
     + EPS < BALL_RADIUS
  /\ lh_hit (circle_line_collision c BALL_RADIUS a b) = true.
Proof.
  intros c a b.
  assert (H1 : 0 <= / 2 <= 1) by lra.
  assert (H2 : Vec2.length
                 (Vec2.sub c (Vec2.add a (Vec2.scale (/ 2) (Vec2.sub b a))))
               + EPS < BALL_RADIUS).
  { set (v := Vec2.sub c _).
    pose proof (length_nonneg v) as Hn. pose proof (length_sqr v) as Hs.
    assert (Hv : Vec2.length_squared v = 25)
      by (unfold v, Vec2.length_squared; simpl; lra).
    rewrite Hv in Hs. unfold BALL_RADIUS, EPS. nra. }
  split; [ exact H1 | ]. split; [ exact H2 | ].
  exact (proj1 (circle_line_detects_overlap c BALL_RADIUS a b) (/ 2) H1 H2).
Defined.

(** X4: a segment whose ends coincide is tested as a circle of radius 0 at
    that point: same hit flag, push and normal as
    [circle_circle_collision], with parameter 0. *)
Theorem degenerate_segment_is_point (c : Vec2) (r : R) (a : Vec2) :
  let hl := circle_line_collision c r a a in
  let hc := circle_circle_collision c r a 0 in
  lh_hit hl = ch_hit hc
  /\ lh_push hl = ch_push hc
  /\ lh_normal hl = ch_normal hc
  /\ lh_t hl = 0.
Proof.
  intros hl hc. unfold hl, hc, circle_line_collision, circle_circle_collision.
  destruct (Req_dec_T _ 0) as [_ | Hnz].
  - destruct (Rlt_dec _ r) as [H1 | H1];
      destruct (Rlt_dec _ (r + 0)) as [H2 | H2]; simpl;
      try (exfalso; lra).
    + repeat split; try reflexivity.
      apply vec2_eq; simpl; ring.
    + repeat split; reflexivity.
  - exfalso. apply Hnz. unfold Vec2.length_squared; simpl. ring.
Qed.

Lemma circle_circle_hit_parts (c1 : Vec2) (r1 : R) (c2 : Vec2) (r2 : R) :
  let diff := Vec2.sub c1 c2 in
  let d := Vec2.length diff + EPS in
  d < r1 + r2 ->
  circle_circle_collision c1 r1 c2 r2
  = mkCircleHit true (Vec2.scale (r1 + r2 - d) (Vec2.div diff d))
                (Vec2.div diff d).
Proof.
  intros diff d H. unfold circle_circle_collision. fold diff d.
  destruct (Rlt_dec d (r1 + r2)); [ reflexivity | contradiction ].
Qed.

(** X5: the push of [circle_circle_collision] moves the first centre
    straight away from the second, but not all the way: the overlap
    [r1 + r2 - d] left after the push is the overlap before it times
    [EPS / d], so it is still positive (the circles still test as
    touching) and, for distinct centres, strictly smaller. *)
Theorem bumper_push_leaves_residue (c1 : Vec2) (r1 : R) (c2 : Vec2) (r2 : R) :
  let h := circle_circle_collision c1 r1 c2 r2 in
  let d := Vec2.length (Vec2.sub c1 c2) + EPS in
  let c1' := Vec2.add c1 (ch_push h) in
  let d' := Vec2.length (Vec2.sub c1' c2) + EPS in
  ch_hit h = true ->
  Vec2.sub c1' c2 = Vec2.scale ((r1 + r2) / d) (Vec2.sub c1 c2)
  /\ r1 + r2 - d' = (r1 + r2 - d) * (EPS / d)
  /\ 0 < r1 + r2 - d' <= r1 + r2 - d
  /\ (0 < Vec2.length (Vec2.sub c1 c2) -> r1 + r2 - d' < r1 + r2 - d)
  /\ ch_hit (circle_circle_collision c1' r1 c2 r2) = true.
Proof.
  intros h d c1' d' Hhit.
  pose proof EPS_pos as He.
  pose proof (length_nonneg (Vec2.sub c1 c2)) as HL.
  assert (Hd : d < r1 + r2).
  { unfold h, circle_circle_collision in Hhit. fold d in Hhit.
    destruct (Rlt_dec d (r1 + r2)); [ assumption | discriminate ]. }
  assert (Hdpos : 0 < d) by (unfold d; lra).
  assert (Hh : h = mkCircleHit true
                     (Vec2.scale (r1 + r2 - d)
                                 (Vec2.div (Vec2.sub c1 c2) d))
                     (Vec2.div (Vec2.sub c1 c2) d))
    by (apply circle_circle_hit_parts; exact Hd).
  assert (Hdiff : Vec2.sub c1' c2
                  = Vec2.scale ((r1 + r2) / d) (Vec2.sub c1 c2)).
  { unfold c1'. rewrite Hh. apply vec2_eq; simpl; field; lra. }
  assert (Hk : 0 < (r1 + r2) / d) by (apply Rdiv_lt_0_compat; lra).
  assert (Hlen : Vec2.length (Vec2.sub c1' c2)
                 = (r1 + r2) / d * Vec2.length (Vec2.sub c1 c2)).
  { rewrite Hdiff, length_scale, Rabs_pos_eq by lra. reflexivity. }
  assert (Hres : r1 + r2 - d' = (r1 + r2 - d) * (EPS / d)).
  { unfold d'. rewrite Hlen. unfold d. field. fold d. lra. }
  assert (Hq : 0 < EPS / d <= 1).
  { split; [ apply Rdiv_lt_0_compat; lra | ].
    apply Rmult_le_reg_r with d; [ lra | ].
    unfold Rdiv. rewrite Rmult_assoc, Rinv_l by lra. unfold d. lra. }
  split; [ exact Hdiff | ]. split; [ exact Hres | ].
  split; [ rewrite Hres; nra | ].
  split.
  - intros Hpos. rewrite Hres.
    assert (Hq1 : EPS / d < 1).
    { apply Rmult_lt_reg_r with d; [ lra | ].
      unfold Rdiv. rewrite Rmult_assoc, Rinv_l by lra. unfold d. lra. }
    nra.
  - unfold circle_circle_collision. fold d'.
    destruct (Rlt_dec d' (r1 + r2)) as [_ | Hn]; [ reflexivity | ].
    exfalso. apply Hn. nra.
Qed.

Lemma bumper_push_leaves_residue_witness :
  let c1 := Vec2.mk 175 251 in
  let c2 := Vec2.mk 175 300 in
  let h := circle_circle_collision c1 12 c2 38 in
  ch_hit h = true
  /\ ch_hit (circle_circle_collision (Vec2.add c1 (ch_push h)) 12 c2 38)
     = true.
Proof.
  intros c1 c2 h.
  assert (Hc : c1 = Vec2.add c2 (Vec2.scale 49 up))
    by (apply vec2_eq; simpl; lra).
  assert (H : ch_hit h = true).
  { unfold h. rewrite Hc.
    rewrite (circle_circle_along_unit c2 up 49 12 38 up_unit);
      [ reflexivity | lra | unfold EPS; lra ]. }
  split; [ exact H | ].
  apply (bumper_push_leaves_residue c1 12 c2 38 H).
Defined.

(** X6: the circle test is symmetric: swapping the two circles gives the
    same hit flag and the opposite normal and push. *)
Theorem circle_circle_symmetric (c1 : Vec2) (r1 : R) (c2 : Vec2) (r2 : R) :
  let h := circle_circle_collision c1 r1 c2 r2 in
  let h' := circle_circle_collision c2 r2 c1 r1 in
  ch_hit h' = ch_hit h
  /\ ch_normal h' = Vec2.scale (-1) (ch_normal h)
  /\ ch_push h' = Vec2.scale (-1) (ch_push h).
Proof.
  intros h h'. unfold h, h', circle_circle_collision.
  assert (Hl : Vec2.length (Vec2.sub c2 c1) = Vec2.length (Vec2.sub c1 c2)).
  { unfold Vec2.length. f_equal. unfold Vec2.length_squared; simpl. ring. }
  rewrite Hl.
  destruct (Rlt_dec _ (r2 + r1)) as [H1 | H1];
    destruct (Rlt_dec _ (r1 + r2)) as [H2 | H2]; simpl;
    try (exfalso; lra).
  - pose proof EPS_pos. pose proof (length_nonneg (Vec2.sub c1 c2)).
    repeat split; try reflexivity; apply vec2_eq; simpl; field; lra.
  - repeat split; try reflexivity; apply vec2_eq; simpl; ring.
Qed.

(** ** Reflection *)

Lemma dot_perp (n : Vec2) : Vec2.dot n (perp n) = 0.
Proof. unfold Vec2.dot, perp; simpl. ring. Qed.

Lemma reflect_normal_component (v n : Vec2) (e : R) :
  Vec2.length n = 1 ->
  Vec2.dot (reflect v n e) n
  = if Rlt_dec (Vec2.dot v n) 0 then - e * Vec2.dot v n else Vec2.dot v n.
Proof.
  intros Hn. apply unit_dot_self in Hn. unfold reflect.
  destruct (Rlt_dec (Vec2.dot v n) 0); [ | reflexivity ].
  rewrite dot_sub_scale, Hn. ring.
Qed.

(** X7: for a unit normal and a restitution [e >= 0], the reflected
    velocity never points into the surface, its component along the surface
    is that of the incoming velocity, and reflecting a second time changes
    nothing. *)
Theorem reflect_leaves_surface (v n : Vec2) (e : R) :
  Vec2.length n = 1 ->
  0 <= e ->
  0 <= Vec2.dot (reflect v n e) n
  /\ Vec2.dot (reflect v n e) (perp n) = Vec2.dot v (perp n)
  /\ reflect (reflect v n e) n e = reflect v n e.
Proof.
  intros Hn He.
  pose proof (reflect_normal_component v n e Hn) as Hc.
  assert (Hout : 0 <= Vec2.dot (reflect v n e) n).
  { rewrite Hc. destruct (Rlt_dec (Vec2.dot v n) 0); nra. }
  split; [ exact Hout | ]. split.
  - unfold reflect. destruct (Rlt_dec (Vec2.dot v n) 0); [ | reflexivity ].
    unfold Vec2.dot, perp; simpl. ring.
  - unfold reflect at 1.
    destruct (Rlt_dec (Vec2.dot (reflect v n e) n) 0); [ lra | reflexivity ].
Qed.

Lemma reflect_leaves_surface_witness :
  Vec2.length (Vec2.mk 0 1) = 1
  /\ 0 <= RESTI_BALL_WALL
  /\ 0 <= Vec2.dot (reflect (Vec2.mk 3 (-4)) (Vec2.mk 0 1) RESTI_BALL_WALL)
                   (Vec2.mk 0 1).
Proof.
  assert (H1 : Vec2.length (Vec2.mk 0 1) = 1).
  { unfold Vec2.length, Vec2.length_squared; simpl.
    replace (0 * 0 + 1 * 1) with 1 by ring. apply sqrt_1. }
  assert (H2 : 0 <= RESTI_BALL_WALL) by (unfold RESTI_BALL_WALL; lra).
  split; [ exact H1 | ]. split; [ exact H2 | ].
  apply (reflect_leaves_surface (Vec2.mk 3 (-4)) (Vec2.mk 0 1)
           RESTI_BALL_WALL H1 H2).
Defined.

Lemma reflect_length_squared (v n : Vec2) (e : R) :
  Vec2.length n = 1 ->
  Vec2.length_squared (reflect v n e)
  = Vec2.length_squared v
    - (if Rlt_dec (Vec2.dot v n) 0
       then (1 - e * e) * (Vec2.dot v n * Vec2.dot v n) else 0).
Proof.
  intros Hn. apply unit_dot_self in Hn. unfold reflect.
  destruct (Rlt_dec (Vec2.dot v n) 0); [ | ring ].
  unfold Vec2.dot, Vec2.length_squared in *; simpl.
  set (vn := Vec2.x v * Vec2.x n + Vec2.y v * Vec2.y n).
  transitivity
    (Vec2.x v * Vec2.x v + Vec2.y v * Vec2.y v
     - 2 * ((1 + e) * vn) * vn
     + (1 + e) * vn * ((1 + e) * vn)
       * (Vec2.x n * Vec2.x n + Vec2.y n * Vec2.y n)).
  - unfold vn. ring.
  - rewrite Hn. ring.
Qed.

(** X8: for a unit normal, a restitution between -1 and 1 never raises the
    speed, restitution 1 keeps it, and a restitution above 1 (the bumpers
    and slingshots) raises the speed of every ball that moves into the
    surface. *)
Theorem reflect_speed (v n : Vec2) (e : R) :
  Vec2.length n = 1 ->
  (-1 <= e <= 1 -> Vec2.length (reflect v n e) <= Vec2.length v)
  /\ (e = 1 -> Vec2.length (reflect v n e) = Vec2.length v)
  /\ (1 < e -> Vec2.dot v n < 0 ->
      Vec2.length v < Vec2.length (reflect v n e)).
Proof.
  intros Hn. pose proof (reflect_length_squared v n e Hn) as Hs.
  assert (Hsq : 0 <= Vec2.dot v n * Vec2.dot v n) by nra.
  split; [ | split ].
  - intros He. apply length_mono. rewrite Hs.
    destruct (Rlt_dec (Vec2.dot v n) 0); [ | lra ].
    assert (0 <= (1 - e * e) * (Vec2.dot v n * Vec2.dot v n))
      by (apply Rmult_le_pos; nra).
    lra.
  - intros He. unfold Vec2.length. f_equal. rewrite Hs, He.
    destruct (Rlt_dec (Vec2.dot v n) 0); ring.
  - intros He Hvn. unfold Vec2.length.
    apply sqrt_lt_1_alt. split; [ apply length_squared_nonneg | ].
    rewrite Hs. destruct (Rlt_dec (Vec2.dot v n) 0); [ | lra ].
    assert (0 < Vec2.dot v n * Vec2.dot v n) by nra.
    assert (0 < (e * e - 1) * (Vec2.dot v n * Vec2.dot v n))
      by (apply Rmult_lt_0_compat; nra).
    lra.
Qed.

Lemma reflect_speed_witness :
  Vec2.length (Vec2.mk 0 1) = 1
  /\ -1 <= RESTI_BALL_WALL <= 1
  /\ Vec2.length (reflect (Vec2.mk 3 (-4)) (Vec2.mk 0 1) RESTI_BALL_WALL)
     <= Vec2.length (Vec2.mk 3 (-4)).
Proof.
  assert (H1 : Vec2.length (Vec2.mk 0 1) = 1).
  { unfold Vec2.length, Vec2.length_squared; simpl.
    replace (0 * 0 + 1 * 1) with 1 by ring. apply sqrt_1. }
  assert (H2 : -1 <= RESTI_BALL_WALL <= 1) by (unfold RESTI_BALL_WALL; lra).
  split; [ exact H1 | ]. split; [ exact H2 | ].
  apply (reflect_speed (Vec2.mk 3 (-4)) (Vec2.mk 0 1) RESTI_BALL_WALL H1).
  exact H2.
Defined.

(** ** Ball dynamics *)

Lemma trail_append_spec (l : list Vec2) (p : Vec2) :
  (length l <= TRAIL_POINTS)%nat ->
  (length (Ball.trail_append l p) <= TRAIL_POINTS)%nat
  /\ last (Ball.trail_append l p) Vec2.zero = p
  /\ ((length l < TRAIL_POINTS)%nat -> Ball.trail_append l p = l ++ [p])
  /\ (length l = TRAIL_POINTS -> Ball.trail_append l p = tl l ++ [p]).
Proof.
  intros Hl. unfold Ball.trail_append.
  assert (Hlen : length (l ++ [p]) = S (length l))
    by (rewrite length_app; simpl; lia).
  destruct (Nat.ltb_spec TRAIL_POINTS (length (l ++ [p]))) as [Hfull | Hroom].
  - assert (Heq : length l = TRAIL_POINTS) by lia.
    destruct l as [ | q l ]; [ unfold TRAIL_POINTS in Heq; discriminate | ].
    simpl in *. repeat split.
    + rewrite length_app. simpl. lia.
    + apply last_last.
    + intros. lia.
  - repeat split.
    + lia.
    + apply last_last.
    + intros Heq. lia.
Qed.

(** X9: the trail of a ball in play is a bounded history: a trail of at
    most [TRAIL_POINTS] points stays that short, its newest entry is the
    new position, and a full trail drops exactly its oldest entry. *)
Theorem trail_is_bounded (b : Ball.t) (dt : R) :
  Ball.in_play b = true ->
  (length (Ball.trail b) <= TRAIL_POINTS)%nat ->
  let b' := Ball.apply_physics b dt in
  (length (Ball.trail b') <= TRAIL_POINTS)%nat
  /\ last (Ball.trail b') Vec2.zero = Ball.pos b'
  /\ ((length (Ball.trail b) < TRAIL_POINTS)%nat ->
      Ball.trail b' = Ball.trail b ++ [Ball.pos b'])
  /\ (length (Ball.trail b) = TRAIL_POINTS ->
      Ball.trail b' = tl (Ball.trail b) ++ [Ball.pos b']).
Proof.
  intros Hp Hl b'. unfold b', Ball.apply_physics. rewrite Hp. simpl.
  apply trail_append_spec. exact Hl.
Qed.

Lemma trail_is_bounded_witness :
  Ball.in_play falling_ball = true
  /\ (length (Ball.trail falling_ball) <= TRAIL_POINTS)%nat
  /\ (length (Ball.trail (Ball.apply_physics falling_ball (/ 60)))
      <= TRAIL_POINTS)%nat.
Proof.
  assert (H1 : Ball.in_play falling_ball = true) by reflexivity.
  assert (H2 : (length (Ball.trail falling_ball) <= TRAIL_POINTS)%nat)
    by (unfold TRAIL_POINTS; simpl; lia).
  split; [ exact H1 | ]. split; [ exact H2 | ].
  apply (trail_is_bounded falling_ball (/ 60) H1 H2).
Defined.

Lemma apply_physics_pos (b : Ball.t) (dt : R) :
  Vec2.sub (Ball.pos (Ball.apply_physics b dt)) (Ball.pos b)
  = if Ball.in_play b
    then Vec2.scale dt (Ball.vel (Ball.apply_physics b dt))
    else Vec2.zero.
Proof.
  unfold Ball.apply_physics. destruct (Ball.in_play b); simpl;
    apply vec2_eq; simpl; ring.
Qed.

Lemma length_zero : Vec2.length Vec2.zero = 0.
Proof.
  unfold Vec2.length, Vec2.length_squared; simpl.
  replace (0 * 0 + 0 * 0) with 0 by ring. apply sqrt_0.
Qed.

(** X10: in one physics step of length [dt >= 0] the ball moves by its new
    velocity times [dt], hence by at most [MAX_BALL_SPEED * dt]; an idle
    ball does not move at all. *)
Theorem physics_step_is_short (b : Ball.t) (dt : R) :
  0 <= dt ->
  let b' := Ball.apply_physics b dt in
  Vec2.length (Vec2.sub (Ball.pos b') (Ball.pos b)) <= MAX_BALL_SPEED * dt
  /\ (Ball.in_play b = true ->
      Ball.pos b' = Vec2.add (Ball.pos b) (Vec2.scale dt (Ball.vel b')))
  /\ (Ball.in_play b = false -> Ball.pos b' = Ball.pos b).
Proof.
  intros Hdt b'. unfold b'.
  split; [ | split ].
  - rewrite apply_physics_pos. destruct (Ball.in_play b) eqn:Hp.
    + rewrite length_scale, Rabs_pos_eq by lra.
      rewrite (apply_physics_vel b dt Hp).
      pose proof (clamp_speed_bound (Ball.vel_gravity_drag b dt)).
      rewrite Rmult_comm. apply Rmult_le_compat_r; assumption.
    + rewrite length_zero. unfold MAX_BALL_SPEED. nra.
  - intros Hp. unfold Ball.apply_physics. rewrite Hp. reflexivity.
  - intros Hp. unfold Ball.apply_physics. rewrite Hp. reflexivity.
Qed.

Lemma physics_step_is_short_witness :
  0 <= / 60
  /\ Vec2.length
       (Vec2.sub (Ball.pos (Ball.apply_physics falling_ball (/ 60)))
                 (Ball.pos falling_ball))
     <= MAX_BALL_SPEED * / 60.
Proof.
  assert (H : 0 <= / 60) by lra.
  split; [ exact H | ].
  apply (physics_step_is_short falling_ball (/ 60) H).
Defined.

Lemma drag_factor_range (dt : R) :
  0 <= dt -> 0 < Rpower (1 - AIR_FRICTION) (dt * 60) <= 1.
Proof.
  intros Hdt. unfold Rpower. split; [ apply exp_pos | ].
  assert (Hln : ln (1 - AIR_FRICTION) < 0).
  { pose proof ln_1 as H1.
    assert (H : ln (1 - AIR_FRICTION) < ln 1)
      by (apply ln_increasing; unfold AIR_FRICTION; lra).
    lra. }
  assert (Hx : dt * 60 * ln (1 - AIR_FRICTION) <= 0) by nra.
  destruct Hx as [Hlt | Heq].
  - apply exp_increasing in Hlt. rewrite exp_0 in Hlt. lra.
  - rewrite Heq, exp_0. lra.
Qed.

(** X11: air drag never speeds the ball up: for [dt >= 0] the speed after
    gravity and drag is at most the speed after gravity alone; and the drag
    of two successive steps is the drag of one step of their total
    length. *)
Theorem drag_only_slows (b : Ball.t) (dt : R) :
  0 <= dt ->
  Vec2.length (Ball.vel_gravity_drag b dt)
  <= Vec2.length (Vec2.set_y (Ball.vel b)
                    (Vec2.y (Ball.vel b) + GRAVITY * dt))
  /\ forall dt2,
       Rpower (1 - AIR_FRICTION) ((dt + dt2) * 60)
       = Rpower (1 - AIR_FRICTION) (dt * 60)
         * Rpower (1 - AIR_FRICTION) (dt2 * 60).
Proof.
  intros Hdt. destruct (drag_factor_range dt Hdt) as (Hpos & Hle).
  split.
  - unfold Ball.vel_gravity_drag.
    rewrite length_scale, Rabs_pos_eq by lra.
    pose proof (length_nonneg (Vec2.set_y (Ball.vel b)
                  (Vec2.y (Ball.vel b) + GRAVITY * dt))).
    nra.
  - intros dt2. rewrite <- Rpower_plus. f_equal. ring.
Qed.

Lemma drag_only_slows_witness :
  0 <= / 60
  /\ Vec2.length (Ball.vel_gravity_drag falling_ball (/ 60))
     <= Vec2.length (Vec2.set_y (Ball.vel falling_ball)
                       (Vec2.y (Ball.vel falling_ball) + GRAVITY * / 60)).
Proof.
  assert (H : 0 <= / 60) by lra.
  split; [ exact H | ].
  apply (drag_only_slows falling_ball (/ 60) H).
Defined.

(** ** Flippers *)

Lemma step_angle_delta (f : Flipper.t) (dt : R) :
  0 < dt ->
  Rabs (Flipper.step_angle f dt - Flipper.angle f) <= FLIPPER_SPEED * dt.
Proof.
  intros Hdt. pose proof FLIPPER_SPEED_pos as Hs.
  assert (Hq : 0 < FLIPPER_SPEED * dt) by nra.
  destruct (step_angle_cases f dt Hdt) as (Hup & Hdown & Heq).
  destruct (Rtotal_order (Flipper.angle f) (Flipper.target f))
    as [H | [H | H]].
  - destruct (Hup H) as (Hr & [E | E]);
      rewrite Rabs_pos_eq by lra.
    + pose proof (Rmin_l (Flipper.angle f + FLIPPER_SPEED * dt)
                         (Flipper.target f)) as Hm.
      unfold Flipper.step_angle in *.
      destruct (Rlt_dec (Flipper.angle f) (Flipper.target f)); lra.
    + lra.
  - rewrite (Heq H). replace (Flipper.angle f - Flipper.angle f) with 0
      by ring. rewrite Rabs_R0. lra.
  - destruct (Hdown H) as (Hr & [E | E]);
      rewrite Rabs_left1 by lra.
    + pose proof (Rmax_l (Flipper.angle f - FLIPPER_SPEED * dt)
                         (Flipper.target f)) as Hm.
      unfold Flipper.step_angle in *.
      destruct (Rlt_dec (Flipper.angle f) (Flipper.target f)); [ lra | ].
      destruct (Rgt_dec (Flipper.angle f) (Flipper.target f)); lra.
    + lra.
Qed.

(** X12: the angular velocity that [Flipper.update] records never exceeds
    [FLIPPER_SPEED] in magnitude, for every [dt > 0] (also below the
    1e-6 guard of the division); it is 0 for a flipper on its target,
    positive on the way up and negative on the way down. *)
Theorem flipper_ang_vel_bounded (f : Flipper.t) (dt : R) :
  0 < dt ->
  let f' := Flipper.update f dt in
  Rabs (Flipper.ang_vel f') <= FLIPPER_SPEED
  /\ (Flipper.angle f = Flipper.target f -> Flipper.ang_vel f' = 0)
  /\ (Flipper.angle f < Flipper.target f -> 0 < Flipper.ang_vel f')
  /\ (Flipper.target f < Flipper.angle f -> Flipper.ang_vel f' < 0).
Proof.
  intros Hdt f'. pose proof FLIPPER_SPEED_pos as Hs.
  change (Flipper.ang_vel f')
    with ((Flipper.step_angle f dt - Flipper.angle f) / Rmax dt 1e-6).
  set (delta := Flipper.step_angle f dt - Flipper.angle f).
  set (m := Rmax dt 1e-6).
  assert (Hm : dt <= m /\ 0 < m).
  { unfold m, Rmax. destruct (Rle_dec dt 1e-6); lra. }
  destruct Hm as (Hm1 & Hm0).
  assert (Hinv : 0 < / m) by (apply Rinv_0_lt_compat; exact Hm0).
  pose proof (step_angle_delta f dt Hdt) as Hd. fold delta in Hd.
  destruct (step_angle_cases f dt Hdt) as (Hup & Hdown & Heq).
  split; [ | split; [ | split ] ].
  - unfold Rdiv. rewrite Rabs_mult, (Rabs_pos_eq (/ m)) by lra.
    apply Rmult_le_reg_r with m; [ exact Hm0 | ].
    rewrite Rmult_assoc, Rinv_l by lra.
    pose proof (Rabs_pos delta). nra.
  - intros H. unfold delta. rewrite (Heq H). unfold Rdiv. ring.
  - intros H. destruct (Hup H) as (Hr & _).
    unfold Rdiv. apply Rmult_lt_0_compat; [ unfold delta; lra | exact Hinv ].
  - intros H. destruct (Hdown H) as (Hr & _).
    unfold Rdiv. assert (delta < 0) by (unfold delta; lra). nra.
Qed.

Lemma flipper_ang_vel_bounded_witness :
  0 < / 120
  /\ Rabs (Flipper.ang_vel (Flipper.update pressed_flipper (/ 120)))
     <= FLIPPER_SPEED.
Proof.
  assert (H : 0 < / 120) by lra.
  split; [ exact H | ].
  apply (flipper_ang_vel_bounded pressed_flipper (/ 120) H).
Defined.

Lemma flipper_steps_S (n : nat) (f : Flipper.t) (dt : R) :
  flipper_steps (S n) f dt = Flipper.update (flipper_steps n f dt) dt.
Proof. reflexivity. Qed.

Lemma flipper_steps_up (n : nat) (f : Flipper.t) (dt : R) :
  0 < dt ->
  Flipper.key_pressed f = true ->
  Flipper.angle f <= Flipper.max_angle f ->
  Flipper.key_pressed (flipper_steps n f dt) = true
  /\ Flipper.max_angle (flipper_steps n f dt) = Flipper.max_angle f
  /\ Flipper.angle (flipper_steps n f dt)
     = Rmin (Flipper.angle f + INR n * (FLIPPER_SPEED * dt))
            (Flipper.max_angle f).
Proof.
  intros Hdt Hk Ha. pose proof FLIPPER_SPEED_pos as Hs.
  assert (Hq : 0 < FLIPPER_SPEED * dt) by nra.
  induction n as [ | n (IH1 & IH2 & IH3) ].
  - simpl. repeat split; try assumption.
    rewrite Rmult_0_l, Rplus_0_r. unfold Rmin.
    destruct (Rle_dec _ _); lra.
  - rewrite flipper_steps_S. set (g := flipper_steps n f dt) in *.
    split; [ exact IH1 | ]. split; [ exact IH2 | ].
    change (Flipper.angle (Flipper.update g dt))
      with (Flipper.step_angle g dt).
    unfold Flipper.step_angle, Flipper.target. rewrite IH1, IH2, IH3.
    rewrite S_INR. pose proof (pos_INR n) as Hn.
    set (a := Flipper.angle f) in *. set (M := Flipper.max_angle f) in *.
    set (q := FLIPPER_SPEED * dt) in *.
    unfold Rmin.
    repeat (match goal with
            | |- context [ Rle_dec ?x ?y ] => destruct (Rle_dec x y)
            | |- context [ Rlt_dec ?x ?y ] => destruct (Rlt_dec x y)
            | |- context [ Rgt_dec ?x ?y ] => destruct (Rgt_dec x y)
            end; try nra).
Qed.

Lemma flipper_steps_down (n : nat) (f : Flipper.t) (dt : R) :
  0 < dt ->
  Flipper.key_pressed f = false ->
  Flipper.min_angle f <= Flipper.angle f ->
  Flipper.key_pressed (flipper_steps n f dt) = false
  /\ Flipper.min_angle (flipper_steps n f dt) = Flipper.min_angle f
  /\ Flipper.angle (flipper_steps n f dt)
     = Rmax (Flipper.angle f - INR n * (FLIPPER_SPEED * dt))
            (Flipper.min_angle f).
Proof.
  intros Hdt Hk Ha. pose proof FLIPPER_SPEED_pos as Hs.
  assert (Hq : 0 < FLIPPER_SPEED * dt) by nra.
  induction n as [ | n (IH1 & IH2 & IH3) ].
  - simpl. repeat split; try assumption.
    rewrite Rmult_0_l, Rminus_0_r. unfold Rmax.
    destruct (Rle_dec _ _); lra.
  - rewrite flipper_steps_S. set (g := flipper_steps n f dt) in *.
    split; [ exact IH1 | ]. split; [ exact IH2 | ].
    change (Flipper.angle (Flipper.update g dt))
      with (Flipper.step_angle g dt).
    unfold Flipper.step_angle, Flipper.target. rewrite IH1, IH2, IH3.
    rewrite S_INR. pose proof (pos_INR n) as Hn.
    set (a := Flipper.angle f) in *. set (M := Flipper.min_angle f) in *.
    set (q := FLIPPER_SPEED * dt) in *.
    unfold Rmax.
    repeat (match goal with
            | |- context [ Rle_dec ?x ?y ] => destruct (Rle_dec x y)
            | |- context [ Rlt_dec ?x ?y ] => destruct (Rlt_dec x y)
            | |- context [ Rgt_dec ?x ?y ] => destruct (Rgt_dec x y)
            end; try nra).
Qed.

(** X13: with the key held for [n] updates of length [dt], a flipper that
    starts at or below its upper limit stands at
    [min (angle + n * FLIPPER_SPEED * dt, max_angle)]: it arrives as soon as
    [n * FLIPPER_SPEED * dt] covers the remaining angle and then stays;
    with the key released it likewise stands at
    [max (angle - n * FLIPPER_SPEED * dt, min_angle)]. *)
Theorem flipper_reaches_target (n : nat) (f : Flipper.t) (dt : R) :
  0 < dt ->
  (Flipper.key_pressed f = true ->
   Flipper.angle f <= Flipper.max_angle f ->
   Flipper.angle (flipper_steps n f dt)
   = Rmin (Flipper.angle f + INR n * (FLIPPER_SPEED * dt))
          (Flipper.max_angle f)
   /\ (Flipper.max_angle f - Flipper.angle f
       <= INR n * (FLIPPER_SPEED * dt) ->
       Flipper.angle (flipper_steps n f dt) = Flipper.max_angle f))
  /\ (Flipper.key_pressed f = false ->
      Flipper.min_angle f <= Flipper.angle f ->
      Flipper.angle (flipper_steps n f dt)
      = Rmax (Flipper.angle f - INR n * (FLIPPER_SPEED * dt))
             (Flipper.min_angle f)
      /\ (Flipper.angle f - Flipper.min_angle f
          <= INR n * (FLIPPER_SPEED * dt) ->
          Flipper.angle (flipper_steps n f dt) = Flipper.min_angle f)).
Proof.
  intros Hdt. split; intros Hk Ha.
  - destruct (flipper_steps_up n f dt Hdt Hk Ha) as (_ & _ & H).
    split; [ exact H | ].
    intros Hn. rewrite H. unfold Rmin. destruct (Rle_dec _ _); lra.
  - destruct (flipper_steps_down n f dt Hdt Hk Ha) as (_ & _ & H).
    split; [ exact H | ].
    intros Hn. rewrite H. unfold Rmax. destruct (Rle_dec _ _); lra.
Qed.

(** At 120 frames a second the pressed flipper is fully up after 8
    frames. *)
Lemma flipper_reaches_target_witness :
  0 < / 120
  /\ Flipper.key_pressed pressed_flipper = true
  /\ Flipper.angle pressed_flipper <= Flipper.max_angle pressed_flipper
  /\ Flipper.angle (flipper_steps 8 pressed_flipper (/ 120))
     = Flipper.max_angle pressed_flipper.
Proof.
  assert (H1 : 0 < / 120) by lra.
  assert (H2 : Flipper.key_pressed pressed_flipper = true) by reflexivity.
  assert (H3 : Flipper.angle pressed_flipper
               <= Flipper.max_angle pressed_flipper).
  { simpl. unfold FLIPPER_LEFT_MIN, FLIPPER_LEFT_MAX, radians.
    pose proof PI_RGT_0. lra. }
  split; [ exact H1 | ]. split; [ exact H2 | ]. split; [ exact H3 | ].
  destruct (flipper_reaches_target 8 pressed_flipper (/ 120) H1) as (H & _).
  destruct (H H2 H3) as (_ & Hr). apply Hr.
  simpl. unfold FLIPPER_LEFT_MIN, FLIPPER_LEFT_MAX, FLIPPER_SPEED, radians.
  pose proof PI_RGT_0. lra.
Defined.

(** X14: the tip that [endpoints] returns lies at the flipper's length from
    its pivot, whatever the angle; the first endpoint is the pivot. *)
Theorem flipper_tip_on_circle (f : Flipper.t) :
  fst (Flipper.endpoints f) = Flipper.pivot f
  /\ Vec2.length (Vec2.sub (snd (Flipper.endpoints f)) (Flipper.pivot f))
     = Rabs (Flipper.length f).
Proof.
  split; [ reflexivity | ].
  unfold Flipper.endpoints. simpl snd.
  set (dir := Vec2.mk (cos (Flipper.angle f)) (- sin (Flipper.angle f))).
  replace (Vec2.sub (Vec2.add (Flipper.pivot f)
                       (Vec2.scale (Flipper.length f) dir))
                    (Flipper.pivot f))
    with (Vec2.scale (Flipper.length f) dir)
    by (apply vec2_eq; simpl; ring).
  rewrite length_scale.
  assert (Hd : Vec2.length dir = 1).
  { unfold Vec2.length, Vec2.length_squared, dir; simpl.
    replace (cos (Flipper.angle f) * cos (Flipper.angle f)
             + - sin (Flipper.angle f) * - sin (Flipper.angle f))
      with (Rsqr (sin (Flipper.angle f)) + Rsqr (cos (Flipper.angle f)))
      by (unfold Rsqr; ring).
    rewrite sin2_cos2. apply sqrt_1. }
  rewrite Hd. ring.
Qed.

(** ** Session rules *)

Section SessionRules.
Context {rnd : Random}.

Import Game.

Ltac crush_branches :=
  cbv zeta;
  repeat (simpl;
          match goal with
          | |- context [ let (_, _) := ?e in _ ] => destruct e
          | |- context [ if ?c then _ else _ ] => destruct c eqn:?
          end);
  simpl in *; repeat split; try reflexivity; try congruence.

Lemma handlers_frame_refl (g : Game.t) : handlers_frame g g.
Proof. repeat split. Qed.

Lemma handlers_frame_trans (g1 g2 g3 : Game.t) :
  handlers_frame g1 g2 -> handlers_frame g2 g3 -> handlers_frame g1 g3.
Proof.
  unfold handlers_frame. intros H1 H2.
  repeat (match goal with
          | H : _ /\ _ |- _ => destruct H
          end).
  repeat split; congruence.
Qed.

Lemma spawn_particles_handlers (g : Game.t) p n c :
  handlers_frame g (spawn_particles g p n c).
Proof. unfold handlers_frame, spawn_particles. crush_branches. Qed.

Lemma wall_collide_handlers (g : Game.t) w :
  handlers_frame g (wall_collide g w).
Proof.
  unfold handlers_frame, wall_collide, spawn_particles, add_score.
  crush_branches.
Qed.

Lemma boundary_clamp_shape (b : Ball.t) :
  Ball.radius (boundary_clamp b) = Ball.radius b
  /\ Ball.mass (boundary_clamp b) = Ball.mass b
  /\ Ball.trail (boundary_clamp b) = Ball.trail b.
Proof. unfold boundary_clamp. crush_branches. Qed.

Lemma handle_wall_collisions_handlers (g : Game.t) :
  handlers_frame g (handle_wall_collisions g).
Proof.
  unfold handle_wall_collisions. cbv zeta.
  eapply handlers_frame_trans.
  - apply (fold_left_frame handlers_frame wall_collide handlers_frame_refl
             handlers_frame_trans wall_collide_handlers).
  - destruct (boundary_clamp_shape
                (ball (fold_left wall_collide (walls g) g))) as (A & B & C).
    unfold handlers_frame; simpl. repeat split; assumption.
Qed.

Lemma bumper_collide_handlers (g : Game.t) b :
  handlers_frame g (bumper_collide g b).
Proof.
  unfold handlers_frame, bumper_collide, spawn_particles, add_score.
  crush_branches.
Qed.

Lemma handle_bumper_collisions_handlers (g : Game.t) :
  handlers_frame g (handle_bumper_collisions g).
Proof.
  apply (fold_left_frame handlers_frame bumper_collide handlers_frame_refl
           handlers_frame_trans bumper_collide_handlers).
Qed.

Lemma check_rollovers_handlers (rs : list Rollover.t) (g : Game.t) :
  handlers_frame g (snd (check_rollovers rs g)).
Proof.
  revert g. induction rs as [ | r l IH ]; intros g; simpl.
  - apply handlers_frame_refl.
  - destruct (Rollover.check r _ _) as [r' nl].
    match goal with
    | |- context [ check_rollovers l ?x ] =>
      specialize (IH x); destruct (check_rollovers l x) as [rest' g4]
    end.
    simpl in *. eapply handlers_frame_trans; [ | exact IH ].
    destruct (nl && _); [ | apply handlers_frame_refl ].
    eapply handlers_frame_trans; [ | apply spawn_particles_handlers ].
    repeat split.
Qed.

Lemma handle_rollovers_handlers (g : Game.t) :
  handlers_frame g (handle_rollovers g).
Proof.
  pose proof (check_rollovers_handlers (rollovers g) g) as H.
  unfold handle_rollovers, add_score.
  destruct (check_rollovers (rollovers g) g) as [rs g3].
  cbv zeta. simpl in H.
  destruct (_ && _); (eapply handlers_frame_trans; [ exact H | ]);
    repeat split.
Qed.

Lemma handle_flipper_collision_handlers (g : Game.t) f :
  handlers_frame g (handle_flipper_collision g f).
Proof.
  unfold handlers_frame, handle_flipper_collision, spawn_particles, add_score.
  crush_branches.
Qed.

Lemma particles_update_handlers (g : Game.t) dt :
  handlers_frame g (particles_update g dt).
Proof. repeat split. Qed.

(** The game after the flipper and ball steps that open [update]. *)
Lemma update_motion_handlers (g : Game.t) (dt : R) :
  handlers_frame
    (set_ball
       (set_right_flipper
          (set_left_flipper g (Flipper.update (left_flipper g) dt))
          (Flipper.update (right_flipper g) dt))
       (Ball.apply_physics (ball g) dt))
    (update_motion g dt).
Proof.
  unfold update_motion. cbv zeta.
  repeat (eapply handlers_frame_trans;
          [ | first [ apply particles_update_handlers
                    | apply handle_flipper_collision_handlers
                    | apply handle_rollovers_handlers
                    | apply handle_bumper_collisions_handlers
                    | apply handle_wall_collisions_handlers ] ]).
  apply handlers_frame_refl.
Qed.

(** What the motion phase keeps of the controls. *)
Lemma update_motion_controls (g : Game.t) (dt : R) :
  Flipper.key_pressed (left_flipper (update_motion g dt))
  = Flipper.key_pressed (left_flipper g)
  /\ Flipper.key_pressed (right_flipper (update_motion g dt))
     = Flipper.key_pressed (right_flipper g)
  /\ tilt_active (update_motion g dt) = tilt_active g
  /\ tilt_meter (update_motion g dt) = tilt_meter g
  /\ tilt_timer (update_motion g dt) = tilt_timer g
  /\ plunger_power (update_motion g dt) = plunger_power g
  /\ running (update_motion g dt) = running g
  /\ walls (update_motion g dt) = walls g
  /\ bumpers (update_motion g dt) = bumpers g.
Proof.
  pose proof (update_motion_handlers g dt) as H.
  unfold handlers_frame in H.
  destruct H as (Hrun & Hw & Hb & Hl & Hr & Hpl & _ & _ & Hm & Ha & Ht & _).
  rewrite Hl, Hr.
  split; [ reflexivity | ]. split; [ reflexivity | ].
  split; [ exact Ha | ]. split; [ exact Hm | ]. split; [ exact Ht | ].
  split; [ exact Hpl | ]. split; [ exact Hrun | ].
  split; [ exact Hw | exact Hb ].
Qed.

Lemma update_timers_controls (g : Game.t) (dt : R) :
  left_flipper (update_timers g dt) = left_flipper g
  /\ right_flipper (update_timers g dt) = right_flipper g
  /\ plunger_power (update_timers g dt) = plunger_power g
  /\ running (update_timers g dt) = running g
  /\ walls (update_timers g dt) = walls g
  /\ bumpers (update_timers g dt) = bumpers g
  /\ rollovers (update_timers g dt) = rollovers g
  /\ (tilt_active (update_timers g dt) = true -> tilt_active g = true).
Proof. unfold update_timers. crush_branches. Qed.

Lemma drain_check_controls (g : Game.t) :
  left_flipper (drain_check g) = left_flipper g
  /\ right_flipper (drain_check g) = right_flipper g
  /\ tilt_active (drain_check g) = tilt_active g
  /\ tilt_meter (drain_check g) = tilt_meter g
  /\ tilt_timer (drain_check g) = tilt_timer g
  /\ running (drain_check g) = running g
  /\ walls (drain_check g) = walls g
  /\ bumpers (drain_check g) = bumpers g
  /\ rollovers (drain_check g) = rollovers g
  /\ bumper_mult (drain_check g) = bumper_mult g
  /\ bumper_mult_timer (drain_check g) = bumper_mult_timer g
  /\ score (drain_check g) = score g
  /\ (plunger_power (drain_check g) = plunger_power g
      \/ plunger_power (drain_check g) = 0).
Proof.
  unfold drain_check, reset_ball, save_high_score. crush_branches;
    auto.
Qed.

Lemma pause_key (g : Game.t) :
  handle_event g (KEYDOWN K_p)
  = if game_over g then g else set_paused g (negb (paused g)).
Proof.
  unfold handle_event; simpl. rewrite !andb_false_r.
  destruct (game_over g); reflexivity.
Qed.

Lemma handle_events_no_events (g : Game.t) (dt : R) (space_held : bool) :
  paused g = true \/ game_over g = true ->
  handle_events g dt [] space_held = g.
Proof.
  intros H. unfold handle_events; simpl.
  destruct H as [H | H]; rewrite H; simpl;
    rewrite ?andb_false_r; reflexivity.
Qed.

(** X15: the pause key toggles the pause flag and nothing else, so two
    presses restore the game exactly; once the game is over the key does
    nothing; and while paused a frame without events leaves the whole game
    unchanged, whatever the frame time and the space key. *)
Theorem pause_key_toggles (g : Game.t) :
  (game_over g = false ->
     paused (handle_event g (KEYDOWN K_p)) = negb (paused g)
     /\ handle_event (handle_event g (KEYDOWN K_p)) (KEYDOWN K_p) = g)
  /\ (game_over g = true -> handle_event g (KEYDOWN K_p) = g)
  /\ (paused g = true ->
      forall dt space_held, frame g dt [] space_held = g).
Proof.
  split; [ | split ].
  - intros Ho. rewrite !pause_key. rewrite Ho. simpl. rewrite Ho.
    split; [ reflexivity | ].
    destruct g; simpl. rewrite negb_involutive. reflexivity.
  - intros Ho. rewrite pause_key, Ho. reflexivity.
  - intros Hp dt space_held. unfold frame.
    rewrite handle_events_no_events by (left; exact Hp).
    unfold update. rewrite Hp. reflexivity.
Qed.

Lemma tilt_lock_do_nudge (g : Game.t) : tilt_lock g -> tilt_lock (do_nudge g).
Proof.
  unfold tilt_lock. intros H.
  destruct (tilt_active g) eqn:Ha.
  - destruct (do_nudge_tilt_unchanged g (or_intror Ha)) as (A & _ & B & C).
    rewrite A, B, C. intros _. apply H. reflexivity.
  - destruct (Rge_dec (tilt_meter g + 1) TILT_MAX) as [Hge | Hlt].
    + destruct (do_nudge_tilt_activates g Hge Ha) as (_ & _ & B & C).
      intros _. split; assumption.
    + assert (Hlt' : tilt_meter g + 1 < TILT_MAX) by lra.
      destruct (do_nudge_tilt_unchanged g (or_introl Hlt')) as (A & _).
      rewrite A, Ha. discriminate.
Qed.

Lemma tilt_lock_handle_event (g : Game.t) (e : Event) :
  tilt_lock g -> tilt_lock (handle_event g e).
Proof.
  intros Hinv. destruct e as [ | key | key | ]; try exact Hinv.
  - unfold handle_event. cbv zeta.
    set (g1 := if is_K_ESCAPE key then set_running g false else g).
    assert (H1 : tilt_lock g1)
      by (subst g1; destruct (is_K_ESCAPE key); exact Hinv).
    clearbody g1.
    set (g2 := if negb (tilt_active g1) && is_left_key key
               then set_left_flipper g1
                      (Flipper.set_key_pressed (left_flipper g1) true)
               else g1).
    assert (H2 : tilt_lock g2).
    { subst g2. destruct (tilt_active g1) eqn:Ha; simpl;
        [ exact H1 | ].
      destruct (is_left_key key); [ | exact H1 ].
      unfold tilt_lock; simpl. rewrite Ha. discriminate. }
    clearbody g2.
    set (g3 := if negb (tilt_active g2) && is_right_key key
               then set_right_flipper g2
                      (Flipper.set_key_pressed (right_flipper g2) true)
               else g2).
    assert (H3 : tilt_lock g3).
    { subst g3. destruct (tilt_active g2) eqn:Ha; simpl;
        [ exact H2 | ].
      destruct (is_right_key key); [ | exact H2 ].
      unfold tilt_lock; simpl. rewrite Ha. discriminate. }
    clearbody g3.
    set (g4 := if is_K_p key
               then if negb (game_over g3)
                    then set_paused g3 (negb (paused g3)) else g3
               else g3).
    assert (H4 : tilt_lock g4)
      by (subst g4; destruct (is_K_p key); [ destruct (negb _) | ];
          exact H3).
    clearbody g4.
    set (g5 := if is_K_r key
               then if game_over g4 then restart g4 else g4
               else g4).
    assert (H5 : tilt_lock g5).
    { subst g5. destruct (is_K_r key); [ destruct (game_over g4) | ];
        try exact H4. unfold tilt_lock; simpl. discriminate. }
    clearbody g5.
    destruct (_ && _); [ | exact H5 ].
    apply tilt_lock_do_nudge, H5.
  - unfold handle_event, tilt_lock in *. cbv zeta.
    destruct (is_left_key key); destruct (is_right_key key); simpl;
      intros Ha; destruct (Hinv Ha); split; auto.
Qed.

Lemma tilt_lock_update (g : Game.t) (dt : R) :
  tilt_lock g -> tilt_lock (update g dt).
Proof.
  intros Hinv. unfold update.
  destruct (paused g || game_over g); [ exact Hinv | ].
  destruct (update_motion_controls g dt) as (M1 & M2 & M3 & _).
  destruct (update_timers_controls (update_motion g dt) dt)
    as (T1 & T2 & _ & _ & _ & _ & _ & T3).
  destruct (drain_check_controls (update_timers (update_motion g dt) dt))
    as (D1 & D2 & D3 & _).
  unfold tilt_lock in *. rewrite D1, D2, D3, T1, T2, M1, M2.
  intros Ha. apply Hinv. rewrite <- M3. apply T3, Ha.
Qed.

Lemma tilt_lock_handle_events (g : Game.t) dt events space_held :
  tilt_lock g -> tilt_lock (handle_events g dt events space_held).
Proof.
  intros Hinv. unfold handle_events. cbv zeta.
  assert (H : tilt_lock (fold_left handle_event events g)).
  { revert g Hinv. induction events as [ | e l IH ]; intros g Hinv; simpl.
    - exact Hinv.
    - apply IH, tilt_lock_handle_event, Hinv. }
  set (g1 := fold_left handle_event events g) in *. clearbody g1.
  destruct (_ && _); [ | exact H ].
  destruct space_held; [ exact H | ].
  destruct (Rgt_dec _ _); [ | exact H ].
  unfold launch_ball. destruct (Ball.in_play (ball g1)); [ exact H | ].
  destruct (uniform _ _ _). exact H.
Qed.

(** X16: a tilted table never has an activated flipper: if both flipper
    intents are clear whenever tilt is active, the same holds after any
    frame, whatever keys are pressed and released in it. *)
Theorem tilt_keeps_flippers_off (g : Game.t) dt events space_held :
  tilt_lock g -> tilt_lock (frame g dt events space_held).
Proof.
  intros H. unfold frame.
  apply tilt_lock_update, tilt_lock_handle_events, H.
Qed.

Lemma update_timers_tilt_meter (g : Game.t) (dt : R) :
  tilt_meter (update_timers g dt)
  = if tilt_active g then tilt_meter g
    else Rmax 0 (tilt_meter g - TILT_DECAY * dt).
Proof. unfold update_timers. crush_branches. Qed.

(** X17: an update never raises the tilt meter and never makes it
    negative ([dt >= 0]): in a running game it decays by [TILT_DECAY * dt]
    down to 0 while the table is not tilted and stands still while it is;
    in a paused or finished game it is not touched. *)
Theorem tilt_meter_only_decays (g : Game.t) (dt : R) :
  0 <= dt ->
  0 <= tilt_meter g ->
  0 <= tilt_meter (update g dt) <= tilt_meter g
  /\ (paused g = false -> game_over g = false -> tilt_active g = false ->
      tilt_meter (update g dt) = Rmax 0 (tilt_meter g - TILT_DECAY * dt))
  /\ (tilt_active g = true -> tilt_meter (update g dt) = tilt_meter g).
Proof.
  intros Hdt Hm.
  assert (Hrun : paused g = false -> game_over g = false ->
                 tilt_meter (update g dt)
                 = if tilt_active g then tilt_meter g
                   else Rmax 0 (tilt_meter g - TILT_DECAY * dt)).
  { intros Hp Ho. unfold update. rewrite Hp, Ho. simpl.
    destruct (update_motion_controls g dt) as (_ & _ & M3 & M4 & _).
    destruct (drain_check_controls (update_timers (update_motion g dt) dt))
      as (_ & _ & _ & D4 & _).
    rewrite D4, update_timers_tilt_meter, M3, M4. reflexivity. }
  assert (Hdec : 0 <= Rmax 0 (tilt_meter g - TILT_DECAY * dt) <= tilt_meter g).
  { unfold Rmax, TILT_DECAY. destruct (Rle_dec _ _); nra. }
  split; [ | split ].
  - unfold update in *. destruct (paused g); simpl in *; [ lra | ].
    destruct (game_over g); [ lra | ].
    rewrite (Hrun eq_refl eq_refl). destruct (tilt_active g); lra.
  - intros Hp Ho Ha. rewrite (Hrun Hp Ho), Ha. reflexivity.
  - intros Ha. unfold update in *. destruct (paused g); simpl in *;
      [ reflexivity | ].
    destruct (game_over g); [ reflexivity | ].
    rewrite (Hrun eq_refl eq_refl), Ha. reflexivity.
Qed.

Lemma clamp_cases_range (x : R) : 0 <= clamp x 0 PLUNGER_MAX <= PLUNGER_MAX.
Proof.
  assert (H : 0 <= PLUNGER_MAX) by (unfold PLUNGER_MAX; lra).
  destruct (clamp_cases x 0 PLUNGER_MAX H)
    as [(A & ->) | [(A & ->) | (A & ->)]]; lra.
Qed.

(** *** Invariants of the event handler *)

(** A property kept by each elementary effect of a key event is kept by
    [handle_event]. *)
Lemma handle_event_inv (P : Game.t -> Prop) :
  (forall g, P g -> P (set_running g false)) ->
  (forall g, tilt_active g = false -> P g ->
     P (set_left_flipper g (Flipper.set_key_pressed (left_flipper g) true))) ->
  (forall g, tilt_active g = false -> P g ->
     P (set_right_flipper g
          (Flipper.set_key_pressed (right_flipper g) true))) ->
  (forall g, P g ->
     P (set_left_flipper g (Flipper.set_key_pressed (left_flipper g) false))) ->
  (forall g, P g ->
     P (set_right_flipper g
          (Flipper.set_key_pressed (right_flipper g) false))) ->
  (forall g, game_over g = false -> P g -> P (set_paused g (negb (paused g)))) ->
  (forall g, game_over g = true -> P g -> P (restart g)) ->
  (forall g, Ball.in_play (ball g) = true -> paused g = false ->
     game_over g = false -> P g -> P (do_nudge g)) ->
  forall g e, P g -> P (handle_event g e).
Proof.
  intros Hrun Hl Hr Hlu Hru Hp Hres Hn g e Hinv.
  destruct e as [ | key | key | ].
  - apply Hrun, Hinv.
  - unfold handle_event. cbv zeta.
    set (g1 := if is_K_ESCAPE key then set_running g false else g).
    assert (H1 : P g1)
      by (subst g1; destruct (is_K_ESCAPE key); auto).
    clearbody g1.
    set (g2 := if negb (tilt_active g1) && is_left_key key
               then set_left_flipper g1
                      (Flipper.set_key_pressed (left_flipper g1) true)
               else g1).
    assert (H2 : P g2).
    { subst g2. destruct (tilt_active g1) eqn:Ha; simpl; [ exact H1 | ].
      destruct (is_left_key key); auto. }
    clearbody g2.
    set (g3 := if negb (tilt_active g2) && is_right_key key
               then set_right_flipper g2
                      (Flipper.set_key_pressed (right_flipper g2) true)
               else g2).
    assert (H3 : P g3).
    { subst g3. destruct (tilt_active g2) eqn:Ha; simpl; [ exact H2 | ].
      destruct (is_right_key key); auto. }
    clearbody g3.
    set (g4 := if is_K_p key
               then if negb (game_over g3)
                    then set_paused g3 (negb (paused g3)) else g3
               else g3).
    assert (H4 : P g4).
    { subst g4. destruct (is_K_p key); [ | exact H3 ].
      destruct (game_over g3) eqn:Ho; simpl; auto. }
    clearbody g4.
    set (g5 := if is_K_r key
               then if game_over g4 then restart g4 else g4
               else g4).
    assert (H5 : P g5).
    { subst g5. destruct (is_K_r key); [ | exact H4 ].
      destruct (game_over g4) eqn:Ho; auto. }
    clearbody g5.
    destruct (is_K_n key); simpl; [ | exact H5 ].
    destruct (Ball.in_play (ball g5)) eqn:Hip; simpl; [ | exact H5 ].
    destruct (paused g5) eqn:Hpa; simpl; [ exact H5 | ].
    destruct (game_over g5) eqn:Hgo; simpl; [ exact H5 | ].
    apply Hn; assumption.
  - unfold handle_event. cbv zeta.
    set (g1 := if is_left_key key
               then set_left_flipper g
                      (Flipper.set_key_pressed (left_flipper g) false)
               else g).
    assert (H1 : P g1) by (subst g1; destruct (is_left_key key); auto).
    clearbody g1.
    destruct (is_right_key key); auto.
  - exact Hinv.
Qed.

(** The same for a whole call of [handle_events], with the two effects of
    the plunger. *)
Lemma handle_events_inv (P : Game.t -> Prop) :
  (forall g e, P g -> P (handle_event g e)) ->
  (forall g v, Ball.in_play (ball g) = false -> game_over g = false ->
     paused g = false -> 0 <= v <= PLUNGER_MAX ->
     P g -> P (set_plunger_power g v)) ->
  (forall g, Ball.in_play (ball g) = false -> game_over g = false ->
     paused g = false -> 0 < plunger_power g ->
     P g -> P (launch_ball g)) ->
  forall g dt events space_held,
    P g -> P (handle_events g dt events space_held).
Proof.
  intros He Hc Hl g dt events space_held Hinv.
  unfold handle_events. cbv zeta.
  assert (H : P (fold_left handle_event events g)).
  { revert g Hinv. induction events as [ | e l IH ]; intros g Hinv; simpl.
    - exact Hinv.
    - apply IH, He, Hinv. }
  set (g1 := fold_left handle_event events g) in *. clearbody g1.
  destruct (Ball.in_play (ball g1)) eqn:Hip; simpl; [ exact H | ].
  destruct (game_over g1) eqn:Hgo; simpl; [ exact H | ].
  destruct (paused g1) eqn:Hpa; simpl; [ exact H | ].
  destruct space_held.
  - apply Hc; try assumption.
    apply clamp_cases_range.
  - destruct (Rgt_dec (plunger_power g1) 0) as [Hgt | _]; [ | exact H ].
    apply Hl; assumption.
Qed.

(** *** The plunger *)

Lemma plunger_ok_zero : 0 <= 0 <= PLUNGER_MAX.
Proof. unfold PLUNGER_MAX. lra. Qed.

Lemma plunger_ok_handle_event (g : Game.t) (e : Event) :
  plunger_ok g -> plunger_ok (handle_event g e).
Proof.
  apply (handle_event_inv plunger_ok); unfold plunger_ok; simpl; auto.
  - intros g0 _ _. apply plunger_ok_zero.
  - intros g0 _ _ _ H. unfold do_nudge.
    destruct (choice_sign (rng g0)). cbv zeta.
    destruct (_ && _); simpl; exact H.
Qed.

Lemma plunger_ok_update (g : Game.t) (dt : R) :
  plunger_ok g -> plunger_ok (update g dt).
Proof.
  unfold plunger_ok, update. intros H.
  destruct (paused g || game_over g); [ exact H | ].
  destruct (update_motion_controls g dt) as (_ & _ & _ & _ & _ & M & _).
  destruct (update_timers_controls (update_motion g dt) dt)
    as (_ & _ & T & _).
  destruct (drain_check_controls (update_timers (update_motion g dt) dt))
    as (_ & _ & _ & _ & _ & _ & _ & _ & _ & _ & _ & _ & [D | D]);
    rewrite D.
  - rewrite T, M. exact H.
  - apply plunger_ok_zero.
Qed.

Lemma plunger_ok_handle_events (g : Game.t) dt events space_held :
  plunger_ok g -> plunger_ok (handle_events g dt events space_held).
Proof.
  intros H.
  apply (handle_events_inv plunger_ok); try exact H.
  - intros g0 e. apply plunger_ok_handle_event.
  - intros g0 v _ _ _ Hv _. exact Hv.
  - intros g0 Hip _ _ _ _. unfold plunger_ok, launch_ball. rewrite Hip.
    destruct (uniform _ _ _). simpl. apply plunger_ok_zero.
Qed.

(** X18: the plunger charge never leaves [[0, PLUNGER_MAX]]: if it is in
    that range before a frame it is in it afterwards, however long the
    space key is held and whatever else happens in the frame. *)
Theorem plunger_stays_in_range (g : Game.t) dt events space_held :
  plunger_ok g -> plunger_ok (frame g dt events space_held).
Proof.
  intros H. unfold frame.
  apply plunger_ok_update, plunger_ok_handle_events, H.
Qed.

Lemma unit_direction (a : R) : Vec2.length (Vec2.mk (cos a) (- sin a)) = 1.
Proof.
  unfold Vec2.length, Vec2.length_squared; simpl.
  replace (cos a * cos a + - sin a * - sin a)
    with (Rsqr (sin a) + Rsqr (cos a)) by (unfold Rsqr; ring).
  rewrite sin2_cos2. apply sqrt_1.
Qed.

(** X19: launching an idle ball gives it a speed of exactly the plunger
    charge plus 400, puts it in play where it stands, empties the plunger
    and opens the ball-save window of [BALL_SAVE_TIME]; when the drawn angle
    lies between 100 and 120 degrees the ball leaves up and to the left. *)
Theorem launch_speed_is_charge (g : Game.t) :
  Ball.in_play (ball g) = false ->
  0 <= plunger_power g + 400 ->
  let angle := fst (uniform (radians 100) (radians 120) (rng g)) in
  let g' := launch_ball g in
  Vec2.length (Ball.vel (ball g')) = plunger_power g + 400
  /\ Ball.in_play (ball g') = true
  /\ Ball.pos (ball g') = Ball.pos (ball g)
  /\ plunger_power g' = 0
  /\ ball_save_active g' = true
  /\ ball_save_timer g' = BALL_SAVE_TIME
  /\ (radians 100 <= angle <= radians 120 -> 0 < plunger_power g + 400 ->
      Vec2.x (Ball.vel (ball g')) < 0 /\ Vec2.y (Ball.vel (ball g')) < 0).
Proof.
  intros Hip Hs angle g'. unfold g', launch_ball, angle. rewrite Hip.
  destruct (uniform (radians 100) (radians 120) (rng g)) as [a r]. simpl.
  repeat split.
  - replace (Vec2.mk (cos a * (plunger_power g + 400))
                     (- sin a * (plunger_power g + 400)))
      with (Vec2.scale (plunger_power g + 400) (Vec2.mk (cos a) (- sin a)))
      by (apply vec2_eq; simpl; ring).
    rewrite length_scale, unit_direction, Rabs_pos_eq by lra. ring.
  - destruct H as (Hlo & Hhi). unfold radians in *. pose proof PI_RGT_0.
    assert (Hc : cos a < 0) by (apply cos_lt_0; lra).
    nra.
  - destruct H as (Hlo & Hhi). unfold radians in *. pose proof PI_RGT_0.
    assert (Hsn : 0 < sin a) by (apply sin_gt_0; lra).
    nra.
Qed.

(** *** The bumper multiplier *)

Lemma mult_frame_walls (g : Game.t) w :
  bumper_mult (wall_collide g w) = bumper_mult g
  /\ bumper_mult_timer (wall_collide g w) = bumper_mult_timer g
  /\ rollovers (wall_collide g w) = rollovers g.
Proof. unfold wall_collide, spawn_particles, add_score. crush_branches. Qed.

Lemma mult_frame_bumpers (g : Game.t) b :
  bumper_mult (bumper_collide g b) = bumper_mult g
  /\ bumper_mult_timer (bumper_collide g b) = bumper_mult_timer g
  /\ rollovers (bumper_collide g b) = rollovers g.
Proof. unfold bumper_collide, spawn_particles, add_score. crush_branches. Qed.

Lemma mult_frame_flipper (g : Game.t) f :
  bumper_mult (handle_flipper_collision g f) = bumper_mult g
  /\ bumper_mult_timer (handle_flipper_collision g f) = bumper_mult_timer g
  /\ rollovers (handle_flipper_collision g f) = rollovers g.
Proof.
  unfold handle_flipper_collision, spawn_particles, add_score.
  crush_branches.
Qed.

Lemma mult_frame_fold {B : Type} (f : Game.t -> B -> Game.t) :
  (forall g b, bumper_mult (f g b) = bumper_mult g
               /\ bumper_mult_timer (f g b) = bumper_mult_timer g
               /\ rollovers (f g b) = rollovers g) ->
  forall l g, bumper_mult (fold_left f l g) = bumper_mult g
              /\ bumper_mult_timer (fold_left f l g) = bumper_mult_timer g
              /\ rollovers (fold_left f l g) = rollovers g.
Proof.
  intros Hstep l. induction l as [ | b l IH ]; intros g; simpl.
  - repeat split.
  - destruct (IH (f g b)) as (A & B' & C).
    destruct (Hstep g b) as (A' & B'' & C').
    repeat split; congruence.
Qed.

Lemma before_rollovers_mult (g : Game.t) (dt : R) :
  bumper_mult (before_rollovers g dt) = bumper_mult g
  /\ bumper_mult_timer (before_rollovers g dt) = bumper_mult_timer g
  /\ rollovers (before_rollovers g dt) = rollovers g.
Proof.
  unfold before_rollovers, handle_bumper_collisions, handle_wall_collisions.
  cbv zeta.
  match goal with
  | |- context [ fold_left bumper_collide ?l ?x ] =>
    destruct (mult_frame_fold bumper_collide mult_frame_bumpers l x)
      as (A & B & C)
  end.
  rewrite A, B, C. simpl.
  match goal with
  | |- context [ fold_left wall_collide ?l ?x ] =>
    destruct (mult_frame_fold wall_collide mult_frame_walls l x)
      as (A' & B' & C')
  end.
  rewrite A', B', C'. repeat split.
Qed.

Lemma update_motion_after_rollovers (g : Game.t) (dt : R) :
  let g2 := handle_rollovers (before_rollovers g dt) in
  bumper_mult (update_motion g dt) = bumper_mult g2
  /\ bumper_mult_timer (update_motion g dt) = bumper_mult_timer g2
  /\ rollovers (update_motion g dt) = rollovers g2.
Proof.
  intros g2.
  assert (Hm : update_motion g dt
               = particles_update
                   (handle_flipper_collision
                      (handle_flipper_collision g2 (left_flipper g2))
                      (right_flipper
                         (handle_flipper_collision g2 (left_flipper g2))))
                   dt) by reflexivity.
  rewrite Hm.
  set (g3 := handle_flipper_collision g2 (left_flipper g2)).
  destruct (mult_frame_flipper g3 (right_flipper g3)) as (A & B & C).
  destruct (mult_frame_flipper g2 (left_flipper g2)) as (A' & B' & C').
  fold g3 in A', B', C'.
  set (g4 := handle_flipper_collision g3 (right_flipper g3)) in *.
  change (bumper_mult (particles_update g4 dt)) with (bumper_mult g4).
  change (bumper_mult_timer (particles_update g4 dt))
    with (bumper_mult_timer g4).
  change (rollovers (particles_update g4 dt)) with (rollovers g4).
  repeat split; congruence.
Qed.

Lemma mult_ok_update_timers (g : Game.t) (dt : R) :
  mult_ok g -> mult_ok (update_timers g dt).
Proof.
  unfold mult_ok. intros H.
  assert (Hm : bumper_mult (update_timers g dt)
               = (if Rgt_dec (bumper_mult_timer g) 0
                  then if Rle_dec (bumper_mult_timer g - dt) 0
                       then 1%Z else bumper_mult g
                  else bumper_mult g)
               /\ bumper_mult_timer (update_timers g dt)
                  = (if Rgt_dec (bumper_mult_timer g) 0
                     then bumper_mult_timer g - dt
                     else bumper_mult_timer g)).
  { unfold update_timers. crush_branches. }
  destruct Hm as (Hm & Ht). rewrite Hm, Ht.
  destruct (Rgt_dec (bumper_mult_timer g) 0) as [Hpos | Hnpos].
  - destruct (Rle_dec (bumper_mult_timer g - dt) 0) as [Hexp | Hrun].
    + left. reflexivity.
    + destruct H as [H | (H & _)]; [ left; exact H | right ].
      split; [ exact H | lra ].
  - destruct H as [H | (_ & H)]; [ left; exact H | lra ].
Qed.

Lemma mult_ok_update (g : Game.t) (dt : R) :
  mult_ok g -> mult_ok (update g dt).
Proof.
  intros H. unfold update.
  destruct (paused g || game_over g); [ exact H | ].
  set (g1 := update_timers (update_motion g dt) dt).
  destruct (drain_check_controls g1)
    as (_ & _ & _ & _ & _ & _ & _ & _ & _ & D1 & D2 & _).
  assert (H1 : mult_ok g1).
  { apply mult_ok_update_timers.
    destruct (update_motion_after_rollovers g dt) as (A & B & _).
    destruct (before_rollovers_mult g dt) as (A' & B' & _).
    destruct (handle_rollovers_spec (before_rollovers g dt))
      as (_ & _ & _ & Hm & Ht & _).
    unfold mult_ok. rewrite A, B, Hm, Ht, A', B'.
    destruct (_ && _); [ right; split; [ reflexivity | lra ] | exact H ]. }
  unfold mult_ok in *. rewrite D1, D2. exact H1.
Qed.

Lemma mult_ok_handle_event (g : Game.t) (e : Event) :
  mult_ok g -> mult_ok (handle_event g e).
Proof.
  apply (handle_event_inv mult_ok); unfold mult_ok; simpl; auto.
  intros g0 _ _ _ H. unfold do_nudge.
  destruct (choice_sign (rng g0)). cbv zeta.
  destruct (_ && _); simpl; exact H.
Qed.

Lemma mult_ok_handle_events (g : Game.t) dt events space_held :
  mult_ok g -> mult_ok (handle_events g dt events space_held).
Proof.
  intros H.
  apply (handle_events_inv mult_ok); try exact H.
  - intros g0 e. apply mult_ok_handle_event.
  - intros g0 v _ _ _ _ H0. exact H0.
  - intros g0 Hip _ _ _ H0. unfold mult_ok, launch_ball in *. rewrite Hip.
    destruct (uniform _ _ _). simpl. exact H0.
Qed.

(** X20: the doubled bumper score is only ever in force while its timer
    runs: if the bumper multiplier is 1, or 2 with a positive timer, before
    a frame, the same holds after it. *)
Theorem multiplier_needs_running_timer (g : Game.t) dt events space_held :
  mult_ok g -> mult_ok (frame g dt events space_held).
Proof.
  intros H. unfold frame.
  apply mult_ok_update, mult_ok_handle_events, H.
Qed.

(** *** The score *)

Lemma wall_collide_score (g : Game.t) (w : Wall.t) :
  (0 <= Wall.score w)%Z -> (score g <= score (wall_collide g w))%Z.
Proof.
  intros Hw. unfold wall_collide. cbv zeta.
  destruct (lh_hit _); [ | lia ].
  destruct (Ball.in_play _); [ | simpl; lia ].
  rewrite spawn_particles_score. simpl. lia.
Qed.

Lemma walls_score (ws : list Wall.t) (g : Game.t) :
  Forall (fun w => (0 <= Wall.score w)%Z) ws ->
  (score g <= score (fold_left wall_collide ws g))%Z.
Proof.
  intros H. revert g. induction H as [ | w ws Hw _ IH ]; intros g; simpl.
  - lia.
  - specialize (IH (wall_collide g w)).
    pose proof (wall_collide_score g w Hw). lia.
Qed.

Lemma bumper_collide_score (g : Game.t) (b : Bumper.t) :
  (0 <= Bumper.score b)%Z -> (0 <= bumper_mult g)%Z ->
  (score g <= score (bumper_collide g b))%Z.
Proof.
  intros Hb Hm. unfold bumper_collide. cbv zeta.
  destruct (ch_hit _); [ | lia ].
  destruct (Ball.in_play _); [ | simpl; lia ].
  rewrite spawn_particles_score. simpl. nia.
Qed.

Lemma bumpers_score (bs : list Bumper.t) (g : Game.t) :
  Forall (fun b => (0 <= Bumper.score b)%Z) bs ->
  (0 <= bumper_mult g)%Z ->
  (score g <= score (fold_left bumper_collide bs g))%Z.
Proof.
  intros H. revert g. induction H as [ | b bs Hb _ IH ]; intros g Hm; simpl.
  - lia.
  - destruct (mult_frame_bumpers g b) as (A & _).
    specialize (IH (bumper_collide g b)). rewrite A in IH.
    pose proof (bumper_collide_score g b Hb Hm). specialize (IH Hm). lia.
Qed.

Lemma newly_lit_score_nonneg (rs : list Rollover.t) (p : Vec2) (rad : R) :
  Forall (fun r => (0 <= Rollover.score r)%Z) rs ->
  (0 <= newly_lit_score rs p rad)%Z.
Proof.
  induction 1 as [ | r rs Hr _ IH ]; simpl.
  - lia.
  - destruct (snd (Rollover.check r p rad)); lia.
Qed.

Lemma handle_rollovers_score (g : Game.t) :
  Forall (fun r => (0 <= Rollover.score r)%Z) (rollovers g) ->
  (score g <= score (handle_rollovers g))%Z.
Proof.
  intros H. destruct (handle_rollovers_spec g) as (_ & Hs & _).
  rewrite Hs.
  pose proof (newly_lit_score_nonneg (rollovers g) (Ball.pos (ball g))
                (Ball.radius (ball g)) H).
  destruct (Ball.in_play (ball g)); simpl;
    destruct (forallb _ _); lia.
Qed.

Lemma handle_flipper_collision_score (g : Game.t) (f : Flipper.t) :
  (score g <= score (handle_flipper_collision g f))%Z.
Proof.
  unfold handle_flipper_collision. cbv zeta.
  destruct (Flipper.endpoints f) as [a b].
  destruct (lh_hit _); simpl; [ | lia ].
  destruct (Rgt_dec _ 0); simpl;
    (destruct (Ball.in_play _);
     [ rewrite spawn_particles_score; simpl; lia | simpl; lia ]).
Qed.

Lemma update_paused (g : Game.t) (dt : R) :
  paused g = true -> update g dt = g.
Proof. intros Hp. unfold update. now rewrite Hp. Qed.

Lemma update_score (g : Game.t) (dt : R) :
  paused g = false -> game_over g = false ->
  score (update g dt) = score (update_motion g dt).
Proof.
  intros Hp Ho. rewrite (update_running g dt Hp Ho).
  destruct (drain_check_controls (update_timers (update_motion g dt) dt))
    as (_ & _ & _ & _ & _ & _ & _ & _ & _ & _ & _ & D & _).
  rewrite D. apply update_timers_ball.
Qed.

Lemma update_motion_score (g : Game.t) (dt : R) :
  scores_nonneg g -> (0 <= bumper_mult g)%Z ->
  (score g <= score (update_motion g dt))%Z.
Proof.
  intros (Hw & Hb & Hr) Hm.
  set (g0 := set_ball
               (set_right_flipper
                  (set_left_flipper g (Flipper.update (left_flipper g) dt))
                  (Flipper.update (right_flipper g) dt))
               (Ball.apply_physics (ball g) dt)).
  set (g1 := handle_wall_collisions g0).
  assert (H1 : (score g <= score g1)%Z).
  { unfold g1, handle_wall_collisions. cbv zeta. simpl.
    apply (walls_score (walls g) g0 Hw). }
  assert (H2 : (score g1 <= score (before_rollovers g dt))%Z).
  { fold g0 in g1. change (before_rollovers g dt)
      with (handle_bumper_collisions g1).
    unfold handle_bumper_collisions.
    destruct (handle_wall_collisions_handlers g0) as (_ & _ & Bq & _).
    fold g1 in Bq. rewrite Bq.
    apply bumpers_score; [ exact Hb | ].
    unfold g1, handle_wall_collisions. cbv zeta. simpl.
    destruct (mult_frame_fold wall_collide mult_frame_walls (walls g) g0)
      as (A & _).
    rewrite A. exact Hm. }
  set (g2 := handle_rollovers (before_rollovers g dt)).
  assert (H3 : (score (before_rollovers g dt) <= score g2)%Z).
  { apply handle_rollovers_score.
    destruct (before_rollovers_mult g dt) as (_ & _ & C). rewrite C.
    exact Hr. }
  assert (Hm' : update_motion g dt
               = particles_update
                   (handle_flipper_collision
                      (handle_flipper_collision g2 (left_flipper g2))
                      (right_flipper
                         (handle_flipper_collision g2 (left_flipper g2))))
                   dt) by reflexivity.
  rewrite Hm'.
  set (g3 := handle_flipper_collision g2 (left_flipper g2)).
  pose proof (handle_flipper_collision_score g2 (left_flipper g2)) as H4.
  fold g3 in H4.
  pose proof (handle_flipper_collision_score g3 (right_flipper g3)) as H5.
  change (score (particles_update
                   (handle_flipper_collision g3 (right_flipper g3)) dt))
    with (score (handle_flipper_collision g3 (right_flipper g3))).
  lia.
Qed.

Lemma update_score_le (g : Game.t) (dt : R) :
  scores_nonneg g -> (0 <= bumper_mult g)%Z ->
  (score g <= score (update g dt))%Z.
Proof.
  intros Hs Hm.
  destruct (paused g) eqn:Hp; [ rewrite update_paused by exact Hp; lia | ].
  destruct (game_over g) eqn:Ho;
    [ rewrite update_game_over by exact Ho; lia | ].
  rewrite (update_score g dt Hp Ho).
  apply update_motion_score; assumption.
Qed.

(** X21: an update never lowers the score: on a table whose walls, bumpers
    and rollovers carry no negative score, and with a non-negative bumper
    multiplier, the score after [update] is at least the score before. *)
Theorem score_never_drops (g : Game.t) (dt : R) :
  scores_nonneg g -> (0 <= bumper_mult g)%Z ->
  (score g <= score (update g dt))%Z.
Proof. apply update_score_le. Qed.

(** *** The high score *)

Lemma update_high_score (g : Game.t) (dt : R) :
  high_score (update g dt) = high_score g
  \/ (game_over g = false /\ game_over (update g dt) = true
      /\ high_score (update g dt)
         = Z.max (high_score g) (score (update g dt))).
Proof.
  destruct (paused g) eqn:Hp;
    [ left; rewrite update_paused by exact Hp; reflexivity | ].
  destruct (game_over g) eqn:Ho;
    [ left; rewrite update_game_over by exact Ho; reflexivity | ].
  rewrite (update_running g dt Hp Ho).
  set (g1 := update_timers (update_motion g dt) dt).
  assert (Hf : session_frame g g1).
  { eapply session_frame_trans;
      [ apply update_motion_session | apply update_timers_session ]. }
  destruct Hf as (Fb & Fh & Fo & _).
  destruct (drains g1) eqn:Hd.
  - destruct (ball_save_active g1) eqn:Hs.
    + destruct (drain_check_saved g1 Hd Hs) as (_ & _ & _ & _ & _ & H & _).
      left. congruence.
    + destruct (drain_check_lost g1 Hd Hs) as (_ & Hsc & Hover & Hnext).
      destruct (Z_le_gt_dec (balls_left g1 - 1) 0) as [Hle | Hgt].
      * destruct (Hover Hle) as (O1 & O2 & _).
        right. split; [ reflexivity | ]. split; [ exact O1 | ].
        rewrite O2, Hsc, Fh. reflexivity.
      * destruct Hnext as (_ & H & _); [ lia | ]. left. congruence.
  - left. unfold drain_check. rewrite Hd. exact Fh.
Qed.

Lemma update_ends_game (g : Game.t) (dt : R) :
  game_over g = false -> game_over (update g dt) = true ->
  high_score (update g dt) = Z.max (high_score g) (score (update g dt)).
Proof.
  intros Ho Ho'.
  destruct (paused g) eqn:Hp;
    [ rewrite update_paused in Ho' by exact Hp; congruence | ].
  rewrite (update_running g dt Hp Ho) in *.
  set (g1 := update_timers (update_motion g dt) dt) in *.
  assert (Hf : session_frame g g1).
  { eapply session_frame_trans;
      [ apply update_motion_session | apply update_timers_session ]. }
  destruct Hf as (Fb & Fh & Fo & _).
  destruct (drains g1) eqn:Hd.
  - destruct (ball_save_active g1) eqn:Hs.
    + destruct (drain_check_saved g1 Hd Hs)
        as (_ & _ & _ & _ & E & _). congruence.
    + destruct (drain_check_lost g1 Hd Hs) as (_ & Hsc & Hover & Hnext).
      destruct (Z_le_gt_dec (balls_left g1 - 1) 0) as [Hle | Hgt].
      * destruct (Hover Hle) as (_ & O2 & _). rewrite O2, Hsc, Fh.
        reflexivity.
      * destruct Hnext as (E & _); [ lia | ]. congruence.
  - unfold drain_check in Ho'. rewrite Hd in Ho'. congruence.
Qed.

(** X22: an update never lowers the high score; it changes it only in the
    update that ends the game, and then to the maximum of the old high
    score and the final score, so that it is at least that score. *)
Theorem high_score_never_drops (g : Game.t) (dt : R) :
  (high_score g <= high_score (update g dt))%Z
  /\ (high_score (update g dt) <> high_score g ->
      game_over g = false /\ game_over (update g dt) = true)
  /\ (game_over g = false -> game_over (update g dt) = true ->
      high_score (update g dt) = Z.max (high_score g) (score (update g dt))
      /\ (score (update g dt) <= high_score (update g dt))%Z).
Proof.
  assert (Hend := update_ends_game g dt).
  destruct (update_high_score g dt) as [H | (H1 & H2 & H3)].
  - split; [ lia | ]. split; [ intros Hn; contradiction | ].
    intros Ho Ho'. split; [ apply Hend; assumption | ].
    rewrite (Hend Ho Ho'). lia.
  - split; [ lia | ]. split; [ intros _; split; assumption | ].
    intros _ _. split; [ exact H3 | lia ].
Qed.

(** *** Game over *)

Lemma handle_event_game_over (g : Game.t) (e : Event) :
  game_over g = true ->
  e <> KEYDOWN K_r ->
  over_frame g (handle_event g e).
Proof.
  intros Ho He. unfold over_frame.
  destruct e as [ | key | key | ].
  - repeat split; (reflexivity || assumption).
  - destruct key; try (exfalso; apply He; reflexivity);
      unfold handle_event; cbv zeta; simpl;
      destruct (tilt_active g) eqn:Ha; simpl;
      repeat (progress (rewrite ?Ha, ?Ho, ?andb_false_r; simpl));
      repeat split; (reflexivity || assumption).
  - destruct key; unfold handle_event; cbv zeta; simpl;
      repeat split; (reflexivity || assumption).
  - repeat split; (reflexivity || assumption).
Qed.

Lemma over_frame_trans (g1 g2 g3 : Game.t) :
  over_frame g1 g2 -> over_frame g2 g3 -> over_frame g1 g3.
Proof.
  unfold over_frame. intros H1 H2.
  repeat (match goal with
          | H : _ /\ _ |- _ => destruct H
          end).
  repeat split; congruence.
Qed.

Lemma handle_events_game_over (g : Game.t) dt events space_held :
  game_over g = true ->
  ~ In (KEYDOWN K_r) events ->
  over_frame g (handle_events g dt events space_held).
Proof.
  intros Ho Hnr. unfold handle_events. cbv zeta.
  assert (H : over_frame g (fold_left handle_event events g)).
  { revert g Ho. induction events as [ | e l IH ]; intros g Ho; simpl.
    - unfold over_frame. repeat split. exact Ho.
    - assert (He : e <> KEYDOWN K_r)
        by (intros ->; apply Hnr; left; reflexivity).
      pose proof (handle_event_game_over g e Ho He) as H1.
      eapply over_frame_trans; [ exact H1 | ].
      apply IH.
      + intros Hin. apply Hnr. right. exact Hin.
      + apply H1. }
  set (g1 := fold_left handle_event events g) in *.
  assert (Ho1 : game_over g1 = true) by apply H.
  rewrite Ho1. simpl. rewrite andb_false_r. exact H.
Qed.

(** X23: a finished game stays finished until the restart key: in a frame
    whose events contain no key-down of R, a game that is over keeps its
    game-over flag, score, balls-remaining count, high score, ball, pause
    flag, plunger charge, tilt state, rollovers and stored high score. *)
Theorem game_over_until_restart (g : Game.t) dt events space_held :
  game_over g = true ->
  ~ In (KEYDOWN K_r) events ->
  over_frame g (frame g dt events space_held).
Proof.
  intros Ho Hnr. unfold frame.
  pose proof (handle_events_game_over g dt events space_held Ho Hnr) as H.
  rewrite update_game_over; [ exact H | apply H ].
Qed.

(** *** Flipper contact *)

(** X24: a flipper that is not turning ([ang_vel = 0]) answers a contact
    like a wall of restitution [RESTI_BALL_FLIPPER] without friction: the
    ball is pushed out, its velocity is reflected on the contact normal and
    nothing is added to it; one point is scored if the ball is in play.
    Without contact the game is left as it is. *)
Theorem resting_flipper_reflects (g : Game.t) (f : Flipper.t) :
  let h := circle_line_collision (Ball.pos (ball g)) (Ball.radius (ball g))
             (fst (Flipper.endpoints f)) (snd (Flipper.endpoints f)) in
  let g' := handle_flipper_collision g f in
  (lh_hit h = false -> g' = g)
  /\ (lh_hit h = true -> Flipper.ang_vel f = 0 ->
      Ball.pos (ball g') = Vec2.add (Ball.pos (ball g)) (lh_push h)
      /\ Ball.vel (ball g')
         = reflect (Ball.vel (ball g)) (lh_normal h) RESTI_BALL_FLIPPER
      /\ score g'
         = (if Ball.in_play (ball g) then score g + 1 else score g)%Z).
Proof.
  intros h g'. unfold g', handle_flipper_collision.
  unfold Flipper.endpoints in *. cbv zeta. simpl fst in h. simpl snd in h.
  fold h. split.
  - intros Hmiss. rewrite Hmiss. reflexivity.
  - intros Hhit Hw. rewrite Hhit, Hw. simpl.
    destruct (Rgt_dec _ 0) as [Hc | _].
    + exfalso. unfold Vec2.dot in Hc; simpl in Hc. lra.
    + destruct (Ball.in_play (ball g)) eqn:Hp; simpl.
      * unfold spawn_particles. destruct (particle_burst _ _ _ _).
        simpl. rewrite ?Hp. repeat split.
      * rewrite ?Hp. repeat split.
Qed.

(** *** The border clamp *)

Lemma boundary_clamp_result (b : Ball.t) :
  Ball.radius b <= 133 ->
  let b' := boundary_clamp b in
  74 <= Vec2.x (Ball.pos b') - Ball.radius b'
  /\ Vec2.x (Ball.pos b') + Ball.radius b' <= WIDTH - 160
  /\ 120 + 16 <= Vec2.y (Ball.pos b') - Ball.radius b'
  /\ (Vec2.x (Ball.pos b) - Ball.radius b < 74 ->
      0 <= Vec2.x (Ball.vel b'))
  /\ (Vec2.x (Ball.pos b) + Ball.radius b > WIDTH - 160 ->
      Vec2.x (Ball.vel b') <= 0)
  /\ (Vec2.y (Ball.pos b) - Ball.radius b < 120 + 16 ->
      0 <= Vec2.y (Ball.vel b')).
Proof.
  intros Hr. destruct b as [p v r m ip tr]. simpl in Hr.
  unfold boundary_clamp. cbv zeta. simpl. unfold WIDTH, RESTI_BALL_WALL.
  pose proof (Rabs_pos (Vec2.x v)) as Hax.
  pose proof (Rabs_pos (Vec2.y v)) as Hay.
  destruct (Rlt_dec (Vec2.x p - r) 74) as [H1 | H1]; simpl.
  - destruct (Rgt_dec (74 + r + r) (500 - 160)) as [H2 | H2]; simpl;
      [ lra | ].
    destruct (Rlt_dec (Vec2.y p - r) (120 + 16)) as [H3 | H3]; simpl;
      repeat split; intros; try lra; nra.
  - destruct (Rgt_dec (Vec2.x p + r) (500 - 160)) as [H2 | H2]; simpl.
    + destruct (Rlt_dec (Vec2.y p - r) (120 + 16)) as [H3 | H3]; simpl;
        repeat split; intros; try lra; nra.
    + destruct (Rlt_dec (Vec2.y p - r) (120 + 16)) as [H3 | H3]; simpl;
        repeat split; intros; try lra; nra.
Qed.

(** X25: after [handle_wall_collisions] a ball of radius at most 133 lies
    within the left, right and top borders (74, [WIDTH - 160], 136), in play
    or not; its radius is untouched, and applying the border clamp to the
    result again changes nothing. *)
Theorem wall_phase_keeps_ball_inside (g : Game.t) :
  Ball.radius (ball g) <= 133 ->
  let b' := ball (handle_wall_collisions g) in
  74 <= Vec2.x (Ball.pos b') - Ball.radius b'
  /\ Vec2.x (Ball.pos b') + Ball.radius b' <= WIDTH - 160
  /\ 120 + 16 <= Vec2.y (Ball.pos b') - Ball.radius b'
  /\ Ball.radius b' = Ball.radius (ball g)
  /\ boundary_clamp b' = b'.
Proof.
  intros Hr b'.
  destruct (handle_wall_collisions_handlers g)
    as (_ & _ & _ & _ & _ & _ & _ & _ & _ & _ & _ & Hrad & _).
  fold b' in Hrad.
  assert (Hb : b' = boundary_clamp
                      (ball (fold_left wall_collide (walls g) g)))
    by reflexivity.
  assert (Hr0 : Ball.radius (ball (fold_left wall_collide (walls g) g))
                <= 133).
  { destruct (boundary_clamp_shape
                (ball (fold_left wall_collide (walls g) g))) as (A & _).
    rewrite <- A, <- Hb, Hrad. exact Hr. }
  destruct (boundary_clamp_result _ Hr0) as (H1 & H2 & H3 & _).
  rewrite <- Hb in H1, H2, H3.
  repeat split; try assumption.
  apply boundary_clamp_inside; assumption.
Qed.

(** *** Particles *)

(** X26: after [particles_update] every particle left has a positive
    remaining life, no particle has been added, and each one left is the
    aged copy of an earlier particle whose life exceeded the frame time. *)
Theorem particles_update_keeps_living (g : Game.t) (dt : R) :
  Forall (fun p => 0 < Particle.life p) (particles (particles_update g dt))
  /\ (length (particles (particles_update g dt)) <= length (particles g))%nat
  /\ forall p', In p' (particles (particles_update g dt)) ->
       exists p, In p (particles g)
                 /\ p' = Particle.update p dt
                 /\ dt < Particle.life p.
Proof.
  unfold particles_update. simpl.
  split; [ | split ].
  - apply Forall_forall. intros p Hin. apply filter_In in Hin.
    destruct Hin as (_ & Hl).
    destruct (Rgt_dec (Particle.life p) 0); [ lra | discriminate ].
  - eapply Nat.le_trans; [ apply filter_length_le | ].
    rewrite length_map. lia.
  - intros p' Hin. apply filter_In in Hin. destruct Hin as (Hin & Hl).
    apply in_map_iff in Hin. destruct Hin as (p & <- & Hp).
    exists p. split; [ exact Hp | ]. split; [ reflexivity | ].
    destruct (Rgt_dec _ 0) as [Hpos | _]; [ | discriminate ].
    simpl in Hpos. lra.
Qed.

(** *** Nudging *)

(** X27: tilt takes three nudges: from a table that is not tilted and
    whose meter is below 1, the first and the second nudge leave tilt off
    and the third turns it on, starts the lockout timer and clears both
    flipper intents. *)
Theorem third_nudge_tilts (g : Game.t) :
  0 <= tilt_meter g < 1 ->
  tilt_active g = false ->
  let g1 := do_nudge g in
  let g2 := do_nudge g1 in
  let g3 := do_nudge g2 in
  tilt_active g1 = false
  /\ tilt_active g2 = false
  /\ tilt_active g3 = true
  /\ tilt_meter g3 = tilt_meter g + 3
  /\ tilt_timer g3 = TILT_LOCKOUT
  /\ Flipper.key_pressed (left_flipper g3) = false
  /\ Flipper.key_pressed (right_flipper g3) = false.
Proof.
  intros Hm Ha g1 g2 g3.
  destruct (do_nudge_impulse g) as (_ & _ & _ & M1). fold g1 in M1.
  destruct (do_nudge_impulse g1) as (_ & _ & _ & M2). fold g2 in M2.
  destruct (do_nudge_impulse g2) as (_ & _ & _ & M3). fold g3 in M3.
  assert (A1 : tilt_active g1 = false).
  { destruct (do_nudge_tilt_unchanged g) as (A & _);
      [ left; unfold TILT_MAX; lra | ]. fold g1 in A. congruence. }
  assert (A2 : tilt_active g2 = false).
  { destruct (do_nudge_tilt_unchanged g1) as (A & _);
      [ left; unfold TILT_MAX; lra | ]. fold g2 in A. congruence. }
  destruct (do_nudge_tilt_activates g2) as (B1 & B2 & B3 & B4);
    [ unfold TILT_MAX; lra | exact A2 | ].
  fold g3 in B1, B2, B3, B4.
  repeat split; try assumption. lra.
Qed.

(** *** Whole sessions *)

Lemma set_lit_scores (rs : list Rollover.t) (l : bool) :
  Forall (fun r => (0 <= Rollover.score r)%Z) rs ->
  Forall (fun r => (0 <= Rollover.score r)%Z)
         (map (fun r => Rollover.set_lit r l) rs).
Proof.
  intros H. induction H as [ | r rs Hr _ IH ]; simpl; constructor; assumption.
Qed.

Lemma checked_scores (rs : list Rollover.t) (p : Vec2) (rad : R) :
  Forall (fun r => (0 <= Rollover.score r)%Z) rs ->
  Forall (fun r => (0 <= Rollover.score r)%Z) (checked_rollovers rs p rad).
Proof.
  intros H. unfold checked_rollovers.
  induction H as [ | r rs Hr _ IH ]; simpl; constructor; [ | assumption ].
  unfold Rollover.check. destruct (Rollover.lit r); [ exact Hr | ].
  destruct (Rlt_dec _ _); exact Hr.
Qed.

Lemma scores_nonneg_handle_event (g : Game.t) (e : Event) :
  scores_nonneg g -> scores_nonneg (handle_event g e).
Proof.
  apply (handle_event_inv scores_nonneg); unfold scores_nonneg; simpl; auto.
  - intros g0 _ (Hw & Hb & Hr). repeat split; try assumption.
    apply set_lit_scores, Hr.
  - intros g0 _ _ _ H. unfold do_nudge.
    destruct (choice_sign (rng g0)). cbv zeta.
    destruct (_ && _); simpl; exact H.
Qed.

Lemma scores_nonneg_handle_events (g : Game.t) dt events space_held :
  scores_nonneg g -> scores_nonneg (handle_events g dt events space_held).
Proof.
  intros H.
  apply (handle_events_inv scores_nonneg); try exact H.
  - intros g0 e. apply scores_nonneg_handle_event.
  - intros g0 v _ _ _ _ H0. exact H0.
  - intros g0 Hip _ _ _ H0. unfold scores_nonneg, launch_ball in *.
    rewrite Hip. destruct (uniform _ _ _). simpl. exact H0.
Qed.

Lemma scores_nonneg_update (g : Game.t) (dt : R) :
  scores_nonneg g -> scores_nonneg (update g dt).
Proof.
  intros H. unfold update.
  destruct (paused g || game_over g); [ exact H | ].
  destruct H as (Hw & Hb & Hr).
  set (g1 := update_timers (update_motion g dt) dt).
  destruct (drain_check_controls g1)
    as (_ & _ & _ & _ & _ & _ & D1 & D2 & D3 & _).
  destruct (update_timers_controls (update_motion g dt) dt)
    as (_ & _ & _ & _ & T1 & T2 & T3 & _).
  fold g1 in T1, T2, T3.
  destruct (update_motion_controls g dt)
    as (_ & _ & _ & _ & _ & _ & _ & M1 & M2).
  destruct (update_motion_after_rollovers g dt) as (_ & _ & M3).
  destruct (handle_rollovers_spec (before_rollovers g dt))
    as (_ & _ & S & _).
  destruct (before_rollovers_mult g dt) as (_ & _ & B).
  unfold scores_nonneg.
  rewrite D1, D2, D3, T1, T2, T3, M1, M2, M3, S, B.
  split; [ exact Hw | ]. split; [ exact Hb | ].
  match goal with
  | |- context [ if ?c then _ else _ ] => destruct c
  end.
  - apply set_lit_scores, checked_scores, Hr.
  - apply checked_scores, Hr.
Qed.

Lemma score_nonneg_handle_events (g : Game.t) dt events space_held :
  (0 <= score g)%Z -> (0 <= score (handle_events g dt events space_held))%Z.
Proof.
  intros H.
  apply (handle_events_inv (fun g => (0 <= score g)%Z)); try exact H.
  - intros g0 e.
    apply (handle_event_inv (fun g => (0 <= score g)%Z)); simpl; auto.
    + intros; lia.
    + intros g1 _ _ _ H1. unfold do_nudge.
      destruct (choice_sign (rng g1)). cbv zeta.
      destruct (_ && _); simpl; exact H1.
  - intros g0 v _ _ _ _ H0. exact H0.
  - intros g0 Hip _ _ _ H0. unfold launch_ball.
    rewrite Hip. destruct (uniform _ _ _). simpl. exact H0.
Qed.

Lemma record_ok_handle_events (g : Game.t) dt events space_held :
  record_ok g -> record_ok (handle_events g dt events space_held).
Proof.
  intros H.
  apply (handle_events_inv record_ok); try exact H.
  - intros g0 e.
    apply (handle_event_inv record_ok); unfold record_ok; simpl; auto.
    + intros; discriminate.
    + intros g1 _ _ _ H1. unfold do_nudge.
      destruct (choice_sign (rng g1)). cbv zeta.
      destruct (_ && _); simpl; exact H1.
  - intros g0 v _ _ _ _ H0. exact H0.
  - intros g0 Hip _ _ _ H0. unfold record_ok, launch_ball in *.
    rewrite Hip. destruct (uniform _ _ _). simpl. exact H0.
Qed.

Lemma record_ok_update (g : Game.t) (dt : R) :
  record_ok g -> record_ok (update g dt).
Proof.
  unfold record_ok. intros H Ho'.
  destruct (game_over g) eqn:Ho.
  - rewrite update_game_over by exact Ho. apply H. reflexivity.
  - rewrite (update_ends_game g dt Ho Ho'). lia.
Qed.

Lemma session_ok_frame (g : Game.t) dt events space_held :
  session_ok g -> session_ok (frame g dt events space_held).
Proof.
  intros (H1 & H2 & H3 & H4 & H5 & H6 & H7).
  assert (E4 := mult_ok_handle_events g dt events space_held H4).
  assert (E5 := scores_nonneg_handle_events g dt events space_held H5).
  assert (E6 := score_nonneg_handle_events g dt events space_held H6).
  split; [ apply balls_invariant_frame, H1 | ].
  split; [ apply tilt_lock_update, tilt_lock_handle_events, H2 | ].
  split; [ apply plunger_ok_update, plunger_ok_handle_events, H3 | ].
  split; [ apply mult_ok_update, E4 | ].
  split; [ apply scores_nonneg_update, E5 | ].
  split.
  - unfold frame. eapply Z.le_trans; [ exact E6 | ].
    apply update_score_le; [ exact E5 | ].
    destruct E4 as [-> | (-> & _)]; lia.
  - apply record_ok_update, record_ok_handle_events, H7.
Qed.

Lemma init_scores (r : Rng) (d : Disk) : scores_nonneg (Game.init r d).
Proof.
  unfold scores_nonneg. simpl.
  repeat split; repeat (apply Forall_cons || apply Forall_nil); simpl; lia.
Qed.

Lemma session_ok_init (r : Rng) (d : Disk) : session_ok (Game.init r d).
Proof.
  split; [ apply balls_invariant_init | ].
  split; [ intros H; discriminate H | ].
  split; [ apply plunger_ok_zero | ].
  split; [ left; reflexivity | ].
  split; [ apply init_scores | ].
  split; [ simpl; lia | intros H; discriminate H ].
Qed.

Lemma session_ok_reset_ball (g : Game.t) :
  session_ok g -> session_ok (reset_ball g).
Proof.
  intros (H1 & H2 & H3 & H4 & H5 & H6 & H7).
  split; [ exact H1 | ]. split; [ exact H2 | ].
  split; [ apply plunger_ok_zero | ]. split; [ exact H4 | ].
  split; [ exact H5 | ]. split; [ exact H6 | exact H7 ].
Qed.

(** A property kept by every frame is kept by the loop of [run]. *)
Lemma run_loop_inv (P : Game.t -> Prop) :
  (forall g dt events space_held, P g -> P (frame g dt events space_held)) ->
  forall inputs g, P g -> P (run_loop g inputs).
Proof.
  intros Hf inputs.
  induction inputs as [ | [[dt events] space_held] rest IH ]; intros g H;
    simpl; [ exact H | ].
  destruct (running g); [ | exact H ].
  apply IH, Hf, H.
Qed.

Lemma high_score_frame (g : Game.t) dt events space_held (h : Z) :
  (h <= high_score g)%Z ->
  (h <= high_score (frame g dt events space_held))%Z.
Proof.
  intros H. unfold frame.
  assert (E : (h <= high_score (handle_events g dt events space_held))%Z).
  { apply (handle_events_inv (fun g => (h <= high_score g)%Z)); try exact H.
    - intros g0 e.
      apply (handle_event_inv (fun g => (h <= high_score g)%Z));
        simpl; auto.
      intros g1 _ _ _ H1. unfold do_nudge.
      destruct (choice_sign (rng g1)). cbv zeta.
      destruct (_ && _); simpl; exact H1.
    - intros g0 v _ _ _ _ H0. exact H0.
    - intros g0 Hip _ _ _ H0. unfold launch_ball.
      rewrite Hip. destruct (uniform _ _ _). simpl. exact H0. }
  destruct (update_high_score (handle_events g dt events space_held) dt)
    as [Hh | (_ & _ & Hh)]; rewrite Hh; lia.
Qed.

(** X28: a session started from a fresh [Game] keeps the rules whatever the
    frame times, events and key states it is fed: while the game is not over
    at least one ball is left; a tilted table has both flipper intents
    cleared; the plunger charge lies in [0, PLUNGER_MAX]; the bumper
    multiplier is 1, or 2 with its timer running; the score is never
    negative; a finished game has a high score of at least its score; and
    the high score is never below the one read from the file at start. *)
Theorem run_keeps_the_rules (r : Rng) (d : Disk)
    (inputs : list (R * list Event * bool)) :
  session_ok (run (Game.init r d) inputs)
  /\ (load_high_score d <= high_score (run (Game.init r d) inputs))%Z.
Proof.
  unfold run. split.
  - apply (run_loop_inv session_ok).
    + intros g dt events space_held. apply session_ok_frame.
    + apply session_ok_reset_ball, session_ok_init.
  - apply (run_loop_inv (fun g => (load_high_score d <= high_score g)%Z)).
    + intros g dt events space_held. apply high_score_frame.
    + simpl. lia.
Qed.

(** *** The high-score file *)


(** *** Leaving the loop *)

Lemma handle_event_quits (g : Game.t) (e : Event) :
  quits e = true -> running (handle_event g e) = false.
Proof.
  destruct e as [ | key | key | ]; simpl; try discriminate.
  - reflexivity.
  - destruct key; try discriminate. intros _.
    unfold handle_event. cbv zeta. simpl.
    rewrite !andb_false_r. reflexivity.
Qed.

Lemma handle_event_stopped (g : Game.t) (e : Event) :
  running g = false -> running (handle_event g e) = false.
Proof.
  apply (handle_event_inv (fun g => running g = false)); simpl; auto.
  intros g0 _ _ _ H. unfold do_nudge.
  destruct (choice_sign (rng g0)). cbv zeta.
  destruct (_ && _); simpl; exact H.
Qed.

Lemma fold_handle_event_stopped (events : list Event) (g : Game.t) :
  running g = false -> running (fold_left handle_event events g) = false.
Proof.
  revert g. induction events as [ | e l IH ]; intros g H; simpl;
    [ exact H | ].
  apply IH, handle_event_stopped, H.
Qed.

Lemma frame_running (g : Game.t) dt events space_held :
  running (frame g dt events space_held)
  = running (fold_left handle_event events g).
Proof.
  unfold frame.
  assert (U : forall g0, running (update g0 dt) = running g0).
  { intros g0. unfold update.
    destruct (paused g0 || game_over g0); [ reflexivity | ].
    destruct (drain_check_controls (update_timers (update_motion g0 dt) dt))
      as (_ & _ & _ & _ & _ & D & _).
    destruct (update_timers_controls (update_motion g0 dt) dt)
      as (_ & _ & _ & T & _).
    destruct (update_motion_controls g0 dt)
      as (_ & _ & _ & _ & _ & _ & M & _).
    congruence. }
  rewrite U. unfold handle_events. cbv zeta.
  set (g1 := fold_left handle_event events g).
  destruct (_ && _); [ | reflexivity ].
  destruct space_held; [ reflexivity | ].
  destruct (Rgt_dec _ 0); [ | reflexivity ].
  unfold launch_ball. destruct (Ball.in_play (ball g1)); [ reflexivity | ].
  destruct (uniform _ _ _). reflexivity.
Qed.

(** X30: closing the window or pressing Escape ends the session at the end
    of the frame in which the event arrives: the rest of the events of that
    frame and its update are still processed, no later frame is, and a game
    that is not running is returned as it is. *)
Theorem quit_ends_the_loop (g : Game.t) (dt : R) (events : list Event)
    (space_held : bool) (rest : list (R * list Event * bool)) :
  running g = true ->
  existsb quits events = true ->
  run_loop g ((dt, events, space_held) :: rest)
  = frame g dt events space_held
  /\ running (frame g dt events space_held) = false.
Proof.
  intros Hr Hq.
  assert (Hstop : running (frame g dt events space_held) = false).
  { rewrite frame_running. clear Hr. revert g.
    induction events as [ | e l IH ]; intros g; simpl in *;
      [ discriminate | ].
    destruct (quits e) eqn:He; simpl in Hq.
    - apply fold_handle_event_stopped, handle_event_quits, He.
    - apply IH, Hq. }
  split; [ | exact Hstop ].
  simpl. rewrite Hr.
  destruct rest as [ | [[dt' ev'] sp'] rest' ]; simpl; [ reflexivity | ].
  rewrite Hstop. reflexivity.
Qed.

End SessionRules.

(** ** Worked examples of the session rules *)

Lemma tilt_keeps_flippers_off_witness :
  tilt_lock tilted_game
  /\ tilt_lock (Game.frame tilted_game (/ 60) [KEYDOWN K_LEFT] false).
Proof.
  assert (H : tilt_lock tilted_game) by (intros _; split; reflexivity).
  split; [ exact H | ].
  apply (tilt_keeps_flippers_off tilted_game (/ 60) [KEYDOWN K_LEFT] false H).
Defined.

Lemma tilt_meter_only_decays_witness :
  0 <= / 60
  /\ 0 <= Game.tilt_meter nudged_game
  /\ 0 <= Game.tilt_meter (Game.update nudged_game (/ 60))
       <= Game.tilt_meter nudged_game.
Proof.
  assert (H1 : 0 <= / 60) by lra.
  assert (H2 : 0 <= Game.tilt_meter nudged_game) by (simpl; lra).
  split; [ exact H1 | ]. split; [ exact H2 | ].
  destruct (tilt_meter_only_decays nudged_game (/ 60) H1 H2) as (H & _).
  exact H.
Defined.

Lemma plunger_stays_in_range_witness :
  plunger_ok table /\ plunger_ok (Game.frame table (/ 60) [] true).
Proof.
  assert (H : plunger_ok table)
    by (unfold plunger_ok; simpl; unfold PLUNGER_MAX; lra).
  split; [ exact H | ].
  apply (plunger_stays_in_range table (/ 60) [] true H).
Defined.

Lemma launch_speed_is_charge_witness :
  Ball.in_play (Game.ball idle_game) = false
  /\ 0 <= Game.plunger_power idle_game + 400
  /\ Vec2.length (Ball.vel (Game.ball (Game.launch_ball idle_game)))
     = Game.plunger_power idle_game + 400.
Proof.
  assert (H1 : Ball.in_play (Game.ball idle_game) = false) by reflexivity.
  assert (H2 : 0 <= Game.plunger_power idle_game + 400) by (simpl; lra).
  split; [ exact H1 | ]. split; [ exact H2 | ].
  pose proof (launch_speed_is_charge idle_game H1 H2) as T.
  cbv zeta in T. destruct T as (H & _). exact H.
Defined.

Lemma multiplier_needs_running_timer_witness :
  mult_ok table /\ mult_ok (Game.frame table (/ 60) [KEYDOWN K_n] false).
Proof.
  assert (H : mult_ok table) by (left; reflexivity).
  split; [ exact H | ].
  apply (multiplier_needs_running_timer table (/ 60) [KEYDOWN K_n] false H).
Defined.

Lemma score_never_drops_witness :
  scores_nonneg table
  /\ (0 <= Game.bumper_mult table)%Z
  /\ (Game.score table <= Game.score (Game.update table (/ 60)))%Z.
Proof.
  assert (H1 : scores_nonneg table) by apply init_scores.
  assert (H2 : (0 <= Game.bumper_mult table)%Z) by (simpl; lia).
  split; [ exact H1 | ]. split; [ exact H2 | ].
  apply (score_never_drops table (/ 60) H1 H2).
Defined.

Lemma game_over_until_restart_witness :
  Game.game_over finished_game = true
  /\ ~ In (KEYDOWN K_r) [KEYDOWN K_p; KEYDOWN K_n]
  /\ over_frame finished_game
       (Game.frame finished_game (/ 60) [KEYDOWN K_p; KEYDOWN K_n] true).
Proof.
  assert (H1 : Game.game_over finished_game = true) by reflexivity.
  assert (H2 : ~ In (KEYDOWN K_r) [KEYDOWN K_p; KEYDOWN K_n]).
  { intros [H | [H | []]]; discriminate H. }
  split; [ exact H1 | ]. split; [ exact H2 | ].
  apply (game_over_until_restart finished_game (/ 60)
           [KEYDOWN K_p; KEYDOWN K_n] true H1 H2).
Defined.

Lemma wall_phase_keeps_ball_inside_witness :
  Ball.radius (Game.ball table) <= 133
  /\ Vec2.x (Ball.pos (Game.ball (Game.handle_wall_collisions table)))
     + Ball.radius (Game.ball (Game.handle_wall_collisions table))
     <= WIDTH - 160.
Proof.
  assert (H : Ball.radius (Game.ball table) <= 133)
    by (simpl; unfold BALL_RADIUS; lra).
  split; [ exact H | ].
  pose proof (wall_phase_keeps_ball_inside table H) as T.
  cbv zeta in T. destruct T as (_ & T & _). exact T.
Defined.

Lemma third_nudge_tilts_witness :
  0 <= Game.tilt_meter table < 1
  /\ Game.tilt_active table = false
  /\ Game.tilt_active (Game.do_nudge (Game.do_nudge table)) = false
  /\ Game.tilt_active (Game.do_nudge (Game.do_nudge (Game.do_nudge table)))
     = true.
Proof.
  assert (H1 : 0 <= Game.tilt_meter table < 1) by (simpl; lra).
  assert (H2 : Game.tilt_active table = false) by reflexivity.
  split; [ exact H1 | ]. split; [ exact H2 | ].
  pose proof (third_nudge_tilts table H1 H2) as T.
  cbv zeta in T. destruct T as (_ & A & B & _).
  split; [ exact A | exact B ].
Defined.

Lemma quit_ends_the_loop_witness :
  Game.running table = true
  /\ existsb quits [KEYDOWN K_LEFT; QUIT] = true
  /\ Game.run_loop table
       [ (/ 60, [KEYDOWN K_LEFT; QUIT], false); (/ 60, [], true) ]
     = Game.frame table (/ 60) [KEYDOWN K_LEFT; QUIT] false
  /\ Game.running (Game.frame table (/ 60) [KEYDOWN K_LEFT; QUIT] false)
     = false.
Proof.
  assert (H1 : Game.running table = true) by reflexivity.
  assert (H2 : existsb quits [KEYDOWN K_LEFT; QUIT] = true) by reflexivity.
  split; [ exact H1 | ]. split; [ exact H2 | ].
  apply (quit_ends_the_loop table (/ 60) [KEYDOWN K_LEFT; QUIT] false
           [ (/ 60, [], true) ] H1 H2).
Defined.
